(** * generate-setup-cfg: a shallow embedding of [generate-setup-cfg.py]

    The script runs [setup.py egg_info], reads the produced [*.egg-info]
    directory, translates the metadata through the static table
    [METADATA_KEYS], merges the result into an existing [setup.cfg] with
    [configparser.ConfigParser], sorts the sections and writes the file back.

    Layout of this development:
    - [Py]: the Python builtins the script calls ([str.strip], [str.lower],
      [str.split], [str.join], [repr], [sorted], insertion-ordered [dict]);
    - [ConfigParser]: the part of the standard [configparser] module the
      script relies on ([read], [set], [add_section], [get] with basic
      interpolation, [write]);
    - the script itself: the three handlers, [METADATA_KEYS], the parsing
      of [requires.txt], [sections_key] and [main];
    - the theorems.

    Text is modelled as [string] over ASCII; the platform is POSIX
    ([os.linesep] is one line feed, [os.sep] is a slash). *)

From Stdlib Require Import String Ascii List Bool Arith NArith Lia.
From Stdlib Require Import Permutation Sorted.
Import ListNotations.
Open Scope string_scope.
Open Scope nat_scope.

Set Implicit Arguments.

(* ================================================================== *)
(** * Python builtins *)
(* ================================================================== *)

Module Py.

(** ** Characters *)

Definition chr (n : nat) : string := String (ascii_of_nat n) "".

Definition LF : string := chr 10.
Definition TAB : string := chr 9.

(** [str.isspace] on one ASCII character: TAB, LF, VT, FF, CR, the four
    separators FS, GS, RS, US and the space. *)
Definition is_space (c : ascii) : bool :=
  let n := nat_of_ascii c in
  ((9 <=? n) && (n <=? 13)) || ((28 <=? n) && (n <=? 32)).

Definition is_upper (c : ascii) : bool :=
  let n := nat_of_ascii c in (65 <=? n) && (n <=? 90).

Definition lower_char (c : ascii) : ascii :=
  if is_upper c then ascii_of_nat (nat_of_ascii c + 32) else c.

(** ** [str] methods *)

Fixpoint map_string (f : ascii -> ascii) (s : string) : string :=
  match s with
  | EmptyString => EmptyString
  | String c s' => String (f c) (map_string f s')
  end.

(** [s.lower()] *)
Definition lower (s : string) : string := map_string lower_char s.

(** [s.lstrip()] *)
Fixpoint lstrip (s : string) : string :=
  match s with
  | EmptyString => EmptyString
  | String c s' => if is_space c then lstrip s' else s
  end.

(** [s.rstrip()] *)
Fixpoint rstrip (s : string) : string :=
  match s with
  | EmptyString => EmptyString
  | String c s' =>
      match rstrip s' with
      | EmptyString => if is_space c then EmptyString else String c EmptyString
      | r => String c r
      end
  end.

(** [s.strip()] *)
Definition strip (s : string) : string := lstrip (rstrip s).

(** [s.startswith(p)] *)
Definition startswith (s p : string) : bool := String.prefix p s.

(** [c in s] for a one-character [c] *)
Fixpoint contains_char (c : ascii) (s : string) : bool :=
  match s with
  | EmptyString => false
  | String d s' => Ascii.eqb c d || contains_char c s'
  end.

(** [s[n:]] *)
Fixpoint drop (n : nat) (s : string) : string :=
  match n, s with
  | 0, _ => s
  | S _, EmptyString => EmptyString
  | S k, String _ s' => drop k s'
  end.

(** [s[1:-1]] *)
Fixpoint init (s : string) : string :=
  match s with
  | EmptyString => EmptyString
  | String c EmptyString => EmptyString
  | String c s' => String c (init s')
  end.

Definition slice_1_m1 (s : string) : string := init (drop 1 s).

(** [s.split(sep)] for a non-empty [sep]: the pieces between the
    non-overlapping occurrences of [sep], found from the left.  [skip] counts
    the characters of an occurrence that are still to be passed over, [cur]
    is the piece being read. *)
Fixpoint split_go (sep : string) (skip : nat) (cur : string) (s : string)
  : list string :=
  match s with
  | EmptyString => [cur]
  | String c s' =>
      match skip with
      | S k => split_go sep k cur s'
      | 0 =>
          if String.prefix sep s
          then cur :: split_go sep (String.length sep - 1) EmptyString s'
          else split_go sep 0 (cur ++ String c EmptyString) s'
      end
  end.

Definition split (s sep : string) : list string := split_go sep 0 "" s.

(** [sep.join(l)] *)
Definition join (sep : string) (l : list string) : string :=
  String.concat sep l.

(** [s.replace(old, new)] for a non-empty [old]; Python guarantees
    [s.replace(old, new) == new.join(s.split(old))]. *)
Definition replace (s old new : string) : string := join new (split s old).

(** ** [repr] of a string and of a list of strings *)

Definition hex_digit (n : nat) : ascii :=
  if n <? 10 then ascii_of_nat (48 + n) else ascii_of_nat (87 + n).

Definition repr_char (quote : ascii) (c : ascii) : string :=
  let n := nat_of_ascii c in
  if Ascii.eqb c quote || Ascii.eqb c "\"%char then String "\"%char (String c "")
  else if n =? 9 then "\t"
  else if n =? 10 then "\n"
  else if n =? 13 then "\r"
  else if (n <? 32) || (n =? 127)
       then String "\"%char (String "x"%char
              (String (hex_digit (n / 16)) (String (hex_digit (n mod 16)) "")))
  else String c "".

Fixpoint concat_map_string (f : ascii -> string) (s : string) : string :=
  match s with
  | EmptyString => EmptyString
  | String c s' => f c ++ concat_map_string f s'
  end.

Definition squote : ascii := "'"%char.
Definition dquote : ascii := ascii_of_nat 34.

(** [repr(s)]: single quotes unless [s] holds a single quote and no double
    quote. *)
Definition repr_str (s : string) : string :=
  let q := if contains_char squote s && negb (contains_char dquote s)
           then dquote else squote in
  String q (concat_map_string (repr_char q) s ++ String q "").

(** [repr(l)], which is also [str(l)] *)
Definition repr_list (l : list string) : string :=
  "[" ++ join ", " (map repr_str l) ++ "]".

(** ** Insertion-ordered dictionaries

    A Python [dict] keeps its keys in the order of their first insertion;
    assigning to a key that is present replaces the value in place. *)

Section Dict.
Variable V : Type.

Definition dict := list (string * V).

Fixpoint get (d : dict) (k : string) : option V :=
  match d with
  | [] => None
  | (k', v) :: d' => if String.eqb k k' then Some v else get d' k
  end.

Definition mem (d : dict) (k : string) : bool :=
  match get d k with Some _ => true | None => false end.

(** [d[k] = v] *)
Fixpoint set (d : dict) (k : string) (v : V) : dict :=
  match d with
  | [] => [(k, v)]
  | (k', v') :: d' =>
      if String.eqb k k' then (k', v) :: d' else (k', v') :: set d' k v
  end.

Definition keys (d : dict) : list string := map fst d.

(** [d1.update(d2)] *)
Definition update (d1 d2 : dict) : dict :=
  fold_left (fun d kv => set d (fst kv) (snd kv)) d2 d1.
End Dict.

(** ** [sorted(l, key=key)]

    [sorted] is stable: elements with equal keys keep their relative order.
    Strings compare lexicographically by code point. *)

Section Sorted.
Variable A : Type.
Variable key : A -> string.

Fixpoint insert (x : A) (l : list A) : list A :=
  match l with
  | [] => [x]
  | y :: l' =>
      if String.leb (key x) (key y) then x :: l else y :: insert x l'
  end.

Fixpoint sorted (l : list A) : list A :=
  match l with
  | [] => []
  | x :: l' => insert x (sorted l')
  end.
End Sorted.

(** ** Iterating over a text file

    A file opened in text mode translates [\r\n] and a lone [\r] to [\n];
    iterating over it yields the lines with their line feed. *)

Definition is_lf (c : ascii) : bool := nat_of_ascii c =? 10.
Definition is_cr (c : ascii) : bool := nat_of_ascii c =? 13.

Fixpoint universal_newlines (prev_cr : bool) (s : string) : string :=
  match s with
  | EmptyString => EmptyString
  | String c s' =>
      if is_cr c then String (ascii_of_nat 10) (universal_newlines true s')
      else if is_lf c then
             if prev_cr then universal_newlines false s'
             else String c (universal_newlines false s')
      else String c (universal_newlines false s')
  end.

Fixpoint lines_go (cur : string) (s : string) : list string :=
  match s with
  | EmptyString => match cur with EmptyString => [] | _ => [cur] end
  | String c s' =>
      if is_lf c then (cur ++ String c EmptyString) :: lines_go EmptyString s'
      else lines_go (cur ++ String c EmptyString) s'
  end.

(** [list(open(path))] for a file holding [content] *)
Definition file_lines (content : string) : list string :=
  lines_go "" (universal_newlines false content).

End Py.


(* ================================================================== *)
(** * Outcomes of a run *)
(* ================================================================== *)

(** The exceptions the script can die of.  None of them is caught. *)
Inductive exn : Type :=
| MissingSectionHeaderError
| DuplicateSectionError
| DuplicateOptionError
| ParsingError
| NoSectionError
| NoOptionError
| ValueError
| InterpolationSyntaxError
| InterpolationMissingOptionError
| InterpolationDepthError
| OSError.

(** A computation returns a value or dies of an exception. *)
Inductive outcome (A : Type) : Type :=
| Ok (a : A)
| Raise (e : exn).

Arguments Ok {A} a.
Arguments Raise {A} e.

Definition bind {A B : Type} (m : outcome A) (k : A -> outcome B) : outcome B :=
  match m with
  | Ok a => k a
  | Raise e => Raise e
  end.

Notation "x <- m ;; k" := (bind m (fun x => k))
  (at level 61, m at next level, right associativity).

(** [for x in l: st = body(st, x)], stopping at the first exception *)
Fixpoint for_each {A S : Type} (l : list A) (body : S -> A -> outcome S) (st : S)
  : outcome S :=
  match l with
  | [] => Ok st
  | x :: l' => st' <- body st x ;; for_each l' body st'
  end.

(* ================================================================== *)
(** * The standard [configparser] module *)
(* ================================================================== *)

Module ConfigParser.
Import Py.

(** The state of a [ConfigParser] object: [_defaults] and [_sections].
    The parser is built with its default options: delimiters [=] and [:],
    comment prefixes [#] and [;], no inline comments, [strict],
    [empty_lines_in_values], default section [DEFAULT], basic
    interpolation, no valueless options. *)
Record t : Type := mk {
  defaults : dict string;
  sections : dict (dict string)
}.

Definition empty : t := mk [] [].

Definition default_section : string := "DEFAULT".

(** [optionxform] *)
Definition optionxform (optionstr : string) : string := lower optionstr.

(** [sections()] *)
Definition section_names (p : t) : list string := keys (sections p).

(** [has_section] *)
Definition has_section (p : t) (section : string) : bool :=
  mem (sections p) section.

(** [add_section] *)
Definition add_section (p : t) (section : string) : outcome t :=
  if String.eqb section default_section then Raise ValueError
  else if mem (sections p) section then Raise DuplicateSectionError
  else Ok (mk (defaults p) (set (sections p) section [])).

(** ** Basic interpolation *)

(** The characters before the first [)], and what follows it. *)
Fixpoint until_rparen (s : string) : option (string * string) :=
  match s with
  | EmptyString => None
  | String c s' =>
      if Ascii.eqb c ")"%char then Some (EmptyString, s')
      else match until_rparen s' with
           | Some (n, r) => Some (String c n, r)
           | None => None
           end
  end.

(** [_KEYCRE.match(s)] for the pattern [%\(([^)]+)\)s]: the group and the
    text after the match. *)
Definition keycre_match (s : string) : option (string * string) :=
  match s with
  | String "%"%char (String "("%char r) =>
      match until_rparen r with
      | Some (String c n, String "s"%char rest) => Some (String c n, rest)
      | _ => None
      end
  | _ => None
  end.

(** [_KEYCRE.sub('', s)] *)
Fixpoint keycre_sub_go (skip : nat) (s : string) : string :=
  match s with
  | EmptyString => EmptyString
  | String c s' =>
      match skip with
      | S k => keycre_sub_go k s'
      | 0 =>
          match keycre_match s with
          | Some (name, _) => keycre_sub_go (String.length name + 3) s'
          | None => String c (keycre_sub_go 0 s')
          end
      end
  end.

Definition keycre_sub (s : string) : string := keycre_sub_go 0 s.

(** [BasicInterpolation.before_set] *)
Definition before_set (value : string) : outcome string :=
  let tmp_value := replace value "%%" "" in
  let tmp_value := keycre_sub tmp_value in
  if contains_char "%"%char tmp_value then Raise ValueError else Ok value.

Definition MAX_INTERPOLATION_DEPTH : nat := 10.

(** [BasicInterpolation._interpolate_some]; [budget] is the number of
    nested calls still allowed, so the call at depth [d] runs with budget
    [MAX_INTERPOLATION_DEPTH + 1 - d].  The loop reads [rest] from the left;
    [skip] counts the characters of a reference already consumed. *)
Fixpoint interpolate_some (budget : nat) (map : string -> option string)
  : string -> outcome string :=
  match budget with
  | 0 => fun _ => Raise InterpolationDepthError
  | S b =>
      (fix loop (skip : nat) (rest : string) {struct rest} : outcome string :=
        match rest with
        | EmptyString => Ok EmptyString
        | String c rest' =>
            match skip with
            | S k => loop k rest'
            | 0 =>
                if negb (Ascii.eqb c "%"%char) then
                  r <- loop 0 rest' ;; Ok (String c r)
                else
                  match rest' with
                  | String "%"%char _ =>
                      r <- loop 1 rest' ;; Ok (String "%"%char r)
                  | String "("%char _ =>
                      match keycre_match rest with
                      | None => Raise InterpolationSyntaxError
                      | Some (name, _) =>
                          match map (optionxform name) with
                          | None => Raise InterpolationMissingOptionError
                          | Some v =>
                              v' <- (if contains_char "%"%char v
                                     then interpolate_some b map v
                                     else Ok v) ;;
                              r <- loop (String.length name + 3) rest' ;;
                              Ok (v' ++ r)
                          end
                      end
                  | _ => Raise InterpolationSyntaxError
                  end
            end
        end) 0
  end.

(** [BasicInterpolation.before_get] *)
Definition before_get (value : string) (map : string -> option string)
  : outcome string :=
  interpolate_some MAX_INTERPOLATION_DEPTH map value.

(** [_unify_values]: the section's options, then the defaults. *)
Definition unify_values (p : t) (sectiondict : dict string) (k : string)
  : option string :=
  match get sectiondict k with
  | Some v => Some v
  | None => get (defaults p) k
  end.

(** [get(section, option)] *)
Definition get_option (p : t) (section option : string) : outcome string :=
  match get (sections p) section with
  | None =>
      if String.eqb section default_section
      then match get (defaults p) (optionxform option) with
           | Some v => before_get v (unify_values p [])
           | None => Raise NoOptionError
           end
      else Raise NoSectionError
  | Some sectiondict =>
      match unify_values p sectiondict (optionxform option) with
      | Some v => before_get v (unify_values p sectiondict)
      | None => Raise NoOptionError
      end
  end.

(** [options(section)] *)
Definition options (p : t) (section : string) : outcome (list string) :=
  match get (sections p) section with
  | None => Raise NoSectionError
  | Some opts => Ok (keys (update opts (defaults p)))
  end.

(** [set(section, option, value)] of [ConfigParser] *)
Definition set_option (p : t) (section option value : string) : outcome t :=
  value <- (if String.eqb value "" then Ok value else before_set value) ;;
  if String.eqb section "" || String.eqb section default_section then
    Ok (mk (set (defaults p) (optionxform option) value) (sections p))
  else
    match get (sections p) section with
    | None => Raise NoSectionError
    | Some sectdict =>
        Ok (mk (defaults p)
               (set (sections p) section
                    (set sectdict (optionxform option) value)))
    end.

(** ** [write] *)

(** [_write_section] *)
Definition write_section (section_name : string) (section_items : dict string)
  : string :=
  "[" ++ section_name ++ "]" ++ LF
  ++ String.concat ""
       (map (fun kv => fst kv ++ " = " ++ replace (snd kv) LF (LF ++ TAB) ++ LF)
            section_items)
  ++ LF.

(** [write(fp)]: the text written to [fp] *)
Definition write (p : t) : string :=
  (match defaults p with
   | [] => ""
   | _ => write_section default_section (defaults p)
   end)
  ++ String.concat ""
       (map (fun sd => write_section (fst sd) (snd sd)) (sections p)).

(** ** [read] *)

(** [SECTCRE.match(value)] for the pattern [\[(?P<header>.+)\]]: the header
    runs up to the last closing bracket and is not empty. *)
Fixpoint before_last_rbracket (s : string) : option string :=
  match s with
  | EmptyString => None
  | String c s' =>
      match before_last_rbracket s' with
      | Some h => Some (String c h)
      | None => if Ascii.eqb c "]"%char then Some EmptyString else None
      end
  end.

Definition sectcre_match (value : string) : option string :=
  match value with
  | String "["%char rest =>
      match before_last_rbracket rest with
      | Some (String c h) => Some (String c h)
      | _ => None
      end
  | _ => None
  end.

Definition is_delimiter (c : ascii) : bool :=
  Ascii.eqb c "="%char || Ascii.eqb c ":"%char.

Fixpoint until_delimiter (s : string) : option (string * string) :=
  match s with
  | EmptyString => None
  | String c s' =>
      if is_delimiter c then Some (EmptyString, s')
      else match until_delimiter s' with
           | Some (o, v) => Some (String c o, v)
           | None => None
           end
  end.

(** [OPTCRE.match(value)]: the groups [option] and [value].  The option is
    the text before the first delimiter without the blanks that end it, the
    value is what follows the delimiter and the blanks after it. *)
Definition optcre_match (value : string) : option (string * string) :=
  match until_delimiter value with
  | Some (o, v) => Some (rstrip o, lstrip v)
  | None => None
  end.

(** The local state of [_read].  While the file is read an option holds
    the list of its lines.  [cursect] is [None] exactly when [sectname] is;
    otherwise it is [_defaults] when [sectname] is the default section and
    [_sections[sectname]] when it is not. *)
Record rstate : Type := mk_rstate {
  r_defaults : dict (list string);
  r_sections : dict (dict (list string));
  added_sections : list string;
  added_options : list (string * string);
  sectname : option string;
  optname : option string;
  indent_level : nat;
  e : bool
}.

Definition rstate0 : rstate := mk_rstate [] [] [] [] None None 0 false.

Definition cursect (st : rstate) (sn : string) : dict (list string) :=
  if String.eqb sn default_section then r_defaults st
  else match get (r_sections st) sn with Some d => d | None => [] end.

Definition set_cursect (st : rstate) (sn : string) (d : dict (list string))
  : rstate :=
  if String.eqb sn default_section then
    mk_rstate d (r_sections st) (added_sections st) (added_options st)
      (sectname st) (optname st) (indent_level st) (e st)
  else
    mk_rstate (r_defaults st) (set (r_sections st) sn d) (added_sections st)
      (added_options st) (sectname st) (optname st) (indent_level st) (e st).

(** [cursect[optname].append(value)] *)
Definition append_line (st : rstate) (sn on value : string) : rstate :=
  match get (cursect st sn) on with
  | Some ls => set_cursect st sn (set (cursect st sn) on (ls ++ [value])%list)
  | None => st
  end.

Definition mem_string (x : string) (l : list string) : bool :=
  existsb (String.eqb x) l.

Definition mem_pair (x : string * string) (l : list (string * string)) : bool :=
  existsb (fun y => String.eqb (fst x) (fst y) && String.eqb (snd x) (snd y)) l.

(** [if cursect is not None and optname]: the section and the non-empty
    option name a continuation line would extend. *)
Definition open_option (st : rstate) : option (string * string) :=
  match sectname st, optname st with
  | Some sn, Some (String c o) => Some (sn, String c o)
  | _, _ => None
  end.

(** One turn of the loop of [_read]. *)
Definition read_line (st : rstate) (line : string) : outcome rstate :=
  let stripped := strip line in
  let comment := startswith stripped "#" || startswith stripped ";" in
  let value := if comment then "" else stripped in
  if String.eqb value "" then
    match open_option st with
    | Some (sn, on) => if comment then Ok st else Ok (append_line st sn on "")
    | None => Ok st
    end
  else
    let cur_indent_level := String.length line - String.length (lstrip line) in
    let continued :=
      match open_option st with
      | Some (sn, on) =>
          if indent_level st <? cur_indent_level
          then Some (append_line st sn on value) else None
      | None => None
      end in
    match continued with
    | Some st' => Ok st'
    | None =>
        match sectcre_match value with
        | Some header =>
            if mem (r_sections st) header then
              if mem_string header (added_sections st)
              then Raise DuplicateSectionError
              else Ok (mk_rstate (r_defaults st) (r_sections st)
                         (header :: added_sections st) (added_options st)
                         (Some header) None cur_indent_level (e st))
            else if String.eqb header default_section then
              Ok (mk_rstate (r_defaults st) (r_sections st)
                    (added_sections st) (added_options st)
                    (Some header) None cur_indent_level (e st))
            else
              Ok (mk_rstate (r_defaults st) (set (r_sections st) header [])
                    (header :: added_sections st) (added_options st)
                    (Some header) None cur_indent_level (e st))
        | None =>
            match sectname st with
            | None => Raise MissingSectionHeaderError
            | Some sn =>
                match optcre_match value with
                | Some (o, optval) =>
                    let e' := e st || String.eqb o "" in
                    let on := optionxform (rstrip o) in
                    if mem_pair (sn, on) (added_options st)
                    then Raise DuplicateOptionError
                    else
                      let st' :=
                        mk_rstate (r_defaults st) (r_sections st)
                          (added_sections st) ((sn, on) :: added_options st)
                          (Some sn) (Some on) cur_indent_level e' in
                      Ok (set_cursect st' sn
                            (set (cursect st' sn) on [strip optval]))
                | None =>
                    Ok (mk_rstate (r_defaults st) (r_sections st)
                          (added_sections st) (added_options st)
                          (Some sn) (optname st) cur_indent_level true)
                end
            end
        end
    end.

(** [_join_multiline_values] on one section *)
Definition join_multiline_values (d : dict (list string)) : dict string :=
  map (fun kv => (fst kv, rstrip (join LF (snd kv)))) d.

(** [_read] on a parser that holds nothing yet *)
Definition read_lines (lines : list string) : outcome t :=
  st <- for_each lines read_line rstate0 ;;
  let p := mk (join_multiline_values (r_defaults st))
              (map (fun sd => (fst sd, join_multiline_values (snd sd)))
                   (r_sections st)) in
  if e st then Raise ParsingError else Ok p.

(** [p = ConfigParser(); p.read(path)] where [path] holds [content] *)
Definition read (content : string) : outcome t :=
  read_lines (file_lines content).

End ConfigParser.

(* ================================================================== *)
(** * The script *)
(* ================================================================== *)

Import Py.

(** ** The world the script runs in *)

(** Values of the attributes of the [pkginfo] distribution object: [None],
    a string, or a list of strings. *)
Inductive pyval : Type :=
| PyNone
| PyStr (s : string)
| PyList (l : list string).

(** [str(value)] *)
Definition py_str (value : pyval) : string :=
  match value with
  | PyNone => "None"
  | PyStr s => s
  | PyList l => repr_list l
  end.

(** [str(b)] for a boolean *)
Definition str_bool (b : bool) : string := if b then "True" else "False".

Inductive node : Type :=
| File (content : string)
| Directory.

(** What the script observes once [setup.py egg_info] has returned: the
    paths below the working directory, the result of
    [glob.glob('*.egg-info')], and the attributes of [Develop('.')]. *)
Record World : Type := mk_world {
  path_lookup : string -> option node;
  glob_egg_info : list string;
  dist_attr : string -> pyval;
  dist_requires_python : option string
}.

(** [os.path.exists] *)
Definition path_exists (w : World) (path : string) : bool :=
  match path_lookup w path with
  | Some _ => true
  | None => false
  end.

Fixpoint ends_with_slash (s : string) : bool :=
  match s with
  | EmptyString => false
  | String c EmptyString => Ascii.eqb c "/"%char
  | String _ s' => ends_with_slash s'
  end.

(** [os.path.join(a, b)] *)
Definition path_join (a b : string) : string :=
  if startswith b "/" then b
  else if String.eqb a "" || ends_with_slash a then a ++ b
  else a ++ "/" ++ b.

(** [os.linesep] *)
Definition linesep : string := LF.

(** ** The handlers *)

Inductive handler : Type :=
| long_description_handler (setup_cfg_name : string)
| str_handler (setup_cfg_name : string)
| list_comma_handler (setup_cfg_name : string) (newline : bool).

Definition setup_cfg_name (h : handler) : string :=
  match h with
  | long_description_handler n => n
  | str_handler n => n
  | list_comma_handler n _ => n
  end.

Definition list_eqb (l1 l2 : list string) : bool :=
  if list_eq_dec string_dec l1 l2 then true else false.

(** [handler.serialize(value)] *)
Definition serialize (w : World) (h : handler) (value : pyval) : option string :=
  match h with
  | long_description_handler _ =>
      if path_exists w "README.rst" then Some "file: README.rst" else None
  | str_handler _ =>
      match value with
      | PyNone => None
      | _ => Some (py_str value)
      end
  | list_comma_handler _ newline =>
      let values :=
        match value with
        | PyStr s => PyList (split s ",")
        | _ => value
        end in
      match values with
      | PyList l =>
          if (List.length l =? 0) || list_eqb l ["UNKNOWN"] then None
          else if newline then Some (linesep ++ join linesep l)
          else Some (join ", " l)
      | _ => None
      end
  end.

Definition METADATA_KEYS : list (string * handler) :=
  [ ("name", str_handler "name");
    ("version", str_handler "version");
    ("home_page", str_handler "url");
    ("download_url", str_handler "download_url");
    ("author", str_handler "author");
    ("author_email", str_handler "author_email");
    ("maintainer", str_handler "maintainer");
    ("maintainer_email", str_handler "maintainer_email");
    ("classifiers", list_comma_handler "classifiers" true);
    ("license", str_handler "license");
    ("summary", str_handler "description");
    ("description", long_description_handler "long_description");
    ("keywords", list_comma_handler "keywords" false);
    ("platforms", list_comma_handler "platforms" false);
    ("provides", list_comma_handler "provides" false);
    ("requires", list_comma_handler "requires" false);
    ("obsoletes", list_comma_handler "obsoletes" false) ].

(** ** [requires.txt] *)

(** [requires[section]] of the [defaultdict(list)], read only *)
Definition group (requires : dict (list string)) (section : string)
  : list string :=
  match get requires section with
  | Some l => l
  | None => []
  end.

(** One turn of [for req in f]: the state is the current [section] and
    the dictionary [requires]. *)
Definition requires_line (st : string * dict (list string)) (req : string)
  : string * dict (list string) :=
  let (section, requires) := st in
  if startswith req "[" then (slice_1_m1 (strip req), requires)
  else if negb (String.eqb (strip req) "")
       then (section, set requires section (group requires section ++ [strip req])%list)
       else (section, requires).

Definition parse_requires (lines : list string) : dict (list string) :=
  snd (fold_left requires_line lines ("default", [])).

(** Reading [requires['default']] inserts the key when it is missing. *)
Definition touch_default (requires : dict (list string)) : dict (list string) :=
  if mem requires "default" then requires else set requires "default" [].

(** ** The ordering of the sections *)

Definition sections_key (section : string) : string :=
  if String.eqb section "metadata" then "a"
  else if String.eqb section "options" then "b"
  else if startswith section "options" then "c" ++ section
  else "d".

(** [conf._sections = OrderedDict([(section, conf._sections[section]) for
    section in sorted(conf._sections, key=sections_key)])] *)
Definition sort_sections (conf : ConfigParser.t) : ConfigParser.t :=
  ConfigParser.mk (ConfigParser.defaults conf)
    (map (fun section =>
            (section,
             match get (ConfigParser.sections conf) section with
             | Some d => d
             | None => []
             end))
         (sorted sections_key (keys (ConfigParser.sections conf)))).

(** ** [main] *)

(** [if not conf.has_section(name): conf.add_section(name)] *)
Definition ensure_section (conf : ConfigParser.t) (name : string)
  : outcome ConfigParser.t :=
  if ConfigParser.has_section conf name then Ok conf
  else ConfigParser.add_section conf name.

(** [p = ConfigParser(); p.read(path)]: a path that cannot be opened is
    skipped silently. *)
Definition read_config (w : World) (path : string) : outcome ConfigParser.t :=
  match path_lookup w path with
  | Some (File content) => ConfigParser.read content
  | _ => Ok ConfigParser.empty
  end.

(** Lines 105-108 *)
Definition populate_metadata (w : World) (conf : ConfigParser.t)
  : outcome ConfigParser.t :=
  for_each METADATA_KEYS
    (fun conf kh =>
       match serialize w (snd kh) (dist_attr w (fst kh)) with
       | Some translated =>
           ConfigParser.set_option conf "metadata" (setup_cfg_name (snd kh))
             translated
       | None => Ok conf
       end)
    conf.

(** Lines 111-115 *)
Definition populate_options (w : World) (egg_info_dir : string)
  (conf : ConfigParser.t) : outcome ConfigParser.t :=
  conf <- ConfigParser.set_option conf "options" "zip_safe"
            (str_bool (negb (path_exists w (path_join egg_info_dir "not-zip-safe")))) ;;
  conf <- ConfigParser.set_option conf "options" "packages" "find:" ;;
  conf <- ConfigParser.set_option conf "options" "include_package_data"
            (str_bool true) ;;
  match dist_requires_python w with
  | Some requires_python =>
      ConfigParser.set_option conf "options" "python_requires" requires_python
  | None => Ok conf
  end.

(** Lines 128-131: the value written for one group of entry points *)
Definition entry_points_value (entry : ConfigParser.t) (section : string)
  : outcome string :=
  items <- ConfigParser.options entry section ;;
  entry_points <-
    for_each items
      (fun entry_points item =>
         v <- ConfigParser.get_option entry section item ;;
         Ok (app entry_points [item ++ " = " ++ v]))
      [] ;;
  Ok (linesep ++ join linesep entry_points).

(** Lines 118-131 *)
Definition populate_entry_points (w : World) (egg_info_dir : string)
  (conf : ConfigParser.t) : outcome ConfigParser.t :=
  if path_exists w (path_join egg_info_dir "entry_points.txt") then
    entry <- read_config w (path_join egg_info_dir "entry_points.txt") ;;
    conf <- ensure_section conf "options.entry_points" ;;
    for_each (ConfigParser.section_names entry)
      (fun conf section =>
         value <- entry_points_value entry section ;;
         ConfigParser.set_option conf "options.entry_points" section value)
      conf
  else Ok conf.

(** Lines 155-163, once [requires] has been parsed *)
Definition set_requires (requires : dict (list string)) (conf : ConfigParser.t)
  : outcome ConfigParser.t :=
  let requires := touch_default requires in
  conf <- ConfigParser.set_option conf "options" "install_requires"
            (linesep ++ join linesep (group requires "default")) ;;
  if 1 <? List.length requires then
    conf <- ensure_section conf "options.extras_require" ;;
    for_each (sorted (fun section => section) (keys requires))
      (fun conf section =>
         if negb (String.eqb section "default")
         then ConfigParser.set_option conf "options.extras_require" section
                (join "; " (group requires section))
         else Ok conf)
      conf
  else Ok conf.

(** Lines 134-163 *)
Definition populate_requires (w : World) (egg_info_dir : string)
  (conf : ConfigParser.t) : outcome ConfigParser.t :=
  if path_exists w (path_join egg_info_dir "requires.txt") then
    match path_lookup w (path_join egg_info_dir "requires.txt") with
    | Some (File content) =>
        set_requires (parse_requires (file_lines content)) conf
    | _ => Raise OSError
    end
  else Ok conf.

(** Lines 90-175: the document that is written, from the one that was read *)
Definition merge (w : World) (egg_info_dir : string) (conf : ConfigParser.t)
  : outcome ConfigParser.t :=
  conf <- ensure_section conf "metadata" ;;
  conf <- ensure_section conf "options" ;;
  conf <- populate_metadata w conf ;;
  conf <- populate_options w egg_info_dir conf ;;
  conf <- populate_entry_points w egg_info_dir conf ;;
  conf <- populate_requires w egg_info_dir conf ;;
  Ok (sort_sections conf).

(** [open('setup.cfg', 'w')] followed by [conf.write(f)]: the new content
    of [setup.cfg] *)
Definition write_config (w : World) (conf : ConfigParser.t) : outcome string :=
  match path_lookup w "setup.cfg" with
  | Some Directory => Raise OSError
  | _ => Ok (ConfigParser.write conf)
  end.

(** The body of [main] once the metadata directory is known *)
Definition translate (w : World) (egg_info_dir : string) : outcome string :=
  conf <- read_config w "setup.cfg" ;;
  conf <- merge w egg_info_dir conf ;;
  write_config w conf.

(** What line 83 prints *)
Definition diagnostic (egg_info_dir : list string) : string :=
  "Expected only one .egg-info directory, got " ++ repr_list egg_info_dir ++ LF.

(** How the process ends: [main] returns after writing [setup.cfg], or
    line 84 leaves through [sys.exit] after line 83 has printed, or an
    exception nobody catches ends it with a traceback. *)
Inductive termination : Type :=
| Done (setup_cfg : string)
| Exit (status : nat) (printed : string)
| Uncaught (e : exn).

(** The exit status of the process *)
Definition exit_status (t : termination) : nat :=
  match t with
  | Done _ => 0
  | Exit status _ => status
  | Uncaught _ => 1
  end.

(** [main()] *)
Definition main (w : World) : termination :=
  let egg_info_dir := glob_egg_info w in
  if negb (List.length egg_info_dir =? 1) then Exit 1 (diagnostic egg_info_dir)
  else
    let egg_info_dir := hd "" egg_info_dir in
    match translate w egg_info_dir with
    | Ok setup_cfg => Done setup_cfg
    | Raise e => Uncaught e
    end.

(** The world in which [setup.cfg] holds [content] and nothing else has
    changed *)
Definition with_setup_cfg (w : World) (content : string) : World :=
  mk_world
    (fun path => if String.eqb path "setup.cfg" then Some (File content)
                 else path_lookup w path)
    (glob_egg_info w) (dist_attr w) (dist_requires_python w).

(* ================================================================== *)
(** * Notions used in the statements *)
(* ================================================================== *)

(** ** Looking into a document *)

(** The value of the option [name] in [section], when both are there. *)
Definition option_value (conf : ConfigParser.t) (section name : string)
  : option string :=
  match get (ConfigParser.sections conf) section with
  | Some d => get d name
  | None => None
  end.

(** The options of [section], in the order they are written. *)
Definition section_keys (conf : ConfigParser.t) (section : string)
  : list string :=
  match get (ConfigParser.sections conf) section with
  | Some d => keys d
  | None => []
  end.

(** The keys of a dictionary after [d[k] = v]: a key that is there keeps
    its place, a new one goes to the end. *)
Definition add_key (ks : list string) (k : string) : list string :=
  if existsb (String.eqb k) ks then ks else app ks [k].

(** The keys after the names of [names] have been set one after the
    other. *)
Definition keys_after (ks names : list string) : list string :=
  fold_left add_key names ks.

(** What [write] puts out for the default section: nothing when it has no
    option. *)
Definition default_block (conf : ConfigParser.t) : string :=
  match ConfigParser.defaults conf with
  | [] => ""
  | d => ConfigParser.write_section ConfigParser.default_section d
  end.

(** What [write] puts out for the section [section]: its header line, its
    options, an empty line. *)
Definition section_block (conf : ConfigParser.t) (section : string) : string :=
  ConfigParser.write_section section
    match get (ConfigParser.sections conf) section with
    | Some d => d
    | None => []
    end.

(** No section name and no option name occurs twice, which a Python [dict]
    guarantees by construction. *)
Definition dicts_distinct {V : Type} (ds : dict V) (ss : dict (dict V)) : Prop :=
  NoDup (keys ds)
  /\ NoDup (keys ss)
  /\ Forall (fun sd => NoDup (keys (snd sd))) ss.

Definition well_formed (conf : ConfigParser.t) : Prop :=
  dicts_distinct (ConfigParser.defaults conf) (ConfigParser.sections conf).

(** Every option name is as [optionxform] leaves it. *)
Definition stored_name (name : string) : Prop :=
  ConfigParser.optionxform name = name.

Definition dicts_stored {V : Type} (ds : dict V) (ss : dict (dict V)) : Prop :=
  Forall stored_name (keys ds)
  /\ Forall (fun sd => Forall stored_name (keys (snd sd))) ss.

Definition stored_names (conf : ConfigParser.t) : Prop :=
  dicts_stored (ConfigParser.defaults conf) (ConfigParser.sections conf).

(** The section names of a document with the option names of each, in
    their order: what is left of it when the values are forgotten. *)
Definition shape (conf : ConfigParser.t) : dict (list string) :=
  map (fun sd => (fst sd, keys (snd sd))) (ConfigParser.sections conf).

(** [set] takes the value: it is empty or passes [before_set]. *)
Definition accepted (value : string) : Prop :=
  (if String.eqb value "" then Ok value else ConfigParser.before_set value)
  = Ok value.

(** What holds of the two dictionaries all along [_read]. *)
Definition read_invariant (st : ConfigParser.rstate) : Prop :=
  dicts_distinct (ConfigParser.r_defaults st) (ConfigParser.r_sections st)
  /\ dicts_stored (ConfigParser.r_defaults st) (ConfigParser.r_sections st).

(** [s.removeprefix(p)] *)
Definition removeprefix (s p : string) : string :=
  if startswith s p then drop (String.length p) s else s.

(** [a] may come before [b] in a list sorted by [key]. *)
Definition key_le {A : Type} (key : A -> string) (a b : A) : Prop :=
  String.leb (key a) (key b) = true.

(** ** The section order as the specification words it

    [metadata] first, [options] second, every other name that starts with
    [options] third, the rest last; the third rank is ordered by name. *)
Definition spec_rank (section : string) : nat :=
  if String.eqb section "metadata" then 0
  else if String.eqb section "options" then 1
  else if startswith section "options" then 2
  else 3.

Definition spec_before (a b : string) : Prop :=
  spec_rank a < spec_rank b
  \/ (spec_rank a = spec_rank b
      /\ (spec_rank a = 2 -> String.leb a b = true)).

Definition last_rank (section : string) : bool := spec_rank section =? 3.

(** ** The requirement groups as the specification words them

    The requirement strings of group [g]: the stripped non-blank lines that
    are not headers and whose latest header before them names [g]; [cur] is
    the group in force at the head of [lines]. *)
Fixpoint spec_requirements (g cur : string) (lines : list string)
  : list string :=
  match lines with
  | [] => []
  | line :: rest =>
      if startswith line "[" then
        spec_requirements g (slice_1_m1 (strip line)) rest
      else if String.eqb (strip line) "" then spec_requirements g cur rest
      else if String.eqb cur g then strip line :: spec_requirements g cur rest
      else spec_requirements g cur rest
  end.

(** ** The run as a sequence of actions on the document

    Which sections the run creates and which options it sets does not depend
    on the document it starts from; [plan] lists them in the order [merge]
    performs them. *)
Inductive action : Type :=
| EnsureSection (section : string)
| SetOption (section option value : string).

Definition act (conf : ConfigParser.t) (a : action) : outcome ConfigParser.t :=
  match a with
  | EnsureSection section => ensure_section conf section
  | SetOption section option value =>
      ConfigParser.set_option conf section option value
  end.

(** [[f(x) for x in l]], stopping at the first exception *)
Fixpoint map_outcome {A B : Type} (f : A -> outcome B) (l : list A)
  : outcome (list B) :=
  match l with
  | [] => Ok []
  | x :: l' => y <- f x ;; ys <- map_outcome f l' ;; Ok (y :: ys)
  end.

Definition metadata_actions (w : World) : list action :=
  flat_map
    (fun kh =>
       match serialize w (snd kh) (dist_attr w (fst kh)) with
       | Some translated =>
           [SetOption "metadata" (setup_cfg_name (snd kh)) translated]
       | None => []
       end)
    METADATA_KEYS.

Definition options_actions (w : World) (egg_info_dir : string) : list action :=
  [ SetOption "options" "zip_safe"
      (str_bool (negb (path_exists w (path_join egg_info_dir "not-zip-safe"))));
    SetOption "options" "packages" "find:";
    SetOption "options" "include_package_data" (str_bool true) ]
  ++ match dist_requires_python w with
     | Some requires_python =>
         [SetOption "options" "python_requires" requires_python]
     | None => []
     end.

Definition entry_points_actions (w : World) (egg_info_dir : string)
  : outcome (list action) :=
  if path_exists w (path_join egg_info_dir "entry_points.txt") then
    entry <- read_config w (path_join egg_info_dir "entry_points.txt") ;;
    sets <- map_outcome
              (fun section =>
                 value <- entry_points_value entry section ;;
                 Ok (SetOption "options.entry_points" section value))
              (ConfigParser.section_names entry) ;;
    Ok (EnsureSection "options.entry_points" :: sets)
  else Ok [].

(** The extras in the order line 161 visits them *)
Definition extras (requires : dict (list string)) : list string :=
  filter (fun section => negb (String.eqb section "default"))
         (sorted (fun section => section) (keys requires)).

Definition set_requires_actions (requires : dict (list string)) : list action :=
  let requires := touch_default requires in
  SetOption "options" "install_requires"
    (linesep ++ join linesep (group requires "default"))
  :: (if 1 <? List.length requires then
        EnsureSection "options.extras_require"
        :: map (fun section =>
                  SetOption "options.extras_require" section
                    (join "; " (group requires section)))
               (extras requires)
      else []).

Definition requires_actions (w : World) (egg_info_dir : string)
  : outcome (list action) :=
  if path_exists w (path_join egg_info_dir "requires.txt") then
    match path_lookup w (path_join egg_info_dir "requires.txt") with
    | Some (File content) =>
        Ok (set_requires_actions (parse_requires (file_lines content)))
    | _ => Raise OSError
    end
  else Ok [].

Definition plan (w : World) (egg_info_dir : string) : outcome (list action) :=
  ep <- entry_points_actions w egg_info_dir ;;
  rq <- requires_actions w egg_info_dir ;;
  Ok ([EnsureSection "metadata"; EnsureSection "options"]
      ++ metadata_actions w ++ options_actions w egg_info_dir ++ ep ++ rq)%list.

Definition action_section (a : action) : string :=
  match a with
  | EnsureSection section => section
  | SetOption section _ _ => section
  end.

(** The sections the script names: none of them is the default section. *)
Definition script_section (section : string) : bool :=
  existsb (String.eqb section)
    ["metadata"; "options"; "options.entry_points"; "options.extras_require"].

(** The option an action sets, under the name the parser stores it. *)
Definition sets_option (a : action) (section name : string) : bool :=
  match a with
  | EnsureSection _ => false
  | SetOption s o _ =>
      String.eqb s section && String.eqb (ConfigParser.optionxform o) name
  end.

(** Some action of [acts] sets the option [name] of [section]. *)
Definition touches (acts : list action) (section name : string) : bool :=
  existsb (fun a => sets_option a section name) acts.

(** The value the last action that sets [name] of [section] gives it. *)
Fixpoint last_write (acts : list action) (section name : string)
  : option string :=
  match acts with
  | [] => None
  | a :: acts' =>
      match last_write acts' section name with
      | Some v => Some v
      | None =>
          match a with
          | SetOption s o v =>
              if sets_option a section name then Some v else None
          | EnsureSection _ => None
          end
      end
  end.

(** Every action that sets an option does so in a section of [known] or in
    one that an earlier action has made sure of. *)
Fixpoint scoped (known : list string) (acts : list action) : bool :=
  match acts with
  | [] => true
  | EnsureSection s :: acts' => scoped (s :: known) acts'
  | SetOption s _ _ :: acts' =>
      existsb (String.eqb s) known && scoped known acts'
  end.

(** ** Worlds used as examples *)

Definition files (l : list (string * node)) : string -> option node :=
  fun path => get l path.

Definition attributes (l : list (string * pyval)) : string -> pyval :=
  fun key => match get l key with Some v => v | None => PyNone end.

(** A project [foo] whose metadata directory holds the given files and
    whose working directory holds [others]. *)
Definition foo_world (egg_info others : list (string * node)) : World :=
  mk_world
    (files (("foo.egg-info", Directory)
            :: app (map (fun fn => ("foo.egg-info/" ++ fst fn, snd fn)) egg_info)
                   others))
    ["foo.egg-info"]
    (attributes [("name", PyStr "foo"); ("version", PyStr "1.0")])
    None.

Definition text (lines : list string) : string :=
  String.concat "" (map (fun l => l ++ LF) lines).

Definition requires_world : World :=
  foo_world [("requires.txt", File (text ["a"; "[extra1]"; "b"]))] [].

Definition extras_world : World :=
  foo_world [("requires.txt", File (text ["d"; "[zeta]"; "z"; "[alpha]"; "a"]))] [].

Definition unrelated_world : World :=
  foo_world [] [("setup.cfg", File (text ["[unrelated]"; "x = 1"]))].

Definition sections_world : World :=
  foo_world
    [("entry_points.txt", File (text ["[console_scripts]"; "foo = foo:main"]))]
    [("setup.cfg", File (text ["[zzz]"; "z = 1"; "[aaa]"; "a = 1"]))].


Definition marker_world : World :=
  foo_world
    [("requires.txt", File (text ["a"; "[test:python_version<'3']"; "mock"]))]
    [].

Definition readme_world : World :=
  foo_world [] [("README.rst", File "Foo")].

(** The summary of the project holds a bare percent sign. *)
Definition percent_world : World :=
  mk_world (files [("foo.egg-info", Directory)]) ["foo.egg-info"]
    (attributes [("name", PyStr "foo"); ("summary", PyStr "100% fun")])
    None.

(** A project with a marker file, a Python constraint and requirements
    without extras, and a [setup.cfg] written by hand. *)
Definition full_world : World :=
  mk_world
    (files [("foo.egg-info", Directory);
            ("foo.egg-info/not-zip-safe", File "");
            ("foo.egg-info/requires.txt", File (text ["a"; ""; "b"]));
            ("setup.cfg",
             File (text ["[options]"; "zip_safe = maybe"; "tests_require = t";
                         "[metadata]"; "url = old"; "custom = kept"]))])
    ["foo.egg-info"]
    (attributes [("name", PyStr "foo"); ("home_page", PyStr "https://foo");
                 ("keywords", PyStr "a,b")])
    (Some ">=3.6").

(** The document [read] makes of the [setup.cfg] of [full_world] *)
Definition full_conf : ConfigParser.t :=
  ConfigParser.mk []
    [("options", [("zip_safe", "maybe"); ("tests_require", "t")]);
     ("metadata", [("url", "old"); ("custom", "kept")])].

(** A document whose dependency sections were written by an earlier run *)
Definition earlier_conf : ConfigParser.t :=
  ConfigParser.mk []
    [("options", [("install_requires", LF ++ "old")]);
     ("options.entry_points", [("console_scripts", LF ++ "old = old:main")]);
     ("options.extras_require", [("test", "pytest")])].

(** A [setup.cfg] written by hand: a comment, an option name in upper
    case, a colon as delimiter. *)
Definition by_hand_world : World :=
  foo_world [] [("setup.cfg", File (text ["# kept by hand"; "[unrelated]"; "X : 1"]))].

(** A [setup.cfg] with a default section *)
Definition default_section_world : World :=
  foo_world [] [("setup.cfg", File (text ["[DEFAULT]"; "k = v"]))].

(** Requirements for an extra only: the [default] group is empty. *)
Definition only_extras_world : World :=
  foo_world [("requires.txt", File (text ["[test]"; "pytest"]))] [].

(** The summary of the project ends with a blank, which does not read
    back. *)
Definition trailing_blank_world : World :=
  mk_world (files [("foo.egg-info", Directory)]) ["foo.egg-info"]
    (attributes [("name", PyStr "foo"); ("summary", PyStr "fun ")]) None.

Definition two_dirs_world : World :=
  mk_world (files [("a.egg-info", Directory); ("b.egg-info", Directory)])
    ["a.egg-info"; "b.egg-info"] (attributes []) None.

(* ================================================================== *)
(** * Lemmas on the builtins *)
(* ================================================================== *)

Unset Implicit Arguments.

(** ** The order on strings *)

Lemma compare_cons (c1 c2 : ascii) (s1 s2 : string) :
  String.compare (String c1 s1) (String c2 s2)
  = match Ascii.compare c1 c2 with
    | Eq => String.compare s1 s2
    | ne => ne
    end.
Proof. reflexivity. Qed.

Lemma ascii_compare_refl (c : ascii) : Ascii.compare c c = Eq.
Proof. unfold Ascii.compare. apply N.compare_refl. Qed.

Lemma compare_refl (s : string) : String.compare s s = Eq.
Proof.
  induction s as [|c s IH]; [reflexivity|].
  rewrite compare_cons, ascii_compare_refl. exact IH.
Qed.

Lemma leb_refl (s : string) : String.leb s s = true.
Proof. unfold String.leb. now rewrite compare_refl. Qed.

Lemma ascii_compare_trans (a b c : ascii) (r : comparison) :
  Ascii.compare a b = r -> Ascii.compare b c = r -> Ascii.compare a c = r.
Proof.
  unfold Ascii.compare. intros H1 H2.
  destruct r.
  - apply N.compare_eq_iff in H1, H2. apply N.compare_eq_iff. congruence.
  - apply N.compare_lt_iff in H1, H2. apply N.compare_lt_iff.
    eapply N.lt_trans; eauto.
  - apply N.compare_gt_iff in H1, H2. apply N.compare_gt_iff.
    eapply N.lt_trans; eauto.
Qed.

Lemma compare_lt_trans (s1 s2 s3 : string) :
  String.compare s1 s2 = Lt -> String.compare s2 s3 = Lt ->
  String.compare s1 s3 = Lt.
Proof.
  revert s2 s3.
  induction s1 as [|a s1 IH]; intros [|b s2] [|c s3]; simpl; try congruence.
  destruct (Ascii.compare a b) eqn:Hab; try discriminate;
    destruct (Ascii.compare b c) eqn:Hbc; try discriminate; intros H1 H2.
  - apply Ascii.compare_eq_iff in Hab, Hbc. subst.
    rewrite ascii_compare_refl. eauto.
  - apply Ascii.compare_eq_iff in Hab. subst. now rewrite Hbc.
  - apply Ascii.compare_eq_iff in Hbc. subst. now rewrite Hab.
  - now rewrite (ascii_compare_trans _ _ _ _ Hab Hbc).
Qed.

Lemma leb_trans (s1 s2 s3 : string) :
  String.leb s1 s2 = true -> String.leb s2 s3 = true -> String.leb s1 s3 = true.
Proof.
  unfold String.leb.
  destruct (String.compare s1 s2) eqn:H12; try discriminate;
    destruct (String.compare s2 s3) eqn:H23; try discriminate; intros _ _.
  - apply String.compare_eq_iff in H12, H23. subst. now rewrite compare_refl.
  - apply String.compare_eq_iff in H12. subst. now rewrite H23.
  - apply String.compare_eq_iff in H23. subst. now rewrite H12.
  - now rewrite (compare_lt_trans _ _ _ H12 H23).
Qed.

Lemma leb_false_flip (s1 s2 : string) :
  String.leb s1 s2 = false -> String.leb s2 s1 = true.
Proof.
  intros H. destruct (String.leb_total s1 s2) as [H'|H']; congruence.
Qed.

(** ** [sorted] sorts, permutes and is stable *)

Section SortedFacts.
Variable A : Type.
Variable key : A -> string.

Lemma insert_perm (x : A) (l : list A) :
  Permutation (insert key x l) (x :: l).
Proof.
  induction l as [|y l IH]; simpl; [reflexivity|].
  destruct (String.leb (key x) (key y)); [reflexivity|].
  rewrite IH. apply perm_swap.
Qed.

Lemma sorted_perm (l : list A) : Permutation (sorted key l) l.
Proof.
  induction l as [|x l IH]; simpl; [constructor|].
  rewrite insert_perm. now constructor.
Qed.

Lemma sorted_In (l : list A) (x : A) : In x (sorted key l) <-> In x l.
Proof.
  split; apply Permutation_in; [|symmetry]; apply sorted_perm.
Qed.

Lemma insert_sorted (x : A) (l : list A) :
  StronglySorted (key_le key) l -> StronglySorted (key_le key) (insert key x l).
Proof.
  induction 1 as [|y l Hl IH Hy]; simpl.
  - repeat constructor.
  - destruct (String.leb (key x) (key y)) eqn:Hxy.
    + constructor; [now constructor|].
      constructor; [exact Hxy|].
      revert Hy. apply Forall_impl. intros z Hz.
      unfold key_le in *. eapply leb_trans; eauto.
    + constructor; [exact IH|].
      eapply Permutation_Forall; [symmetry; apply insert_perm|].
      constructor; [|exact Hy]. now apply leb_false_flip.
Qed.

Lemma sorted_sorted (l : list A) : StronglySorted (key_le key) (sorted key l).
Proof.
  induction l as [|x l IH]; simpl; [constructor|].
  now apply insert_sorted.
Qed.

(** A list that is in order already is returned as it is. *)
Lemma sorted_fixed (l : list A) :
  StronglySorted (key_le key) l -> sorted key l = l.
Proof.
  induction 1 as [|x l Hl IH Hx]; simpl; [reflexivity|].
  rewrite IH. destruct l as [|y l]; [reflexivity|]. simpl.
  inversion Hx as [|? ? Hxy _]; subst. unfold key_le in Hxy. now rewrite Hxy.
Qed.

(** Stability: the elements that share a key keep their order. *)
Lemma insert_filter_key (k : string) (x : A) (l : list A) :
  filter (fun y => String.eqb (key y) k) (insert key x l)
  = filter (fun y => String.eqb (key y) k) (x :: l).
Proof.
  induction l as [|y l IH]; [reflexivity|].
  cbn [insert].
  destruct (String.leb (key x) (key y)) eqn:Hxy; [reflexivity|].
  cbn [filter] in *. rewrite IH.
  destruct (String.eqb_spec (key x) k) as [Hx|Hx];
    destruct (String.eqb_spec (key y) k) as [Hy|Hy]; try reflexivity.
  rewrite Hx, Hy, leb_refl in Hxy. discriminate.
Qed.

Lemma sorted_stable (k : string) (l : list A) :
  filter (fun y => String.eqb (key y) k) (sorted key l)
  = filter (fun y => String.eqb (key y) k) l.
Proof.
  induction l as [|x l IH]; [reflexivity|].
  cbn [sorted]. rewrite insert_filter_key. cbn [filter]. now rewrite IH.
Qed.

(** Two ordered lists with the same elements are equal when equal keys
    mean equal elements. *)
Lemma sorted_lists_unique (l1 l2 : list A) :
  (forall a b, In a l1 -> In b l1 -> key a = key b -> a = b) ->
  StronglySorted (key_le key) l1 -> StronglySorted (key_le key) l2 ->
  Permutation l1 l2 -> l1 = l2.
Proof.
  intros Hinj H1. revert l2.
  induction H1 as [|a l1 Hl1 IH Ha]; intros l2 H2 HP.
  - apply Permutation_nil in HP. now subst.
  - destruct H2 as [|b l2 Hl2 Hb].
    + symmetry in HP. apply Permutation_nil in HP. discriminate.
    + assert (a = b) as <-.
      { assert (Hab : In a (b :: l2))
          by (eapply Permutation_in; [exact HP|now left]).
        assert (Hba : In b (a :: l1))
          by (eapply Permutation_in; [symmetry; exact HP|now left]).
        destruct Hab as [->|Hab]; [reflexivity|].
        destruct Hba as [->|Hba]; [reflexivity|].
        apply Hinj; [now left|now right|].
        rewrite Forall_forall in Ha, Hb.
        apply String.leb_antisym; [apply Ha|apply Hb]; assumption. }
      f_equal. apply IH.
      * intros x y Hx Hy. apply Hinj; now right.
      * exact Hl2.
      * eapply Permutation_cons_inv. exact HP.
Qed.

Lemma sorted_unique (l1 l2 : list A) :
  (forall a b, In a l1 -> In b l1 -> key a = key b -> a = b) ->
  Permutation l1 l2 -> sorted key l1 = sorted key l2.
Proof.
  intros Hinj HP. apply sorted_lists_unique.
  - intros a b Ha Hb. apply Hinj; now apply sorted_In.
  - apply sorted_sorted.
  - apply sorted_sorted.
  - rewrite !sorted_perm. exact HP.
Qed.
End SortedFacts.

(* ================================================================== *)
(** * The ordering of the sections *)
(* ================================================================== *)

Lemma sections_key_cases (s : string) :
  (spec_rank s = 0 /\ sections_key s = "a")
  \/ (spec_rank s = 1 /\ sections_key s = "b")
  \/ (spec_rank s = 2 /\ sections_key s = String "c" s)
  \/ (spec_rank s = 3 /\ sections_key s = "d").
Proof.
  unfold spec_rank, sections_key.
  destruct (String.eqb s "metadata"); [now left|].
  destruct (String.eqb s "options"); [now right; left|].
  destruct (startswith s "options"); [now right; right; left|].
  now right; right; right.
Qed.

Lemma leb_cons_c (a b : string) :
  String.leb (String "c" a) (String "c" b) = String.leb a b.
Proof. reflexivity. Qed.

(** The key the script sorts by orders the sections as the specification
    says. *)
Lemma sections_key_le (a b : string) :
  key_le sections_key a b <-> spec_before a b.
Proof.
  unfold key_le, spec_before.
  destruct (sections_key_cases a) as [[Ra Ka]|[[Ra Ka]|[[Ra Ka]|[Ra Ka]]]];
    destruct (sections_key_cases b) as [[Rb Kb]|[[Rb Kb]|[[Rb Kb]|[Rb Kb]]]];
    rewrite Ra, Rb, Ka, Kb; try rewrite leb_cons_c;
    (split;
     [ intros H; try (left; lia); try (right; split; [reflexivity|]);
       try (intros; lia); try (intros _; exact H); try discriminate H
     | intros [H|[H1 H2]]; try lia; try reflexivity; try (now apply H2) ]).
Qed.

Lemma StronglySorted_impl {A : Type} (R R' : A -> A -> Prop) (l : list A) :
  (forall a b, R a b -> R' a b) -> StronglySorted R l -> StronglySorted R' l.
Proof.
  intros HR. induction 1 as [|a l Hl IH Ha]; constructor; [exact IH|].
  revert Ha. apply Forall_impl. apply HR.
Qed.

Lemma get_map_lookup {V : Type} (f : string -> V) (l : list string) (s : string) :
  get (map (fun x => (x, f x)) l) s
  = if existsb (String.eqb s) l then Some (f s) else None.
Proof.
  induction l as [|x l IH]; [reflexivity|]. simpl.
  destruct (String.eqb_spec s x) as [->|Hne]; [reflexivity|]. exact IH.
Qed.

Lemma existsb_eqb_In (s : string) (l : list string) :
  existsb (String.eqb s) l = true <-> In s l.
Proof.
  rewrite existsb_exists. split.
  - intros (x & Hx & E). apply String.eqb_eq in E. now subst.
  - intros H. exists s. split; [exact H|apply String.eqb_refl].
Qed.

Lemma get_In_keys {V : Type} (d : dict V) (k : string) :
  In k (keys d) <-> exists v, get d k = Some v.
Proof.
  induction d as [|[k' v'] d IH]; simpl.
  - split; [tauto|]. intros (v & H). discriminate.
  - destruct (String.eqb_spec k k') as [->|Hne].
    + split; [eauto|auto].
    + rewrite <- IH. split; [intros [E|H]; [congruence|exact H]|auto].
Qed.

Lemma get_None_keys {V : Type} (d : dict V) (k : string) :
  get d k = None <-> ~ In k (keys d).
Proof.
  rewrite get_In_keys. split.
  - intros H (v & Hv). congruence.
  - intros H. destruct (get d k) eqn:E; [|reflexivity]. exfalso. eauto.
Qed.

Lemma section_names_sort (conf : ConfigParser.t) :
  ConfigParser.section_names (sort_sections conf)
  = sorted sections_key (ConfigParser.section_names conf).
Proof.
  unfold ConfigParser.section_names, sort_sections, keys. simpl.
  rewrite map_map. simpl. apply map_id.
Qed.

(** Sorting moves the sections and leaves every one of them as it was. *)
Lemma get_sort_sections (conf : ConfigParser.t) (s : string) :
  get (ConfigParser.sections (sort_sections conf)) s
  = get (ConfigParser.sections conf) s.
Proof.
  unfold sort_sections. simpl. rewrite get_map_lookup.
  destruct (existsb (String.eqb s) _) eqn:E.
  - apply existsb_eqb_In, sorted_In, get_In_keys in E.
    destruct E as (v & ->). reflexivity.
  - symmetry. apply get_None_keys. intros H.
    apply (sorted_In _ sections_key), existsb_eqb_In in H. congruence.
Qed.

Lemma last_rank_key (s : string) :
  last_rank s = String.eqb (sections_key s) "d".
Proof.
  unfold last_rank.
  destruct (sections_key_cases s) as [[R K]|[[R K]|[[R K]|[R K]]]];
    rewrite R, K; reflexivity.
Qed.

(** C10.  The sections of the last rank all get the key ["d"], so the sort
    leaves them in the order they had in the merged document; that order
    need not be the order of their names. *)
Theorem C10_last_rank_stable :
  (forall s : string, last_rank s = true -> sections_key s = "d")
  /\ (forall conf : ConfigParser.t,
         filter last_rank (ConfigParser.section_names (sort_sections conf))
         = filter last_rank (ConfigParser.section_names conf))
  /\ sorted sections_key ["zzz"; "metadata"; "aaa"] = ["metadata"; "zzz"; "aaa"]
  /\ String.leb "zzz" "aaa" = false.
Proof.
  split; [|split; [|split]].
  - intros s H. rewrite last_rank_key in H. now apply String.eqb_eq.
  - intros conf. rewrite section_names_sort.
    rewrite !(filter_ext _ _ last_rank_key).
    apply sorted_stable.
  - reflexivity.
  - reflexivity.
Qed.

Lemma C10_last_rank_stable_witness : sections_key "zzz" = "d".
Proof. apply (proj1 C10_last_rank_stable). reflexivity. Defined.

(* ================================================================== *)
(** * The run as a sequence of actions *)
(* ================================================================== *)

Lemma Ok_inj {A : Type} (a b : A) : Ok a = Ok b -> a = b.
Proof. congruence. Qed.

Lemma bind_Ok {A B : Type} (m : outcome A) (k : A -> outcome B) (b : B) :
  bind m k = Ok b <-> exists a, m = Ok a /\ k a = Ok b.
Proof.
  destruct m as [a|]; simpl.
  - split; [eauto|]. intros (a' & E & H). now inversion E; subst.
  - split; [discriminate|]. intros (a' & E & _). discriminate.
Qed.

Lemma for_each_app {A S : Type} (l1 l2 : list A) (body : S -> A -> outcome S)
  (st : S) :
  for_each (l1 ++ l2) body st
  = bind (for_each l1 body st) (for_each l2 body).
Proof.
  revert st. induction l1 as [|x l1 IH]; intros st; simpl; [reflexivity|].
  destruct (body st x); simpl; auto.
Qed.

Lemma for_each_app_Ok {A S : Type} (l1 l2 : list A)
  (body : S -> A -> outcome S) (st st' : S) :
  for_each (l1 ++ l2) body st = Ok st'
  <-> exists m, for_each l1 body st = Ok m /\ for_each l2 body m = Ok st'.
Proof. rewrite for_each_app. apply bind_Ok. Qed.

Lemma populate_metadata_actions (w : World) (conf : ConfigParser.t) :
  populate_metadata w conf = for_each (metadata_actions w) act conf.
Proof.
  unfold populate_metadata, metadata_actions.
  revert conf. induction METADATA_KEYS as [|kh l IH]; intros conf; simpl;
    [reflexivity|].
  destruct (serialize w (snd kh) (dist_attr w (fst kh))); simpl; [|apply IH].
  destruct (ConfigParser.set_option _ _ _ _); simpl; auto.
Qed.

Lemma populate_options_actions (w : World) (dir : string) (conf : ConfigParser.t) :
  populate_options w dir conf = for_each (options_actions w dir) act conf.
Proof.
  unfold populate_options, options_actions. simpl.
  repeat (destruct (ConfigParser.set_option _ _ _ _); simpl; auto).
  destruct (dist_requires_python w); simpl; [|reflexivity].
  destruct (ConfigParser.set_option _ _ _ _); reflexivity.
Qed.

Lemma set_requires_set_actions (requires : dict (list string))
  (conf : ConfigParser.t) :
  set_requires requires conf
  = for_each (set_requires_actions requires) act conf.
Proof.
  unfold set_requires, set_requires_actions, extras. simpl.
  destruct (ConfigParser.set_option _ _ _ _) as [conf1|]; simpl; auto.
  destruct (1 <? _); [|reflexivity]. simpl.
  destruct (ensure_section conf1 _) as [conf2|]; simpl; auto.
  generalize (sorted (fun section => section) (keys (touch_default requires))).
  intros l. revert conf2.
  induction l as [|x l IH]; intros conf2; simpl; [reflexivity|].
  destruct (negb (String.eqb x "default")); simpl; [|apply IH].
  destruct (ConfigParser.set_option _ _ _ _); simpl; auto.
Qed.

Lemma populate_requires_actions (w : World) (dir : string)
  (conf : ConfigParser.t) :
  populate_requires w dir conf
  = bind (requires_actions w dir) (fun acts => for_each acts act conf).
Proof.
  unfold populate_requires, requires_actions.
  destruct (path_exists w _); [|reflexivity].
  destruct (path_lookup w _) as [[content|]|]; try reflexivity.
  simpl. apply set_requires_set_actions.
Qed.

Lemma entry_points_loop_actions (entry : ConfigParser.t) (names : list string)
  (conf conf' : ConfigParser.t) :
  for_each names
    (fun conf section =>
       value <- entry_points_value entry section ;;
       ConfigParser.set_option conf "options.entry_points" section value)
    conf = Ok conf'
  <-> exists sets,
      map_outcome
        (fun section =>
           value <- entry_points_value entry section ;;
           Ok (SetOption "options.entry_points" section value))
        names = Ok sets
      /\ for_each sets act conf = Ok conf'.
Proof.
  revert conf. induction names as [|x names IH]; intros conf; simpl.
  - split.
    + intros H. exists []. split; [reflexivity|exact H].
    + intros (sets & E & H). inversion E; subst. exact H.
  - destruct (entry_points_value entry x) as [v|]; simpl.
    + split.
      * intros H. apply bind_Ok in H. destruct H as (c & Hc & H).
        apply IH in H. destruct H as (sets & E & H).
        exists (SetOption "options.entry_points" x v :: sets).
        rewrite E. simpl. split; [reflexivity|]. now rewrite Hc.
      * intros (sets & E & H). apply bind_Ok in E.
        destruct E as (ys & E & E'). inversion E'; subst. simpl in H.
        apply bind_Ok in H. destruct H as (c & Hc & H).
        rewrite Hc. simpl. apply IH. eauto.
    + split; [discriminate|]. intros (sets & E & _). discriminate.
Qed.

Lemma populate_entry_points_actions (w : World) (dir : string)
  (conf conf' : ConfigParser.t) :
  populate_entry_points w dir conf = Ok conf'
  <-> exists acts, entry_points_actions w dir = Ok acts
                   /\ for_each acts act conf = Ok conf'.
Proof.
  unfold populate_entry_points, entry_points_actions.
  destruct (path_exists w _).
  - destruct (read_config w _) as [entry|]; simpl.
    + split.
      * intros H. apply bind_Ok in H. destruct H as (c & Hc & H).
        apply entry_points_loop_actions in H. destruct H as (sets & E & H).
        rewrite E. simpl. eexists. split; [reflexivity|].
        simpl. now rewrite Hc.
      * intros (acts & E & H). apply bind_Ok in E.
        destruct E as (sets & E & E'). inversion E'; subst. simpl in H.
        apply bind_Ok in H. destruct H as (c & Hc & H).
        rewrite Hc. simpl. apply entry_points_loop_actions. eauto.
    + split; [discriminate|]. intros (acts & E & _). discriminate.
  - split.
    + intros H. exists []. split; [reflexivity|exact H].
    + intros (acts & E & H). inversion E; subst. exact H.
Qed.

(** [merge] succeeds exactly when the plan can be drawn up and carried
    out, and then returns the sorted result. *)
Lemma merge_plan (w : World) (dir : string) (conf conf' : ConfigParser.t) :
  merge w dir conf = Ok conf'
  <-> exists acts c, plan w dir = Ok acts
                     /\ for_each acts act conf = Ok c
                     /\ conf' = sort_sections c.
Proof.
  unfold merge, plan. split.
  - intros H.
    apply bind_Ok in H. destruct H as (c1 & H1 & H).
    apply bind_Ok in H. destruct H as (c2 & H2 & H).
    apply bind_Ok in H. destruct H as (c3 & H3 & H).
    apply bind_Ok in H. destruct H as (c4 & H4 & H).
    apply bind_Ok in H. destruct H as (c5 & H5 & H).
    apply bind_Ok in H. destruct H as (c6 & H6 & H).
    inversion H; subst; clear H.
    apply populate_entry_points_actions in H5. destruct H5 as (ep & Eep & H5).
    rewrite populate_requires_actions in H6. apply bind_Ok in H6.
    destruct H6 as (rq & Erq & H6).
    rewrite Eep, Erq. cbn [bind]. do 2 eexists. split; [reflexivity|].
    split; [|reflexivity].
    cbn [app for_each act]. rewrite H1. cbn [bind]. rewrite H2. cbn [bind].
    rewrite for_each_app, <- populate_metadata_actions, H3. cbn [bind].
    rewrite for_each_app, <- populate_options_actions, H4. cbn [bind].
    rewrite for_each_app, H5. cbn [bind]. exact H6.
  - intros (acts & c & Hp & Hf & ->).
    apply bind_Ok in Hp. destruct Hp as (ep & Eep & Hp).
    apply bind_Ok in Hp. destruct Hp as (rq & Erq & Hp).
    injection Hp as Hp. subst acts.
    change (for_each (EnsureSection "metadata" :: EnsureSection "options"
                      :: (metadata_actions w ++ options_actions w dir ++ ep ++ rq)%list)
              act conf = Ok c) in Hf.
    cbn [for_each act] in Hf.
    rewrite bind_Ok in Hf. destruct Hf as (c1 & H1 & Hf).
    rewrite bind_Ok in Hf. destruct Hf as (c2 & H2 & Hf).
    rewrite for_each_app_Ok in Hf. destruct Hf as (c3 & H3 & Hf).
    rewrite for_each_app_Ok in Hf. destruct Hf as (c4 & H4 & Hf).
    rewrite for_each_app_Ok in Hf. destruct Hf as (c5 & H5 & H6).
    rewrite H1. cbn [bind]. rewrite H2. cbn [bind].
    rewrite populate_metadata_actions, H3. cbn [bind].
    rewrite populate_options_actions, H4. cbn [bind].
    assert (E5 : populate_entry_points w dir c4 = Ok c5)
      by (apply populate_entry_points_actions; eauto).
    rewrite E5. cbn [bind].
    rewrite populate_requires_actions, Erq. cbn [bind]. rewrite H6. reflexivity.
Qed.

(** ** Dictionaries *)

Lemma get_set_same {V : Type} (d : dict V) (k : string) (v : V) :
  get (set d k v) k = Some v.
Proof.
  induction d as [|[k' v'] d IH]; simpl.
  - now rewrite String.eqb_refl.
  - destruct (String.eqb_spec k k') as [->|Hne]; simpl.
    + now rewrite String.eqb_refl.
    + destruct (String.eqb_spec k k'); [contradiction|exact IH].
Qed.

Lemma get_set_other {V : Type} (d : dict V) (k k' : string) (v : V) :
  k' <> k -> get (set d k v) k' = get d k'.
Proof.
  intros Hne. induction d as [|[k0 v0] d IH]; simpl.
  - destruct (String.eqb_spec k' k); [contradiction|reflexivity].
  - destruct (String.eqb_spec k k0) as [->|Hk]; simpl.
    + destruct (String.eqb_spec k' k0); [contradiction|reflexivity].
    + destruct (String.eqb_spec k' k0); [reflexivity|exact IH].
Qed.

Lemma keys_set_present {V : Type} (d : dict V) (k : string) (v : V) :
  In k (keys d) -> keys (set d k v) = keys d.
Proof.
  induction d as [|[k' v'] d IH]; simpl; [tauto|].
  destruct (String.eqb_spec k k') as [->|Hne]; [reflexivity|].
  intros [E|H]; [congruence|]. simpl. f_equal. now apply IH.
Qed.

Lemma keys_set_absent {V : Type} (d : dict V) (k : string) (v : V) :
  ~ In k (keys d) -> keys (set d k v) = (keys d ++ [k])%list.
Proof.
  induction d as [|[k' v'] d IH]; simpl; [reflexivity|].
  intros H. destruct (String.eqb_spec k k') as [->|Hne]; [tauto|].
  simpl. f_equal. apply IH. tauto.
Qed.

Lemma In_keys_set {V : Type} (d : dict V) (k k' : string) (v : V) :
  In k' (keys (set d k v)) <-> k' = k \/ In k' (keys d).
Proof.
  rewrite !get_In_keys.
  destruct (string_dec k' k) as [->|Hne].
  - rewrite get_set_same. split; eauto.
  - rewrite get_set_other by exact Hne. split; [auto|].
    intros [E|H]; [contradiction|exact H].
Qed.

Lemma NoDup_keys_set {V : Type} (d : dict V) (k : string) (v : V) :
  NoDup (keys d) -> NoDup (keys (set d k v)).
Proof.
  intros H. destruct (in_dec string_dec k (keys d)) as [Hin|Hout].
  - now rewrite keys_set_present.
  - rewrite keys_set_absent by exact Hout.
    apply NoDup_app; [exact H|repeat constructor; simpl; tauto|].
    intros x Hx [<-|[]]. contradiction.
Qed.

Lemma In_set {V : Type} (d : dict V) (k : string) (v : V) (kv : string * V) :
  In kv (set d k v) -> kv = (k, v) \/ In kv d.
Proof.
  induction d as [|[k' v'] d IH]; simpl.
  - intros [<-|[]]. now left.
  - destruct (String.eqb_spec k k') as [->|Hne]; simpl.
    + intros [<-|H]; auto.
    + intros [<-|H]; auto. destruct (IH H); auto.
Qed.

Lemma get_split {V : Type} (d : dict V) (k : string) (v : V) :
  get d k = Some v -> exists d1 d2, d = (d1 ++ (k, v) :: d2)%list.
Proof.
  induction d as [|[k' v'] d IH]; simpl; [discriminate|].
  destruct (String.eqb_spec k k') as [->|Hne].
  - intros E. injection E as ->. now exists [], d.
  - intros H. destruct (IH H) as (d1 & d2 & ->).
    now exists ((k', v') :: d1), d2.
Qed.

(** In a dictionary without repeated keys every entry is the one [get]
    finds. *)
Lemma get_In_NoDup {V : Type} (d : dict V) (k : string) (v : V) :
  NoDup (keys d) -> In (k, v) d -> get d k = Some v.
Proof.
  induction d as [|[k' v'] d IH]; simpl; [tauto|].
  intros Hnd [E|H].
  - injection E as -> ->. now rewrite String.eqb_refl.
  - inversion Hnd as [|? ? Hout Hnd']; subst.
    destruct (String.eqb_spec k k') as [->|Hne]; [|now apply IH].
    exfalso. apply Hout. change (In (fst (k', v)) (map fst d)).
    now apply in_map.
Qed.

(** A dictionary without repeated keys is determined by its keys and their
    values. *)
Lemma dict_ext {V : Type} (d1 d2 : dict V) :
  NoDup (keys d1) -> keys d1 = keys d2 ->
  (forall k, get d1 k = get d2 k) -> d1 = d2.
Proof.
  revert d2. induction d1 as [|[k v] d1 IH]; intros [|[k2 v2] d2] Hnd Hk Hg;
    try discriminate; [reflexivity|].
  simpl in Hk. injection Hk as <- Hk.
  inversion Hnd as [|? ? Hout Hnd']; subst.
  assert (v = v2) as <-.
  { specialize (Hg k). simpl in Hg. rewrite String.eqb_refl in Hg. congruence. }
  f_equal. apply IH; [exact Hnd'|exact Hk|].
  intros k'. destruct (string_dec k' k) as [->|Hne].
  - assert (E1 : get d1 k = None) by now apply get_None_keys.
    assert (E2 : get d2 k = None)
      by (apply get_None_keys; unfold keys in *; now rewrite <- Hk).
    congruence.
  - specialize (Hg k'). simpl in Hg.
    apply String.eqb_neq in Hne. now rewrite Hne in Hg.
Qed.

(** ** What one action does to the document *)

Lemma script_section_plain (s : string) :
  script_section s = true ->
  String.eqb s "" || String.eqb s ConfigParser.default_section = false.
Proof.
  intros H.
  destruct (String.eqb_spec s "") as [->|_]; [discriminate H|].
  destruct (String.eqb_spec s ConfigParser.default_section) as [->|_];
    [discriminate H|reflexivity].
Qed.

Lemma before_set_Ok (v v' : string) :
  ConfigParser.before_set v = Ok v' -> v' = v.
Proof.
  unfold ConfigParser.before_set. destruct (contains_char _ _); congruence.
Qed.

Lemma set_option_Ok (conf conf' : ConfigParser.t) (s k v : string) :
  script_section s = true ->
  ConfigParser.set_option conf s k v = Ok conf' ->
  exists d, get (ConfigParser.sections conf) s = Some d
            /\ conf' = ConfigParser.mk (ConfigParser.defaults conf)
                         (set (ConfigParser.sections conf) s
                              (set d (ConfigParser.optionxform k) v)).
Proof.
  intros Hs H. unfold ConfigParser.set_option in H.
  apply bind_Ok in H. destruct H as (v' & Hv & H).
  assert (v' = v) as ->.
  { destruct (String.eqb v ""); [congruence|now apply before_set_Ok]. }
  rewrite (script_section_plain _ Hs) in H.
  destruct (get (ConfigParser.sections conf) s) as [d|]; [|discriminate].
  injection H as <-. eauto.
Qed.

Lemma ensure_section_Ok (conf conf' : ConfigParser.t) (s : string) :
  ensure_section conf s = Ok conf' ->
  (ConfigParser.has_section conf s = true /\ conf' = conf)
  \/ (ConfigParser.has_section conf s = false
      /\ conf' = ConfigParser.mk (ConfigParser.defaults conf)
                   (set (ConfigParser.sections conf) s [])).
Proof.
  unfold ensure_section, ConfigParser.add_section, ConfigParser.has_section.
  destruct (mem (ConfigParser.sections conf) s).
  - intros E. injection E as <-. now left.
  - destruct (String.eqb s ConfigParser.default_section); [discriminate|].
    intros E. injection E as <-. now right.
Qed.

Lemma mem_false_get {V : Type} (d : dict V) (k : string) :
  mem d k = false <-> get d k = None.
Proof. unfold mem. destruct (get d k); split; congruence. Qed.

Lemma act_defaults (conf conf' : ConfigParser.t) (a : action) :
  script_section (action_section a) = true ->
  act conf a = Ok conf' ->
  ConfigParser.defaults conf' = ConfigParser.defaults conf.
Proof.
  destruct a as [s|s k v]; simpl; intros Hs H.
  - apply ensure_section_Ok in H. destruct H as [[_ ->]|[_ ->]]; reflexivity.
  - apply set_option_Ok in H; [|exact Hs]. destruct H as (d & _ & ->).
    reflexivity.
Qed.

Lemma act_other_section (conf conf' : ConfigParser.t) (a : action) (s : string) :
  script_section (action_section a) = true ->
  action_section a <> s ->
  act conf a = Ok conf' ->
  get (ConfigParser.sections conf') s = get (ConfigParser.sections conf) s.
Proof.
  destruct a as [s0|s0 k v]; simpl; intros Hs Hne H.
  - apply ensure_section_Ok in H. destruct H as [[_ ->]|[_ ->]]; [reflexivity|].
    simpl. apply get_set_other. congruence.
  - apply set_option_Ok in H; [|exact Hs]. destruct H as (d & _ & ->).
    simpl. apply get_set_other. congruence.
Qed.

Lemma act_option_value (conf conf' : ConfigParser.t) (a : action) (s k : string) :
  script_section (action_section a) = true ->
  act conf a = Ok conf' ->
  option_value conf' s k
  = match a with
    | SetOption _ _ v =>
        if sets_option a s k then Some v else option_value conf s k
    | EnsureSection _ => option_value conf s k
    end.
Proof.
  destruct a as [s0|s0 k0 v]; simpl; intros Hs H; unfold option_value.
  - apply ensure_section_Ok in H. destruct H as [[_ ->]|[Hno ->]]; [reflexivity|].
    simpl. destruct (string_dec s s0) as [->|Hne].
    + rewrite get_set_same. apply mem_false_get in Hno. now rewrite Hno.
    + now rewrite get_set_other.
  - apply set_option_Ok in H; [|exact Hs]. destruct H as (d & Hd & ->). simpl.
    destruct (String.eqb_spec s0 s) as [->|Hne]; simpl.
    + rewrite get_set_same.
      destruct (String.eqb_spec (ConfigParser.optionxform k0) k) as [->|Hk].
      * apply get_set_same.
      * rewrite Hd. apply get_set_other. congruence.
    + rewrite get_set_other by congruence. reflexivity.
Qed.

(** ** What a sequence of actions does to the document *)

Lemma run_defaults (acts : list action) (conf conf' : ConfigParser.t) :
  Forall (fun a => script_section (action_section a) = true) acts ->
  for_each acts act conf = Ok conf' ->
  ConfigParser.defaults conf' = ConfigParser.defaults conf.
Proof.
  intros Hs. revert conf.
  induction Hs as [|a acts Ha _ IH]; intros conf H; simpl in H.
  - now injection H as <-.
  - apply bind_Ok in H. destruct H as (c & Hc & H).
    rewrite (IH _ H). eapply act_defaults; eauto.
Qed.

Lemma run_other_section (acts : list action) (conf conf' : ConfigParser.t)
  (s : string) :
  Forall (fun a => script_section (action_section a) = true) acts ->
  script_section s = false ->
  for_each acts act conf = Ok conf' ->
  get (ConfigParser.sections conf') s = get (ConfigParser.sections conf) s.
Proof.
  intros Hs Hno. revert conf.
  induction Hs as [|a acts Ha _ IH]; intros conf H; simpl in H.
  - now injection H as <-.
  - apply bind_Ok in H. destruct H as (c & Hc & H).
    rewrite (IH _ H). eapply act_other_section; eauto. congruence.
Qed.

(** The last action that sets an option decides its value; an option no
    action sets keeps the value it had. *)
Lemma run_option_value (acts : list action) (conf conf' : ConfigParser.t)
  (s k : string) :
  Forall (fun a => script_section (action_section a) = true) acts ->
  for_each acts act conf = Ok conf' ->
  option_value conf' s k
  = match last_write acts s k with
    | Some v => Some v
    | None => option_value conf s k
    end.
Proof.
  intros Hs. revert conf.
  induction Hs as [|a acts Ha _ IH]; intros conf H; simpl in H.
  - now injection H as <-.
  - apply bind_Ok in H. destruct H as (c & Hc & H).
    rewrite (IH _ H). cbn [last_write].
    destruct (last_write acts s k); [reflexivity|].
    rewrite (act_option_value _ _ _ s k Ha Hc).
    destruct a as [s0|s0 k0 v0]; [reflexivity|].
    destruct (sets_option _ _ _); reflexivity.
Qed.

Lemma last_write_touches (acts : list action) (s k : string) :
  last_write acts s k = None <-> touches acts s k = false.
Proof.
  unfold touches. induction acts as [|a acts IH]; simpl; [tauto|].
  destruct (last_write acts s k) as [v|].
  - split; [discriminate|]. intros H. apply orb_false_iff in H.
    destruct H as [_ H]. apply IH in H. discriminate.
  - destruct a as [s0|s0 k0 v0]; simpl.
    + tauto.
    + destruct (_ && _); simpl; [split; discriminate|tauto].
Qed.

(** ** The actions of the plan *)

Lemma map_outcome_Forall {A B : Type} (f : A -> outcome B) (P : B -> Prop)
  (l : list A) (ys : list B) :
  (forall x y, f x = Ok y -> P y) ->
  map_outcome f l = Ok ys -> Forall P ys.
Proof.
  intros Hf. revert ys. induction l as [|x l IH]; intros ys H; simpl in H.
  - injection H as <-. constructor.
  - apply bind_Ok in H. destruct H as (y & Hy & H).
    apply bind_Ok in H. destruct H as (ys' & Hys & H).
    injection H as <-. constructor; eauto.
Qed.

Lemma metadata_actions_sections (w : World) :
  Forall (fun a => action_section a = "metadata") (metadata_actions w).
Proof.
  unfold metadata_actions. induction METADATA_KEYS as [|kh l IH]; simpl.
  - constructor.
  - apply Forall_app. split; [|exact IH].
    destruct (serialize _ _ _); repeat constructor.
Qed.

Lemma options_actions_sections (w : World) (dir : string) :
  Forall (fun a => action_section a = "options") (options_actions w dir).
Proof.
  unfold options_actions.
  destruct (dist_requires_python w); repeat constructor.
Qed.

Lemma entry_points_actions_sections (w : World) (dir : string)
  (acts : list action) :
  entry_points_actions w dir = Ok acts ->
  Forall (fun a => action_section a = "options.entry_points") acts.
Proof.
  unfold entry_points_actions. destruct (path_exists w _).
  - intros H. apply bind_Ok in H. destruct H as (entry & _ & H).
    apply bind_Ok in H. destruct H as (sets & Hs & H).
    injection H as <-. constructor; [reflexivity|].
    eapply map_outcome_Forall; [|exact Hs].
    intros x y Hy. apply bind_Ok in Hy. destruct Hy as (v & _ & Hy).
    now injection Hy as <-.
  - intros H. injection H as <-. constructor.
Qed.

Lemma set_requires_actions_sections (requires : dict (list string)) :
  Forall (fun a => action_section a = "options"
                   \/ action_section a = "options.extras_require")
         (set_requires_actions requires).
Proof.
  unfold set_requires_actions. constructor; [now left|].
  destruct (1 <? _); [|constructor].
  constructor; [now right|].
  apply Forall_map. apply Forall_forall. intros x _. now right.
Qed.

Lemma requires_actions_sections (w : World) (dir : string) (acts : list action) :
  requires_actions w dir = Ok acts ->
  Forall (fun a => action_section a = "options"
                   \/ action_section a = "options.extras_require") acts.
Proof.
  unfold requires_actions. destruct (path_exists w _).
  - destruct (path_lookup w _) as [[content|]|]; try discriminate.
    intros H. injection H as <-. apply set_requires_actions_sections.
  - intros H. injection H as <-. constructor.
Qed.

(** Every action of the plan is on one of the four sections of the
    script. *)
Lemma plan_script_sections (w : World) (dir : string) (acts : list action) :
  plan w dir = Ok acts ->
  Forall (fun a => script_section (action_section a) = true) acts.
Proof.
  unfold plan. intros H.
  apply bind_Ok in H. destruct H as (ep & Hep & H).
  apply bind_Ok in H. destruct H as (rq & Hrq & H).
  apply Ok_inj in H. subst acts.
  apply Forall_app; split; [repeat constructor|].
  apply Forall_app; split.
  { eapply Forall_impl; [|apply metadata_actions_sections].
    intros a ->. reflexivity. }
  apply Forall_app; split.
  { eapply Forall_impl; [|apply options_actions_sections].
    intros a ->. reflexivity. }
  apply Forall_app; split.
  { eapply Forall_impl; [|eapply entry_points_actions_sections; eauto].
    intros a ->. reflexivity. }
  eapply Forall_impl; [|eapply requires_actions_sections; eauto].
  intros a [-> | ->]; reflexivity.
Qed.

(** ** From [main] to the document *)

Lemma main_Done (w : World) (out : string) :
  main w = Done out ->
  exists dir conf conf',
    glob_egg_info w = [dir]
    /\ read_config w "setup.cfg" = Ok conf
    /\ merge w dir conf = Ok conf'
    /\ out = ConfigParser.write conf'.
Proof.
  unfold main.
  destruct (glob_egg_info w) as [|dir [|dir' dirs]]; simpl; try discriminate.
  unfold translate.
  destruct (read_config w "setup.cfg") as [conf|]; simpl; [|discriminate].
  destruct (merge w dir conf) as [conf'|] eqn:Hm; simpl; [|discriminate].
  unfold write_config.
  destruct (path_lookup w "setup.cfg") as [[content|]|]; try discriminate;
    intros E; injection E as <-; eauto 10.
Qed.

Lemma concat_empty_app (l1 l2 : list string) :
  String.concat "" (l1 ++ l2) = String.concat "" l1 ++ String.concat "" l2.
Proof.
  induction l1 as [|x l1 IH]; [reflexivity|].
  destruct l1 as [|y l1].
  - simpl. destruct l2 as [|z l2]; simpl.
    + clear. induction x; simpl; congruence.
    + reflexivity.
  - change (String.concat "" ((x :: y :: l1) ++ l2))
      with (x ++ String.concat "" ((y :: l1) ++ l2)).
    rewrite IH. simpl.
    clear. induction x; simpl; congruence.
Qed.

Lemma concat_empty_cons (x : string) (l : list string) :
  String.concat "" (x :: l) = x ++ String.concat "" l.
Proof. apply (concat_empty_app [x] l). Qed.

Lemma append_assoc (a b c : string) : (a ++ b) ++ c = a ++ b ++ c.
Proof. induction a; simpl; congruence. Qed.

(** The block of every section of the document is part of the text that is
    written. *)
Lemma write_contains_section (conf : ConfigParser.t) (s : string)
  (d : dict string) :
  get (ConfigParser.sections conf) s = Some d ->
  exists before after,
    ConfigParser.write conf
    = before ++ ConfigParser.write_section s d ++ after.
Proof.
  intros H. apply get_split in H. destruct H as (d1 & d2 & E).
  unfold ConfigParser.write. rewrite E, map_app, concat_empty_app.
  cbn [map]. rewrite concat_empty_cons. cbn [fst snd].
  eexists (_ ++ _), _. rewrite append_assoc. reflexivity.
Qed.

(** So is the line of every option of the document. *)
Lemma write_contains_option (conf : ConfigParser.t) (s k v : string) :
  option_value conf s k = Some v ->
  exists before after,
    ConfigParser.write conf
    = before ++ (k ++ " = " ++ replace v LF (LF ++ TAB) ++ LF) ++ after.
Proof.
  unfold option_value.
  destruct (get (ConfigParser.sections conf) s) as [d|] eqn:Hd; [|discriminate].
  intros Hk. destruct (write_contains_section _ _ _ Hd) as (b & a & ->).
  apply get_split in Hk. destruct Hk as (d1 & d2 & ->).
  unfold ConfigParser.write_section.
  rewrite map_app, concat_empty_app. cbn [map]. rewrite concat_empty_cons.
  cbn [fst snd].
  set (line := k ++ " = " ++ replace v LF (LF ++ TAB) ++ LF).
  set (f := fun kv : string * string =>
              fst kv ++ " = " ++ replace (snd kv) LF (LF ++ TAB) ++ LF).
  set (X1 := String.concat "" (map f d1)).
  set (X2 := String.concat "" (map f d2)).
  exists (b ++ "[" ++ s ++ "]" ++ LF ++ X1), (X2 ++ LF ++ a).
  rewrite !append_assoc. reflexivity.
Qed.

(* ================================================================== *)
(** * What the run leaves alone *)
(* ================================================================== *)

(** C4, as the code has it.  What is kept of [setup.cfg] is what the parser
    read of its text, not the text.  A run that ends well writes the merged
    document, and in it: the default section is as it was read; every
    section other than the four the script works on is as it was read, keys,
    values and their order, and its block, as the parser writes it, stands
    in the written text; every option that no action of the run sets has the
    value that was read, and its line, as the parser writes it, stands in the
    written text.  With [[unrelated]] and [x = 1] in the file before, they
    are in the file after. *)
Theorem C4_untouched_preserved :
  (forall (w : World) (out : string),
      main w = Done out ->
      exists dir conf conf' acts,
        glob_egg_info w = [dir]
        /\ read_config w "setup.cfg" = Ok conf
        /\ plan w dir = Ok acts
        /\ merge w dir conf = Ok conf'
        /\ out = ConfigParser.write conf'
        /\ ConfigParser.defaults conf' = ConfigParser.defaults conf
        /\ (forall s, script_section s = false ->
              get (ConfigParser.sections conf') s
              = get (ConfigParser.sections conf) s)
        /\ (forall s k, touches acts s k = false ->
              option_value conf' s k = option_value conf s k)
        /\ (forall s d, script_section s = false ->
              get (ConfigParser.sections conf) s = Some d ->
              exists before after,
                out = before ++ ConfigParser.write_section s d ++ after)
        /\ (forall s k v, touches acts s k = false ->
              option_value conf s k = Some v ->
              exists before after,
                out = before
                      ++ (k ++ " = " ++ replace v LF (LF ++ TAB) ++ LF)
                      ++ after)
        /\ (forall content,
              path_lookup w "setup.cfg" = Some (File content) ->
              ConfigParser.read content = Ok conf)
        /\ (path_lookup w "setup.cfg" = None -> conf = ConfigParser.empty))
  /\ main unrelated_world
     = Done (text ["[metadata]"; "name = foo"; "version = 1.0"; "";
                   "[options]"; "zip_safe = True"; "packages = find:";
                   "include_package_data = True"; "";
                   "[unrelated]"; "x = 1"; ""]).
Proof.
  split; [|vm_compute; reflexivity].
  intros w out H.
  destruct (main_Done _ _ H) as (dir & conf & conf' & Hg & Hr & Hm & ->).
  destruct (proj1 (merge_plan _ _ _ _) Hm) as (acts & c & Hp & Hf & ->).
  pose proof (plan_script_sections _ _ _ Hp) as Hs.
  exists dir, conf, (sort_sections c), acts.
  repeat (split; [assumption || reflexivity|]).
  assert (Hsec : forall s, script_section s = false ->
                   get (ConfigParser.sections (sort_sections c)) s
                   = get (ConfigParser.sections conf) s).
  { intros s Hno. rewrite get_sort_sections.
    eapply run_other_section; eauto. }
  assert (Hopt : forall s k, touches acts s k = false ->
                   option_value (sort_sections c) s k = option_value conf s k).
  { intros s k Ht. unfold option_value at 1. rewrite get_sort_sections.
    fold (option_value c s k).
    rewrite (run_option_value _ _ _ s k Hs Hf).
    apply last_write_touches in Ht. now rewrite Ht. }
  split; [|split; [exact Hsec|split; [exact Hopt|split; [|split; [|split]]]]].
  - simpl. eapply run_defaults; eauto.
  - intros s d Hno Hd. apply write_contains_section.
    now rewrite Hsec.
  - intros s k v Ht Hv. apply (write_contains_option _ s).
    now rewrite Hopt.
  - intros content Hc. unfold read_config in Hr. now rewrite Hc in Hr.
  - intros Hc. unfold read_config in Hr. rewrite Hc in Hr.
    apply Ok_inj in Hr. now subst conf.
Qed.

(** C4 as it is worded fails: the text of the file is not kept.  Of a
    [setup.cfg] written by hand with a comment, an option name in upper case
    and a colon, the run writes neither the comment nor the line [X : 1]: the
    option comes out as [x = 1]. *)
Lemma C4_counterexample :
  path_lookup by_hand_world "setup.cfg"
  = Some (File (text ["# kept by hand"; "[unrelated]"; "X : 1"]))
  /\ main by_hand_world
     = Done (text ["[metadata]"; "name = foo"; "version = 1.0"; "";
                   "[options]"; "zip_safe = True"; "packages = find:";
                   "include_package_data = True"; "";
                   "[unrelated]"; "x = 1"; ""])
  /\ (forall out,
         main by_hand_world = Done out ->
         String.index 0 "X : 1" out = None
         /\ String.index 0 "# kept by hand" out = None
         /\ String.index 0 "x = 1" out <> None).
Proof.
  assert (E : main by_hand_world
              = Done (text ["[metadata]"; "name = foo"; "version = 1.0"; "";
                            "[options]"; "zip_safe = True"; "packages = find:";
                            "include_package_data = True"; "";
                            "[unrelated]"; "x = 1"; ""]))
    by (vm_compute; reflexivity).
  split; [reflexivity|]. split; [exact E|].
  intros out H. rewrite E in H.
  assert (E' : out = text ["[metadata]"; "name = foo"; "version = 1.0"; "";
                           "[options]"; "zip_safe = True"; "packages = find:";
                           "include_package_data = True"; "";
                           "[unrelated]"; "x = 1"; ""]) by congruence.
  rewrite E'. split; [vm_compute; reflexivity|].
  split; [vm_compute; reflexivity|vm_compute; discriminate].
Qed.

Lemma C4_untouched_preserved_witness :
  exists before after,
    text ["[metadata]"; "name = foo"; "version = 1.0"; "";
          "[options]"; "zip_safe = True"; "packages = find:";
          "include_package_data = True"; "";
          "[unrelated]"; "x = 1"; ""]
    = before ++ ConfigParser.write_section "unrelated" [("x", "1")] ++ after.
Proof.
  destruct (proj1 C4_untouched_preserved unrelated_world _
              (proj2 C4_untouched_preserved))
    as (dir & conf & conf' & acts & _ & Hr & _ & _ & _ & _ & _ & _ & Htxt & _).
  apply Htxt; [reflexivity|].
  assert (E : Ok conf
              = Ok (ConfigParser.mk [] [("unrelated", [("x", "1")])]))
    by (rewrite <- Hr; vm_compute; reflexivity).
  apply Ok_inj in E. rewrite E. reflexivity.
Defined.

(* ================================================================== *)
(** * The order of the sections in the written text *)
(* ================================================================== *)

(** The text [write] makes of a sorted document: the block of the default
    section, then the blocks of the sections in the order of the sort. *)
Lemma write_sorted (conf : ConfigParser.t) :
  ConfigParser.write (sort_sections conf)
  = default_block conf
    ++ String.concat ""
         (map (section_block conf)
              (sorted sections_key (ConfigParser.section_names conf))).
Proof.
  unfold ConfigParser.write, sort_sections, default_block, section_block.
  cbn [ConfigParser.defaults ConfigParser.sections].
  rewrite map_map. cbn [fst snd].
  destruct (ConfigParser.defaults conf); reflexivity.
Qed.

(** C5, as the code has it.  Line 175 sorts the sections of
    [conf._sections], and [write] puts their blocks out in that order, each
    beginning with its header line, after the block of the default section,
    which the parser keeps apart from them and which the sort does not
    reach.  Whatever the order in which the sections were inserted, the
    section names of the sorted document are those of the merged document,
    [metadata] comes first, [options] second, the other names that start
    with [options] third and among themselves by name, all other sections
    last.  The four sections [zzz], [options.entry_points], [metadata],
    [options], in any order, come out as [metadata], [options],
    [options.entry_points], [zzz]. *)
Theorem C5_section_order :
  (forall conf : ConfigParser.t,
      Permutation (ConfigParser.section_names (sort_sections conf))
                  (ConfigParser.section_names conf)
      /\ StronglySorted spec_before
           (ConfigParser.section_names (sort_sections conf)))
  /\ (forall names : list string,
         Permutation names ["zzz"; "options.entry_points"; "metadata"; "options"] ->
         sorted sections_key names
         = ["metadata"; "options"; "options.entry_points"; "zzz"])
  /\ main sections_world
     = Done (text ["[metadata]"; "name = foo"; "version = 1.0"; "";
                 "[options]"; "zip_safe = True"; "packages = find:";
                 "include_package_data = True"; "";
                 "[options.entry_points]";
                 "console_scripts = "; TAB ++ "foo = foo:main"; "";
                 "[zzz]"; "z = 1"; "";
                 "[aaa]"; "a = 1"; ""])
  /\ (forall conf : ConfigParser.t,
         ConfigParser.write (sort_sections conf)
         = default_block conf
           ++ String.concat ""
                (map (section_block conf)
                     (ConfigParser.section_names (sort_sections conf))))
  /\ (forall (conf : ConfigParser.t) (s : string),
         exists body, section_block conf s = "[" ++ s ++ "]" ++ LF ++ body)
  /\ (forall (w : World) (out : string),
         main w = Done out ->
         exists conf' : ConfigParser.t,
           out = default_block conf'
                 ++ String.concat ""
                      (map (section_block conf')
                           (ConfigParser.section_names conf'))
           /\ StronglySorted spec_before (ConfigParser.section_names conf')
           /\ (ConfigParser.defaults conf' = [] -> default_block conf' = "")).
Proof.
  assert (Hsorted : forall conf,
             StronglySorted spec_before
               (ConfigParser.section_names (sort_sections conf))).
  { intros conf. rewrite section_names_sort.
    eapply StronglySorted_impl; [|apply sorted_sorted].
    intros a b. apply sections_key_le. }
  split; [|split; [|split; [|split; [|split]]]].
  - intros conf. rewrite section_names_sort at 1. split; [apply sorted_perm|].
    apply Hsorted.
  - intros names HP.
    change ["metadata"; "options"; "options.entry_points"; "zzz"]
      with (sorted sections_key
              ["zzz"; "options.entry_points"; "metadata"; "options"]).
    symmetry. apply sorted_unique; [|now symmetry].
    intros a b Ha Hb. simpl in Ha, Hb.
    repeat (destruct Ha as [<-|Ha]; [|]); try contradiction;
      repeat (destruct Hb as [<-|Hb]; [|]); try contradiction;
      vm_compute; congruence.
  - vm_compute. reflexivity.
  - intros conf. rewrite section_names_sort. apply write_sorted.
  - intros conf s. unfold section_block, ConfigParser.write_section.
    eexists. reflexivity.
  - intros w out H.
    destruct (main_Done _ _ H) as (dir & conf & conf' & _ & _ & Hm & ->).
    apply merge_plan in Hm. destruct Hm as (acts & c & _ & _ & ->).
    exists (sort_sections c). split; [|split].
    + rewrite write_sorted, section_names_sort. f_equal. f_equal.
      apply map_ext. intros s. unfold section_block.
      now rewrite get_sort_sections.
    + apply Hsorted.
    + intros E. unfold default_block. now rewrite E.
Qed.

Lemma C5_section_order_witness :
  sorted sections_key ["options.entry_points"; "zzz"; "metadata"; "options"]
  = ["metadata"; "options"; "options.entry_points"; "zzz"].
Proof.
  apply (proj1 (proj2 C5_section_order)). apply perm_swap.
Defined.

(** C5 as it is worded fails for a default section.  The key of the script
    puts the name [DEFAULT] in the last rank, but the parser does not keep
    the default section among those line 175 sorts, and [write] puts it out
    before [[metadata]]. *)
Lemma C5_counterexample :
  sections_key "DEFAULT" = "d"
  /\ spec_rank "DEFAULT" = 3
  /\ main default_section_world
     = Done (text ["[DEFAULT]"; "k = v"; "";
                   "[metadata]"; "name = foo"; "version = 1.0"; "";
                   "[options]"; "zip_safe = True"; "packages = find:";
                   "include_package_data = True"; ""]).
Proof. split; [reflexivity|split; [reflexivity|vm_compute; reflexivity]]. Qed.

(* ================================================================== *)
(** * The translators *)
(* ================================================================== *)

Lemma table_names_distinct (kh kh' : string * handler) :
  In kh METADATA_KEYS -> In kh' METADATA_KEYS ->
  ConfigParser.optionxform (setup_cfg_name (snd kh')) = setup_cfg_name (snd kh) ->
  kh' = kh.
Proof.
  intros H H' E. simpl in H, H'.
  repeat (destruct H as [<-|H]; [|]); try contradiction;
    repeat (destruct H' as [<-|H']; [|]); try contradiction;
    try reflexivity; vm_compute in E; discriminate E.
Qed.

Lemma touches_metadata_actions (w : World) (n : string) (l : list (string * handler)) :
  touches
    (flat_map
       (fun kh =>
          match serialize w (snd kh) (dist_attr w (fst kh)) with
          | Some translated =>
              [SetOption "metadata" (setup_cfg_name (snd kh)) translated]
          | None => []
          end) l) "metadata" n = true ->
  exists kh, In kh l
             /\ serialize w (snd kh) (dist_attr w (fst kh)) <> None
             /\ ConfigParser.optionxform (setup_cfg_name (snd kh)) = n.
Proof.
  unfold touches. induction l as [|kh l IH]; simpl; [discriminate|].
  rewrite existsb_app. intros H. apply orb_true_iff in H. destruct H as [H|H].
  - exists kh. destruct (serialize w (snd kh) (dist_attr w (fst kh)));
      [|discriminate]. simpl in H. rewrite orb_false_r in H.
    apply String.eqb_eq in H. split; [now left|]. split; [discriminate|exact H].
  - destruct (IH H) as (kh' & Hin & Hs & Hn). exists kh'. auto.
Qed.

(** C1, as the code has it.  For every translator of the table: a string
    translator maps [None] to [None]; a list translator maps [None], the
    empty list, the list [["UNKNOWN"]] and the string ["UNKNOWN"] to [None];
    the long-description translator ignores its input and yields [None]
    exactly when [README.rst] does not exist.  A field whose translation is
    [None] leaves its key of [[metadata]] as it was. *)
Theorem C1_absent_inputs (w : World) (key : string) (h : handler) :
  In (key, h) METADATA_KEYS ->
  match h with
  | str_handler _ => serialize w h PyNone = None
  | list_comma_handler _ _ =>
      serialize w h PyNone = None
      /\ serialize w h (PyList []) = None
      /\ serialize w h (PyList ["UNKNOWN"]) = None
      /\ serialize w h (PyStr "UNKNOWN") = None
  | long_description_handler _ =>
      forall value,
        serialize w h value
        = if path_exists w "README.rst" then Some "file: README.rst" else None
  end
  /\ (forall conf conf',
         serialize w h (dist_attr w key) = None ->
         populate_metadata w conf = Ok conf' ->
         option_value conf' "metadata" (setup_cfg_name h)
         = option_value conf "metadata" (setup_cfg_name h)).
Proof.
  intros Hin. split.
  - destruct h; simpl; auto.
  - intros conf conf' Hnone Hp.
    rewrite populate_metadata_actions in Hp.
    assert (Hs : Forall (fun a => script_section (action_section a) = true)
                   (metadata_actions w)).
    { eapply Forall_impl; [|apply metadata_actions_sections].
      intros a ->. reflexivity. }
    rewrite (run_option_value _ _ _ "metadata" (setup_cfg_name h) Hs Hp).
    destruct (last_write _ _ _) eqn:E; [|reflexivity].
    assert (Ht : touches (metadata_actions w) "metadata" (setup_cfg_name h)
                 = true).
    { destruct (touches _ _ _) eqn:Ht; [reflexivity|].
      apply last_write_touches in Ht. congruence. }
    apply touches_metadata_actions in Ht.
    destruct Ht as (kh' & Hin' & Hs' & Hn).
    apply (table_names_distinct (key, h)) in Hn; [|assumption..].
    subst kh'. contradiction.
Qed.

Lemma C1_absent_inputs_witness :
  serialize readme_world (list_comma_handler "platforms" false)
    (PyList ["UNKNOWN"]) = None.
Proof.
  apply (C1_absent_inputs readme_world "platforms"
           (list_comma_handler "platforms" false)).
  simpl. tauto.
Defined.

(** C1 as it is worded fails twice: with [README.rst] in the working
    directory the long-description translator of the table turns [None] into
    a file reference, and the string translators pass the sentinel
    ["UNKNOWN"] through. *)
Lemma C1_counterexample :
  ~ (forall (w : World) (kh : string * handler),
        In kh METADATA_KEYS -> serialize w (snd kh) PyNone = None)
  /\ ~ (forall (w : World) (kh : string * handler),
           In kh METADATA_KEYS ->
           serialize w (snd kh) (PyStr "UNKNOWN") = None).
Proof.
  split; intros H.
  - specialize (H readme_world
                  ("description", long_description_handler "long_description")).
    simpl in H. discriminate H. tauto.
  - specialize (H readme_world ("name", str_handler "name")).
    simpl in H. discriminate H. tauto.
Qed.

(** ** The list translator *)

Lemma prefix_single (c d : ascii) (s : string) :
  String.prefix (String c "") (String d s) = Ascii.eqb c d.
Proof.
  cbn [String.prefix]. destruct (ascii_dec c d) as [->|Hne].
  - rewrite Ascii.eqb_refl. now destruct s.
  - symmetry. now apply Ascii.eqb_neq.
Qed.

Lemma append_cons_assoc (cur : string) (d : ascii) (x : string) :
  (cur ++ String d "") ++ x = cur ++ String d x.
Proof. induction cur; simpl; congruence. Qed.

Lemma append_empty_r (s : string) : s ++ "" = s.
Proof. induction s; simpl; congruence. Qed.

(** A piece that does not hold the separator is read up to the next
    separator. *)
Lemma split_go_piece (c : ascii) (x cur rest : string) :
  contains_char c x = false ->
  split_go (String c "") 0 cur (x ++ String c rest)
  = (cur ++ x) :: split_go (String c "") 0 "" rest.
Proof.
  revert cur. induction x as [|d x IH]; intros cur H.
  - cbn [append split_go]. rewrite prefix_single, Ascii.eqb_refl.
    now rewrite append_empty_r.
  - simpl in H. apply orb_false_iff in H. destruct H as [Hcd Hx].
    cbn [append split_go]. rewrite prefix_single, Hcd.
    rewrite IH by exact Hx. now rewrite append_cons_assoc.
Qed.

Lemma split_go_last (c : ascii) (x cur : string) :
  contains_char c x = false ->
  split_go (String c "") 0 cur x = [cur ++ x].
Proof.
  revert cur. induction x as [|d x IH]; intros cur H.
  - simpl. now rewrite append_empty_r.
  - simpl in H. apply orb_false_iff in H. destruct H as [Hcd Hx].
    cbn [split_go]. rewrite prefix_single, Hcd.
    rewrite IH by exact Hx. now rewrite append_cons_assoc.
Qed.

(** Splitting a joined list gives the list back when no element holds the
    one-character separator. *)
Lemma split_join (c : ascii) (l : list string) :
  l <> [] ->
  Forall (fun s => contains_char c s = false) l ->
  split (join (String c "") l) (String c "") = l.
Proof.
  intros Hne H. unfold split, join.
  induction H as [|a l Ha Hl IH]; [congruence|].
  destruct l as [|b l].
  - simpl. now apply split_go_last.
  - change (String.concat (String c "") (a :: b :: l))
      with (a ++ String c (String.concat (String c "") (b :: l))).
    rewrite split_go_piece by exact Ha.
    rewrite IH by discriminate. reflexivity.
Qed.

Lemma removeprefix_linesep (r : string) : removeprefix (linesep ++ r) linesep = r.
Proof.
  unfold removeprefix, startswith, linesep, LF, chr. cbn [append].
  now rewrite prefix_single, Ascii.eqb_refl.
Qed.

Lemma serialize_list (w : World) (name : string) (newline : bool)
  (l : list string) :
  l <> [] -> l <> ["UNKNOWN"] ->
  serialize w (list_comma_handler name newline) (PyList l)
  = Some (if newline then linesep ++ join linesep l else join ", " l).
Proof.
  intros Hne Hunk. unfold serialize, list_eqb.
  destruct l as [|a l]; [congruence|]. cbn [List.length Nat.eqb orb].
  destruct (list_eq_dec string_dec (a :: l) ["UNKNOWN"]); [contradiction|].
  destruct newline; reflexivity.
Qed.

(** C8, as the code has it.  For a non-empty list other than
    [["UNKNOWN"]] the compact form is the elements joined by [", "] and the
    multi-line form is the line separator followed by the elements joined by
    it; when no element holds a line feed, removing that first separator and
    splitting at the separator gives the list back.  A string is split at
    its commas first.  [["a"; "b"; "c"]] gives ["a, b, c"]. *)
Theorem C8_list_translator (w : World) (name : string) (l : list string) :
  l <> [] -> l <> ["UNKNOWN"] ->
  serialize w (list_comma_handler name false) (PyList l) = Some (join ", " l)
  /\ serialize w (list_comma_handler name true) (PyList l)
     = Some (linesep ++ join linesep l)
  /\ (Forall (fun s => contains_char (ascii_of_nat 10) s = false) l ->
      split (removeprefix (linesep ++ join linesep l) linesep) linesep = l)
  /\ (forall (newline : bool) (s : string),
         serialize w (list_comma_handler name newline) (PyStr s)
         = serialize w (list_comma_handler name newline) (PyList (split s ",")))
  /\ serialize w (list_comma_handler name false) (PyList ["a"; "b"; "c"])
     = Some "a, b, c".
Proof.
  intros Hne Hunk. repeat split.
  - now apply (serialize_list w name false).
  - now apply (serialize_list w name true).
  - intros H. rewrite removeprefix_linesep. now apply split_join.
Qed.

Lemma C8_list_translator_witness :
  split (removeprefix (linesep ++ join linesep ["a"; "b"; "c"]) linesep) linesep
  = ["a"; "b"; "c"].
Proof.
  apply (C8_list_translator readme_world "classifiers" ["a"; "b"; "c"]).
  - discriminate.
  - discriminate.
  - repeat constructor.
Defined.

(** C8 as it is worded fails for an element that holds a line feed: the
    multi-line form of the one-element list [["a\nb"]] splits into two
    elements. *)
Lemma C8_counterexample :
  serialize readme_world (list_comma_handler "classifiers" true)
    (PyList ["a" ++ LF ++ "b"])
  = Some (linesep ++ "a" ++ LF ++ "b")
  /\ split (removeprefix (linesep ++ "a" ++ LF ++ "b") linesep) linesep
     = ["a"; "b"]
  /\ ["a"; "b"] <> ["a" ++ LF ++ "b"].
Proof. repeat split. discriminate. Qed.

(* ================================================================== *)
(** * The requirements *)
(* ================================================================== *)

(** ** Parsing *)

Lemma rstrip_app (a b : string) :
  rstrip (a ++ b) = match rstrip b with
                    | EmptyString => rstrip a
                    | _ => a ++ rstrip b
                    end.
Proof.
  induction a as [|c a IH]; simpl.
  - now destruct (rstrip b).
  - rewrite IH. destruct (rstrip b); [reflexivity|]. now destruct a.
Qed.

Lemma init_app_single (s : string) (c : ascii) : init (s ++ String c "") = s.
Proof.
  induction s as [|d s IH]; [reflexivity|].
  simpl. rewrite IH. now destruct s.
Qed.

Lemma rstrip_bracket (g : string) :
  rstrip (g ++ String "]" LF) = g ++ "]".
Proof.
  induction g as [|c g IH]; [reflexivity|].
  cbn [append rstrip]. rewrite IH. now destruct g.
Qed.

(** A header line gives the name between its brackets. *)
Lemma header_name (g : string) :
  startswith ("[" ++ g ++ "]" ++ LF) "[" = true
  /\ slice_1_m1 (strip ("[" ++ g ++ "]" ++ LF)) = g.
Proof.
  split.
  - unfold startswith. cbn [append]. rewrite prefix_single. reflexivity.
  - change ("[" ++ g ++ "]" ++ LF) with (String "[" (g ++ String "]" LF)).
    unfold strip. cbn [rstrip]. rewrite rstrip_bracket.
    replace (match g ++ "]" with
             | "" => if is_space "[" then "" else "["
             | String a s => String "[" (String a s)
             end) with (String "[" (g ++ "]")) by now destruct g.
    unfold slice_1_m1. cbn [lstrip drop]. simpl (is_space _). cbv iota.
    cbn [drop]. apply init_app_single.
Qed.

Lemma group_set (requires : dict (list string)) (s g : string) (l : list string) :
  group (set requires s l) g = if String.eqb g s then l else group requires g.
Proof.
  unfold group. destruct (String.eqb_spec g s) as [->|Hne].
  - now rewrite get_set_same.
  - now rewrite get_set_other.
Qed.

(** The dictionary the loop builds holds, for every group, the requirement
    strings the specification gives it. *)
Lemma parse_requires_from (lines : list string) (cur g : string)
  (requires : dict (list string)) :
  group (snd (fold_left requires_line lines (cur, requires))) g
  = (group requires g ++ spec_requirements g cur lines)%list.
Proof.
  revert cur requires. induction lines as [|line lines IH]; intros cur requires.
  - simpl. now rewrite app_nil_r.
  - cbn [fold_left spec_requirements]. unfold requires_line at 2.
    destruct (startswith line "["); [apply IH|].
    destruct (String.eqb (strip line) ""); cbn [negb]; [apply IH|].
    rewrite IH, group_set. rewrite (String.eqb_sym g cur).
    destruct (String.eqb_spec cur g) as [->|Hne].
    + now rewrite <- app_assoc.
    + reflexivity.
Qed.

(** C2, as the code has it.  The loop starts in group [default]; a line
    [[group]] makes [group] the current one; every other line that is not
    blank is appended, stripped, to the current group; so each group holds
    the requirement strings the specification gives it.  The lines
    ["a\n"], ["[extra1]\n"], ["b\n"] give [default = ["a"]] and
    [extra1 = ["b"]]; the run then sets [install_requires] to the line
    separator followed by ["a"], creates [[options.extras_require]] and sets
    its [extra1] to ["b"]. *)
Theorem C2_requirements_parsing :
  (forall (g section : string) (requires : dict (list string)),
      requires_line (section, requires) ("[" ++ g ++ "]" ++ LF) = (g, requires))
  /\ (forall (lines : list string) (g : string),
         group (parse_requires lines) g = spec_requirements g "default" lines)
  /\ parse_requires ["a" ++ LF; "[extra1]" ++ LF; "b" ++ LF]
     = [("default", ["a"]); ("extra1", ["b"])]
  /\ (exists conf,
         merge requires_world "foo.egg-info" ConfigParser.empty = Ok conf
         /\ option_value conf "options" "install_requires" = Some (linesep ++ "a")
         /\ option_value conf "options.extras_require" "extra1" = Some "b"
         /\ ConfigParser.has_section conf "options.extras_require" = true)
  /\ main requires_world
     = Done (text ["[metadata]"; "name = foo"; "version = 1.0"; "";
                   "[options]"; "zip_safe = True"; "packages = find:";
                   "include_package_data = True";
                   "install_requires = "; TAB ++ "a"; "";
                   "[options.extras_require]"; "extra1 = b"; ""]).
Proof.
  split; [|split; [|split; [|split]]].
  - intros g section requires. unfold requires_line.
    destruct (header_name g) as [-> ->]. reflexivity.
  - intros lines g. unfold parse_requires. now rewrite parse_requires_from.
  - reflexivity.
  - eexists. split; [vm_compute; reflexivity|]. repeat split.
  - vm_compute. reflexivity.
Qed.

(** C2 as it is worded fails on its example: the value of
    [install_requires] starts with the line separator, it is not ["a"]. *)
Lemma C2_counterexample :
  exists conf,
    merge requires_world "foo.egg-info" ConfigParser.empty = Ok conf
    /\ option_value conf "options" "install_requires" = Some (LF ++ "a")
    /\ option_value conf "options" "install_requires" <> Some "a".
Proof.
  eexists. split; [vm_compute; reflexivity|]. split; [reflexivity|discriminate].
Qed.

(** ** Merging *)

Lemma has_section_get (conf : ConfigParser.t) (s : string) :
  ConfigParser.has_section conf s = true
  <-> exists d, get (ConfigParser.sections conf) s = Some d.
Proof.
  unfold ConfigParser.has_section, mem.
  destruct (get (ConfigParser.sections conf) s) as [d|].
  - split; eauto.
  - split; [discriminate|]. intros (d & H). discriminate.
Qed.

Lemma act_section_kept (conf conf' : ConfigParser.t) (a : action) (s : string) :
  script_section (action_section a) = true ->
  act conf a = Ok conf' ->
  ConfigParser.has_section conf s = true ->
  ConfigParser.has_section conf' s = true.
Proof.
  intros Hs H Hhas.
  destruct (string_dec (action_section a) s) as [E|Hne].
  - apply has_section_get. destruct a as [s0|s0 k v]; simpl in E, Hs, H; subst s0.
    + apply ensure_section_Ok in H. destruct H as [[_ ->]|[_ ->]].
      * now apply has_section_get.
      * simpl. rewrite get_set_same. eauto.
    + apply set_option_Ok in H; [|exact Hs]. destruct H as (d & _ & ->).
      simpl. rewrite get_set_same. eauto.
  - apply has_section_get. rewrite (act_other_section _ _ _ _ Hs Hne H).
    now apply has_section_get.
Qed.

Lemma run_section_kept (acts : list action) (conf conf' : ConfigParser.t)
  (s : string) :
  Forall (fun a => script_section (action_section a) = true) acts ->
  for_each acts act conf = Ok conf' ->
  ConfigParser.has_section conf s = true ->
  ConfigParser.has_section conf' s = true.
Proof.
  intros Hs. revert conf.
  induction Hs as [|a acts Ha _ IH]; intros conf H Hhas; simpl in H.
  - now injection H as <-.
  - apply bind_Ok in H. destruct H as (c & Hc & H).
    eapply IH; [exact H|]. eapply act_section_kept; eauto.
Qed.

Lemma ensure_section_has (conf conf' : ConfigParser.t) (s : string) :
  ensure_section conf s = Ok conf' ->
  ConfigParser.has_section conf' s = true.
Proof.
  intros H. apply ensure_section_Ok in H. destruct H as [[Hh ->]|[_ ->]].
  - exact Hh.
  - apply has_section_get. simpl. rewrite get_set_same. eauto.
Qed.

Lemma last_write_other_sections (acts : list action) (s k : string) :
  Forall (fun a => action_section a <> s) acts -> last_write acts s k = None.
Proof.
  induction 1 as [|a acts Ha _ IH]; [reflexivity|].
  cbn [last_write]. rewrite IH. destruct a as [s0|s0 k0 v0]; [reflexivity|].
  simpl in Ha. simpl. apply String.eqb_neq in Ha. now rewrite Ha.
Qed.

Lemma touches_map_set (S : string) (f : string -> string) (l : list string)
  (k : string) :
  touches (map (fun x => SetOption S x (f x)) l) S k = true ->
  exists x, In x l /\ ConfigParser.optionxform x = k.
Proof.
  unfold touches. induction l as [|x l IH]; simpl; [discriminate|].
  intros H. apply orb_true_iff in H. destruct H as [H|H].
  - apply andb_true_iff in H. destruct H as [_ H].
    apply String.eqb_eq in H. eauto.
  - destruct (IH H) as (y & Hy & E). eauto.
Qed.

(** Among options set one after the other, a name that no later one shares
    keeps its value. *)
Lemma last_write_map_set (S : string) (f : string -> string) (l : list string)
  (s : string) :
  In s l ->
  (forall s', In s' l ->
              ConfigParser.optionxform s' = ConfigParser.optionxform s -> s' = s) ->
  last_write (map (fun x => SetOption S x (f x)) l) S (ConfigParser.optionxform s)
  = Some (f s).
Proof.
  induction l as [|x l IH]; [contradiction|].
  intros Hin Huniq. cbn [map last_write].
  destruct (in_dec string_dec s l) as [Hl|Hl].
  - rewrite IH; [reflexivity|exact Hl|]. intros s' Hs'. apply Huniq. now right.
  - destruct Hin as [->|Hin]; [|contradiction].
    assert (E : last_write (map (fun x => SetOption S x (f x)) l) S
                  (ConfigParser.optionxform s) = None).
    { apply last_write_touches. apply not_true_is_false.
      intros H. apply touches_map_set in H. destruct H as (s' & Hs' & H).
      apply Huniq in H; [|now right]. congruence. }
    rewrite E. simpl. now rewrite !String.eqb_refl.
Qed.

(** Among options set one after the other under names that may be stored
    alike, the last one that is stored under a name decides its value. *)
Lemma last_write_map_set_last (S : string) (f : string -> string)
  (l1 : list string) (s : string) (l2 : list string) :
  (forall s', In s' l2 ->
              ConfigParser.optionxform s' <> ConfigParser.optionxform s) ->
  last_write (map (fun x => SetOption S x (f x)) (app l1 (s :: l2))) S
    (ConfigParser.optionxform s)
  = Some (f s).
Proof.
  intros Hlater. induction l1 as [|x l1 IH].
  - cbn [app map last_write].
    assert (E : last_write (map (fun x => SetOption S x (f x)) l2) S
                  (ConfigParser.optionxform s) = None).
    { apply last_write_touches. apply not_true_is_false.
      intros H. apply touches_map_set in H. destruct H as (s' & Hs' & H).
      exact (Hlater s' Hs' H). }
    rewrite E. simpl. now rewrite !String.eqb_refl.
  - cbn [app map last_write]. now rewrite IH.
Qed.

Lemma set_option_keys_absent (conf conf' : ConfigParser.t) (s k v : string) :
  script_section s = true ->
  ConfigParser.set_option conf s k v = Ok conf' ->
  ~ In (ConfigParser.optionxform k) (section_keys conf s) ->
  section_keys conf' s
  = (section_keys conf s ++ [ConfigParser.optionxform k])%list.
Proof.
  intros Hs H Hout. apply set_option_Ok in H; [|exact Hs].
  destruct H as (d & Hd & ->). unfold section_keys in *. simpl.
  rewrite get_set_same. rewrite Hd in *. now apply keys_set_absent.
Qed.

Lemma run_fresh_keys (S : string) (f : string -> string) (l : list string)
  (conf conf' : ConfigParser.t) :
  script_section S = true ->
  for_each (map (fun x => SetOption S x (f x)) l) act conf = Ok conf' ->
  NoDup (map ConfigParser.optionxform l) ->
  (forall x, In x l -> ~ In (ConfigParser.optionxform x) (section_keys conf S)) ->
  section_keys conf' S
  = (section_keys conf S ++ map ConfigParser.optionxform l)%list.
Proof.
  intros HS. revert conf. induction l as [|x l IH]; intros conf H Hnd Hout.
  - simpl in H. injection H as <-. now rewrite app_nil_r.
  - cbn [map for_each act] in H. apply bind_Ok in H. destruct H as (c & Hc & H).
    cbn [map] in Hnd. inversion Hnd as [|? ? Hx Hnd']; subst.
    pose proof (set_option_keys_absent _ _ _ _ _ HS Hc (Hout x (or_introl eq_refl)))
      as Hk.
    rewrite (IH c H Hnd').
    + rewrite Hk, <- app_assoc. reflexivity.
    + intros y Hy. rewrite Hk. intros Hin. apply in_app_or in Hin.
      destruct Hin as [Hin|[E|[]]].
      * now apply (Hout y (or_intror Hy)).
      * apply Hx. rewrite E. now apply in_map.
Qed.

Lemma StronglySorted_filter {A : Type} (R : A -> A -> Prop) (p : A -> bool)
  (l : list A) :
  StronglySorted R l -> StronglySorted R (filter p l).
Proof.
  induction 1 as [|a l Hl IH Ha]; simpl; [constructor|].
  destruct (p a); [|exact IH].
  constructor; [exact IH|].
  apply Forall_forall. intros x Hx. apply filter_In in Hx.
  rewrite Forall_forall in Ha. now apply Ha.
Qed.

Lemma group_touch_default (requires : dict (list string)) (s : string) :
  group (touch_default requires) s = group requires s.
Proof.
  unfold touch_default.
  destruct (mem requires "default") eqn:E; [reflexivity|].
  rewrite group_set. destruct (String.eqb_spec s "default") as [->|]; [|reflexivity].
  unfold group. apply mem_false_get in E. now rewrite E.
Qed.

Lemma keys_touch_default (requires : dict (list string)) (s : string) :
  In s (keys (touch_default requires)) <-> In s (keys requires) \/ s = "default".
Proof.
  unfold touch_default. destruct (mem requires "default") eqn:E.
  - split; [auto|]. intros [H| ->]; [exact H|].
    unfold mem in E. apply get_In_keys.
    destruct (get requires "default"); [eauto|discriminate].
  - rewrite In_keys_set. tauto.
Qed.

Lemma keys_set_add_key {V : Type} (d : dict V) (k : string) (v : V) :
  keys (set d k v) = add_key (keys d) k.
Proof.
  unfold add_key. destruct (existsb (String.eqb k) (keys d)) eqn:E.
  - apply keys_set_present. now apply existsb_eqb_In.
  - apply keys_set_absent. intros H. apply existsb_eqb_In in H. congruence.
Qed.

Lemma set_option_keys (conf conf' : ConfigParser.t) (s k v : string) :
  script_section s = true ->
  ConfigParser.set_option conf s k v = Ok conf' ->
  section_keys conf' s
  = add_key (section_keys conf s) (ConfigParser.optionxform k).
Proof.
  intros Hs H. apply set_option_Ok in H; [|exact Hs].
  destruct H as (d & Hd & ->). unfold section_keys. simpl.
  rewrite get_set_same, Hd. apply keys_set_add_key.
Qed.

(** Options set one after the other in a section: the keys that were there
    keep their place, each new name goes to the end when it is first set. *)
Lemma run_set_keys (S : string) (f : string -> string) (l : list string)
  (conf conf' : ConfigParser.t) :
  script_section S = true ->
  for_each (map (fun x => SetOption S x (f x)) l) act conf = Ok conf' ->
  section_keys conf' S
  = keys_after (section_keys conf S) (map ConfigParser.optionxform l).
Proof.
  intros HS. revert conf. induction l as [|x l IH]; intros conf H.
  - simpl in H. apply Ok_inj in H. now subst.
  - cbn [map for_each act] in H. apply bind_Ok in H. destruct H as (c & Hc & H).
    rewrite (IH c H). unfold keys_after. cbn [map fold_left].
    now rewrite (set_option_keys _ _ _ _ _ HS Hc).
Qed.

Lemma keys_after_app (ks names : list string) :
  exists added,
    keys_after ks names = app ks added
    /\ forall k, In k added <-> In k names /\ ~ In k ks.
Proof.
  unfold keys_after. revert ks.
  induction names as [|x names IH]; intros ks; cbn [fold_left].
  - exists []. split; [now rewrite app_nil_r|]. intros k. simpl. tauto.
  - unfold add_key at 2. destruct (existsb (String.eqb x) ks) eqn:E.
    + apply existsb_eqb_In in E.
      destruct (IH ks) as (added & Ea & Hin). exists added.
      split; [exact Ea|]. intros k. rewrite Hin. simpl. split.
      * tauto.
      * intros [[<-|H] Hout]; [contradiction|tauto].
    + assert (Hx : ~ In x ks).
      { intros H. apply existsb_eqb_In in H. congruence. }
      destruct (IH (app ks [x])) as (added & Ea & Hin). exists (x :: added).
      split; [rewrite Ea, <- app_assoc; reflexivity|].
      intros k. simpl. rewrite Hin, in_app_iff. simpl.
      destruct (string_dec x k) as [<-|Hne]; intuition congruence.
Qed.

(** C3, as the code has it.  When [requires.txt] exists the run sets
    [install_requires] of
    [[options]] to the block of the [default] group, the line separator
    followed by the requirements joined by it, which is the separator alone
    when the group is empty.  The extras are the groups other than [default]
    in the order of their names, which is the order of the code points: a
    name in upper case comes before every name in lower case.  With more
    than one group the section
    [[options.extras_require]] exists afterwards and every extra's key, the
    name as the parser stores it, in lower case, holds the extra's
    requirements joined by ["; "]; when several extras are stored under one
    name, the key holds those of the last of them.  The keys of the section
    afterwards are
    those it had, in their places, followed by the new stored names in the
    order in which the extras first bring them: in a section that was not
    there before, and with no stored name twice, they are the stored names
    of the extras in the order of the extras.  With the groups [default],
    [zeta], [alpha] the key [alpha] is written before [zeta]; with [Zeta] and
    [alpha] the key [zeta] is written before [alpha]. *)
Theorem C3_requirements_merge :
  (forall (requires : dict (list string)) (conf conf' : ConfigParser.t),
      set_requires requires conf = Ok conf' ->
      let groups := touch_default requires in
      option_value conf' "options" "install_requires"
      = Some (linesep ++ join linesep (group requires "default"))
      /\ (group requires "default" = [] ->
          option_value conf' "options" "install_requires" = Some linesep)
      /\ StronglySorted (fun a b => String.leb a b = true) (extras groups)
      /\ (forall s, In s (extras groups)
                    <-> In s (keys requires) /\ s <> "default")
      /\ (1 < List.length groups ->
          ConfigParser.has_section conf' "options.extras_require" = true
          /\ (forall s,
                 In s (extras groups) ->
                 (forall s', In s' (extras groups) ->
                             ConfigParser.optionxform s'
                             = ConfigParser.optionxform s -> s' = s) ->
                 option_value conf' "options.extras_require"
                   (ConfigParser.optionxform s)
                 = Some (join "; " (group requires s)))
          /\ (ConfigParser.has_section conf "options.extras_require" = false ->
              NoDup (map ConfigParser.optionxform (extras groups)) ->
              section_keys conf' "options.extras_require"
              = map ConfigParser.optionxform (extras groups))
          /\ (forall l1 s l2,
                 extras groups = app l1 (s :: l2) ->
                 (forall s', In s' l2 ->
                             ConfigParser.optionxform s'
                             <> ConfigParser.optionxform s) ->
                 option_value conf' "options.extras_require"
                   (ConfigParser.optionxform s)
                 = Some (join "; " (group requires s)))
          /\ section_keys conf' "options.extras_require"
             = keys_after (section_keys conf "options.extras_require")
                 (map ConfigParser.optionxform (extras groups))
          /\ (exists added,
                 section_keys conf' "options.extras_require"
                 = app (section_keys conf "options.extras_require") added
                 /\ forall k,
                      In k added
                      <-> In k (map ConfigParser.optionxform (extras groups))
                          /\ ~ In k (section_keys conf "options.extras_require"))))
  /\ parse_requires (file_lines (text ["d"; "[zeta]"; "z"; "[alpha]"; "a"]))
     = [("default", ["d"]); ("zeta", ["z"]); ("alpha", ["a"])]
  /\ main extras_world
     = Done (text ["[metadata]"; "name = foo"; "version = 1.0"; "";
                   "[options]"; "zip_safe = True"; "packages = find:";
                   "include_package_data = True";
                   "install_requires = "; TAB ++ "d"; "";
                   "[options.extras_require]"; "alpha = a"; "zeta = z"; ""])
  /\ extras [("default", ["d"]); ("alpha", ["a"]); ("Zeta", ["z"])]
     = ["Zeta"; "alpha"]
  /\ (exists conf',
         set_requires [("default", ["d"]); ("alpha", ["a"]); ("Zeta", ["z"])]
           (ConfigParser.mk [] [("options", [])])
         = Ok conf'
         /\ ConfigParser.sections conf'
            = [("options", [("install_requires", linesep ++ "d")]);
               ("options.extras_require", [("zeta", "z"); ("alpha", "a")])])
  /\ (exists conf',
         set_requires [("default", ["d"]); ("test", ["a"]); ("Test", ["b"])]
           (ConfigParser.mk [] [("options", [])])
         = Ok conf'
         /\ ConfigParser.sections conf'
            = [("options", [("install_requires", linesep ++ "d")]);
               ("options.extras_require", [("test", "a")])]).
Proof.
  split; [|split; [reflexivity|split; [vm_compute; reflexivity|split;
    [reflexivity|split; eexists; split; vm_compute; reflexivity]]]].
  intros requires conf conf' H groups.
  rewrite set_requires_set_actions in H.
  assert (Hs : Forall (fun a => script_section (action_section a) = true)
                 (set_requires_actions requires)).
  { eapply Forall_impl; [|apply set_requires_actions_sections].
    intros a [-> | ->]; reflexivity. }
  assert (Hinstall : option_value conf' "options" "install_requires"
                     = Some (linesep ++ join linesep (group requires "default"))).
  { rewrite (run_option_value _ _ _ "options" "install_requires" Hs H).
    unfold set_requires_actions. cbn [last_write].
    rewrite last_write_other_sections.
    - simpl. now rewrite group_touch_default.
    - destruct (1 <? _); [|constructor].
      constructor; [discriminate|].
      apply Forall_map, Forall_forall. intros x _. discriminate. }
  split; [exact Hinstall|]. split.
  { intros E. rewrite Hinstall, E. reflexivity. }
  split.
  { unfold extras. apply StronglySorted_filter.
    apply (sorted_sorted string (fun section => section)). }
  split.
  { intros s. unfold extras, groups. rewrite filter_In, sorted_In.
    rewrite keys_touch_default, negb_true_iff, String.eqb_neq. tauto. }
  intros Hlen. apply Nat.ltb_lt in Hlen.
  unfold set_requires_actions in H, Hs. fold groups in H, Hs.
  rewrite Hlen in H, Hs.
  cbn [for_each act] in H.
  apply bind_Ok in H. destruct H as (c1 & H1 & H).
  apply bind_Ok in H. destruct H as (c2 & H2 & H).
  inversion Hs as [|? ? _ Hs1]; subst. inversion Hs1 as [|? ? _ Hs2]; subst.
  assert (Hkeep : section_keys c2 "options.extras_require"
                  = section_keys conf "options.extras_require").
  { assert (E1 : get (ConfigParser.sections c1) "options.extras_require"
                 = get (ConfigParser.sections conf) "options.extras_require").
    { apply (act_other_section conf c1
               (SetOption "options" "install_requires"
                  (linesep ++ join linesep (group groups "default")))
               "options.extras_require");
        [reflexivity|discriminate|exact H1]. }
    unfold section_keys. rewrite <- E1.
    destruct (ensure_section_Ok _ _ _ H2) as [[_ ->]|[Hno ->]]; [reflexivity|].
    simpl. rewrite get_set_same.
    unfold ConfigParser.has_section in Hno. apply mem_false_get in Hno.
    now rewrite Hno. }
  pose proof (run_set_keys "options.extras_require"
                (fun x => join "; " (group groups x)) _ c2 conf' eq_refl H)
    as Hkeys.
  rewrite Hkeep in Hkeys.
  split; [|split; [|split; [|split; [|split; [exact Hkeys|]]]]];
    [| | | |rewrite Hkeys; apply keys_after_app].
  - eapply run_section_kept; [exact Hs2|exact H|].
    eapply ensure_section_has; eauto.
  - intros s Hin Huniq.
    rewrite (run_option_value _ _ _ "options.extras_require"
               (ConfigParser.optionxform s) Hs2 H).
    rewrite (last_write_map_set "options.extras_require"
               (fun x => join "; " (group groups x)) _ s Hin Huniq).
    unfold groups. now rewrite group_touch_default.
  - intros Hfresh Hnd.
    assert (Hk2 : section_keys c2 "options.extras_require" = []).
    { apply ensure_section_Ok in H2. destruct H2 as [[Hh _]|[_ ->]].
      - apply has_section_get in Hh. destruct Hh as (d & Hd).
        rewrite (act_other_section conf c1
                   (SetOption "options" "install_requires"
                      (linesep ++ join linesep (group groups "default")))
                   "options.extras_require") in Hd;
          [|reflexivity|discriminate|exact H1].
        unfold ConfigParser.has_section in Hfresh.
        apply mem_false_get in Hfresh. congruence.
      - unfold section_keys. simpl. now rewrite get_set_same. }
    rewrite (run_fresh_keys "options.extras_require"
               (fun x => join "; " (group groups x)) _ c2 conf' eq_refl H Hnd).
    + now rewrite Hk2.
    + intros x _. now rewrite Hk2.
  - intros l1 s l2 Eext Hlater.
    rewrite (run_option_value _ _ _ "options.extras_require"
               (ConfigParser.optionxform s) Hs2 H).
    rewrite Eext.
    rewrite (last_write_map_set_last "options.extras_require"
               (fun x => join "; " (group groups x)) l1 s l2 Hlater).
    unfold groups. now rewrite group_touch_default.
Qed.

(** C3 as it is worded fails twice.  The value of [install_requires] is not
    the [default] group joined by the line separator: the separator comes
    first.  And when [[options.extras_require]] was in [setup.cfg] already
    with [zeta] before [alpha], the two keys are set in place and [zeta] is
    still written first. *)
Lemma C3_counterexample :
  (exists conf',
      set_requires [("default", ["a"])] (ConfigParser.mk [] [("options", [])])
      = Ok conf'
      /\ option_value conf' "options" "install_requires" = Some (linesep ++ "a")
      /\ option_value conf' "options" "install_requires"
         <> Some (join linesep (group [("default", ["a"])] "default")))
  /\ (exists conf',
         set_requires [("default", ["d"]); ("zeta", ["z"]); ("alpha", ["a"])]
           (ConfigParser.mk []
              [("options", []);
               ("options.extras_require", [("zeta", "old"); ("alpha", "old")])])
         = Ok conf'
         /\ ConfigParser.sections conf'
            = [("options", [("install_requires", linesep ++ "d")]);
               ("options.extras_require", [("zeta", "z"); ("alpha", "a")])]).
Proof.
  split.
  - eexists. split; [vm_compute; reflexivity|].
    split; [reflexivity|discriminate].
  - eexists. split; vm_compute; reflexivity.
Qed.

Lemma C3_requirements_merge_witness :
  option_value
    (ConfigParser.mk []
       [("options", [("install_requires", LF ++ "d")]);
        ("options.extras_require", [("alpha", "a"); ("zeta", "z")])])
    "options" "install_requires"
  = Some (linesep ++ join linesep
            (group [("default", ["d"]); ("zeta", ["z"]); ("alpha", ["a"])]
                   "default")).
Proof.
  apply (proj1 C3_requirements_merge
           [("default", ["d"]); ("zeta", ["z"]); ("alpha", ["a"])]
           (ConfigParser.mk [] [("options", [])])).
  vm_compute. reflexivity.
Defined.

(* ================================================================== *)
(** * What [read] returns *)
(* ================================================================== *)

Lemma lower_char_idem (c : ascii) : lower_char (lower_char c) = lower_char c.
Proof. destruct c as [[] [] [] [] [] [] [] []]; reflexivity. Qed.

Lemma optionxform_idem (s : string) :
  ConfigParser.optionxform (ConfigParser.optionxform s)
  = ConfigParser.optionxform s.
Proof.
  unfold ConfigParser.optionxform, lower.
  induction s as [|c s IH]; simpl; [reflexivity|].
  now rewrite lower_char_idem, IH.
Qed.

Lemma get_In {V : Type} (d : dict V) (k : string) (v : V) :
  get d k = Some v -> In (k, v) d.
Proof.
  intros H. apply get_split in H. destruct H as (d1 & d2 & ->).
  apply in_or_app. right. now left.
Qed.

Lemma Forall_set {V : Type} (P : string * V -> Prop) (d : dict V) (k : string)
  (v : V) :
  Forall P d -> P (k, v) -> Forall P (set d k v).
Proof.
  intros Hd Hkv. apply Forall_forall. intros kv Hin.
  apply In_set in Hin. destruct Hin as [->|Hin]; [exact Hkv|].
  rewrite Forall_forall in Hd. now apply Hd.
Qed.

Lemma Forall_keys_set {V : Type} (P : string -> Prop) (d : dict V) (k : string)
  (v : V) :
  Forall P (keys d) -> P k -> Forall P (keys (set d k v)).
Proof.
  intros Hd Hk. apply Forall_forall. intros x Hx.
  apply In_keys_set in Hx. destruct Hx as [->|Hx]; [exact Hk|].
  rewrite Forall_forall in Hd. now apply Hd.
Qed.

Section ReadInvariant.
Import ConfigParser.

Lemma cursect_inv (st : rstate) (sn : string) :
  read_invariant st ->
  NoDup (keys (cursect st sn)) /\ Forall stored_name (keys (cursect st sn)).
Proof.
  intros ((Hd & Hs & Hss) & (Ld & Lss)). unfold cursect.
  destruct (String.eqb sn default_section); [now split|].
  destruct (get (r_sections st) sn) as [d|] eqn:E.
  - apply get_In in E. rewrite Forall_forall in Hss, Lss.
    split; [apply (Hss _ E)|apply (Lss _ E)].
  - split; constructor.
Qed.

Lemma set_cursect_inv (st : rstate) (sn : string) (d : dict (list string)) :
  read_invariant st -> NoDup (keys d) -> Forall stored_name (keys d) ->
  read_invariant (set_cursect st sn d).
Proof.
  intros ((Hd & Hs & Hss) & (Ld & Lss)) Hnd Hl. unfold set_cursect.
  destruct (String.eqb sn default_section); simpl.
  - repeat split; assumption.
  - repeat split; try assumption.
    + now apply NoDup_keys_set.
    + now apply Forall_set.
    + now apply Forall_set.
Qed.

Lemma append_line_inv (st : rstate) (sn on value : string) :
  read_invariant st -> read_invariant (append_line st sn on value).
Proof.
  intros H. unfold append_line.
  destruct (get (cursect st sn) on) as [ls|] eqn:E; [|exact H].
  destruct (cursect_inv st sn H) as [Hnd Hl].
  assert (Hin : In on (keys (cursect st sn))) by (apply get_In_keys; eauto).
  apply set_cursect_inv; [exact H| |]; now rewrite keys_set_present.
Qed.

Lemma fields_inv (st : rstate) (a : list string) (b : list (string * string))
  (c d : option string) (n : nat) (f : bool) :
  read_invariant st -> read_invariant (mk_rstate (r_defaults st) (r_sections st) a b c d n f).
Proof. intros H. exact H. Qed.

Lemma new_section_inv (st : rstate) (header : string) (a : list string)
  (b : list (string * string)) (c d : option string) (n : nat) (f : bool) :
  read_invariant st ->
  read_invariant (mk_rstate (r_defaults st) (set (r_sections st) header []) a b c d n f).
Proof.
  intros ((Hd & Hs & Hss) & (Ld & Lss)). repeat split; simpl; try assumption.
  - now apply NoDup_keys_set.
  - apply Forall_set; [assumption|constructor].
  - apply Forall_set; [assumption|constructor].
Qed.

Lemma read_line_inv (st st' : rstate) (line : string) :
  read_line st line = Ok st' -> read_invariant st -> read_invariant st'.
Proof.
  unfold read_line. intros H Hinv. cbv zeta in H.
  repeat match type of H with
         | context [match ?x with _ => _ end] =>
             lazymatch x with
             | context [match _ with _ => _ end] => fail
             | _ => destruct x eqn:?
             end
         end;
    try discriminate H; apply Ok_inj in H; subst st';
    auto using append_line_inv, fields_inv, new_section_inv.
  all: apply set_cursect_inv;
    [ now apply fields_inv
    | apply NoDup_keys_set; now apply cursect_inv, fields_inv
    | apply Forall_keys_set;
      [now apply cursect_inv, fields_inv|apply optionxform_idem] ].
Qed.

Lemma read_lines_inv (lines : list string) (st st' : rstate) :
  for_each lines read_line st = Ok st' -> read_invariant st -> read_invariant st'.
Proof.
  revert st. induction lines as [|line lines IH]; intros st H Hinv; simpl in H.
  - now injection H as <-.
  - apply bind_Ok in H. destruct H as (st1 & H1 & H).
    eapply IH; [exact H|]. eapply read_line_inv; eauto.
Qed.

Lemma keys_join_multiline_values (d : dict (list string)) :
  keys (join_multiline_values d) = keys d.
Proof.
  unfold keys, join_multiline_values. rewrite map_map. reflexivity.
Qed.

(** A document that was read has no name twice and stores every option
    under its lower-case name. *)
Lemma read_well_formed (content : string) (conf : t) :
  read content = Ok conf -> well_formed conf /\ stored_names conf.
Proof.
  unfold read, read_lines. intros H.
  apply bind_Ok in H. destruct H as (st & Hst & H).
  destruct (e st); [discriminate|]. apply Ok_inj in H. subst conf.
  assert (Hinv : read_invariant st).
  { eapply read_lines_inv; [exact Hst|]. repeat split; constructor. }
  destruct Hinv as ((Hd & Hs & Hss) & (Ld & Lss)).
  unfold well_formed, stored_names, dicts_distinct, dicts_stored. simpl.
  rewrite keys_join_multiline_values.
  assert (Ek : keys (map (fun sd => (fst sd, join_multiline_values (snd sd)))
                         (r_sections st)) = keys (r_sections st)).
  { unfold keys. rewrite map_map. reflexivity. }
  rewrite Ek. repeat split; try assumption.
  - apply Forall_map. simpl. revert Hss. apply Forall_impl.
    intros sd. now rewrite keys_join_multiline_values.
  - apply Forall_map. simpl. revert Lss. apply Forall_impl.
    intros sd. now rewrite keys_join_multiline_values.
Qed.
End ReadInvariant.

(* ================================================================== *)
(** * The entry points *)
(* ================================================================== *)








(* ================================================================== *)
(** * Running twice *)
(* ================================================================== *)

(** ** The shape of a document *)

Lemma set_same {V : Type} (d : dict V) (k : string) (v : V) :
  get d k = Some v -> set d k v = d.
Proof.
  induction d as [|[k' v'] d IH]; simpl; [discriminate|].
  destruct (String.eqb_spec k k') as [->|Hne].
  - intros E. now injection E as ->.
  - intros H. now rewrite IH.
Qed.

Lemma get_map_values {V W : Type} (f : V -> W) (d : dict V) (k : string) :
  get (map (fun kv => (fst kv, f (snd kv))) d) k = option_map f (get d k).
Proof.
  induction d as [|[k' v'] d IH]; simpl; [reflexivity|].
  destruct (String.eqb k k'); [reflexivity|exact IH].
Qed.

Lemma map_values_set {V W : Type} (f : V -> W) (d : dict V) (k : string) (v : V) :
  map (fun kv => (fst kv, f (snd kv))) (set d k v)
  = set (map (fun kv => (fst kv, f (snd kv))) d) k (f v).
Proof.
  induction d as [|[k' v'] d IH]; simpl; [reflexivity|].
  destruct (String.eqb k k'); simpl; [reflexivity|now rewrite IH].
Qed.

Lemma get_shape (conf : ConfigParser.t) (s : string) :
  get (shape conf) s
  = option_map (@keys string) (get (ConfigParser.sections conf) s).
Proof. apply (get_map_values (@keys string)). Qed.

Lemma keys_shape (conf : ConfigParser.t) :
  keys (shape conf) = keys (ConfigParser.sections conf).
Proof. unfold shape, keys. rewrite map_map. reflexivity. Qed.

Lemma section_keys_shape (conf : ConfigParser.t) (s : string) :
  section_keys conf s
  = match get (shape conf) s with Some ks => ks | None => [] end.
Proof.
  unfold section_keys. rewrite get_shape.
  now destruct (get (ConfigParser.sections conf) s).
Qed.

Lemma has_section_shape (conf : ConfigParser.t) (s : string) :
  ConfigParser.has_section conf s
  = match get (shape conf) s with Some _ => true | None => false end.
Proof.
  unfold ConfigParser.has_section, mem. rewrite get_shape.
  now destruct (get (ConfigParser.sections conf) s).
Qed.

Lemma option_value_In (conf : ConfigParser.t) (s k v : string) :
  option_value conf s k = Some v -> In k (section_keys conf s).
Proof.
  unfold option_value, section_keys.
  destruct (get (ConfigParser.sections conf) s) as [d|]; [|discriminate].
  intros H. apply get_In_keys. eauto.
Qed.

Lemma In_section_keys (conf : ConfigParser.t) (s k : string) :
  In k (section_keys conf s) ->
  exists d, get (ConfigParser.sections conf) s = Some d /\ In k (keys d).
Proof.
  unfold section_keys.
  destruct (get (ConfigParser.sections conf) s) as [d|]; [eauto|contradiction].
Qed.

(** Setting an option that is there changes no name and no order. *)
Lemma set_option_same_shape (conf conf' : ConfigParser.t) (s k v : string) :
  script_section s = true ->
  ConfigParser.set_option conf s k v = Ok conf' ->
  In (ConfigParser.optionxform k) (section_keys conf s) ->
  shape conf' = shape conf.
Proof.
  intros Hs H Hin. apply set_option_Ok in H; [|exact Hs].
  destruct H as (d & Hd & ->).
  apply In_section_keys in Hin. destruct Hin as (d' & Hd' & Hin).
  assert (d' = d) as -> by congruence.
  unfold shape. simpl. rewrite (map_values_set (@keys string)).
  rewrite keys_set_present by exact Hin.
  apply set_same. fold (shape conf). rewrite get_shape, Hd. reflexivity.
Qed.

Lemma set_option_succeeds (conf : ConfigParser.t) (s k v : string)
  (d : dict string) :
  script_section s = true -> accepted v ->
  get (ConfigParser.sections conf) s = Some d ->
  exists conf', ConfigParser.set_option conf s k v = Ok conf'.
Proof.
  intros Hs Hv Hd. unfold ConfigParser.set_option. unfold accepted in Hv.
  rewrite Hv. cbn [bind]. rewrite (script_section_plain _ Hs), Hd. eauto.
Qed.

(** A document without repeated names is determined by its default
    section, its shape and the values of its options. *)
Lemma document_ext (c c' : ConfigParser.t) :
  well_formed c' ->
  ConfigParser.defaults c = ConfigParser.defaults c' ->
  shape c = shape c' ->
  (forall s k, option_value c s k = option_value c' s k) ->
  c = c'.
Proof.
  intros (_ & Hnd & Hall) Hd Hsh Hv.
  assert (Hs : ConfigParser.sections c' = ConfigParser.sections c).
  { apply dict_ext; [exact Hnd| |].
    - rewrite <- !keys_shape. now rewrite Hsh.
    - intros s.
      pose proof (get_shape c s) as E. pose proof (get_shape c' s) as E'.
      rewrite Hsh, E' in E.
      specialize (Hv s). unfold option_value in Hv.
      destruct (get (ConfigParser.sections c') s) as [d'|] eqn:G';
        destruct (get (ConfigParser.sections c) s) as [d|] eqn:G;
        simpl in E; try discriminate; [|reflexivity].
      f_equal. injection E as E.
      apply dict_ext; [|exact E|intros k; now rewrite Hv].
      apply get_In in G'. rewrite Forall_forall in Hall. apply (Hall _ G'). }
  destruct c, c'. simpl in *. congruence.
Qed.

(** ** The second run on the document of the first *)

Lemma run_accepts (acts : list action) (conf conf' : ConfigParser.t) :
  for_each acts act conf = Ok conf' ->
  Forall (fun a => match a with
                   | SetOption _ _ v => accepted v
                   | EnsureSection _ => True
                   end) acts.
Proof.
  revert conf. induction acts as [|a acts IH]; intros conf H; [constructor|].
  simpl in H. apply bind_Ok in H. destruct H as (c & Hc & H).
  constructor; [|eauto].
  destruct a as [s|s k v]; [exact I|].
  simpl in Hc. unfold ConfigParser.set_option in Hc.
  apply bind_Ok in Hc. destruct Hc as (v' & Hv & _). unfold accepted.
  rewrite Hv. f_equal.
  destruct (String.eqb v ""); [congruence|now apply before_set_Ok].
Qed.

Lemma run_key_kept (acts : list action) (conf conf' : ConfigParser.t)
  (s k : string) :
  Forall (fun a => script_section (action_section a) = true) acts ->
  for_each acts act conf = Ok conf' ->
  In k (section_keys conf s) -> In k (section_keys conf' s).
Proof.
  intros Hs H Hin.
  apply In_section_keys in Hin. destruct Hin as (d & Hd & Hin).
  apply get_In_keys in Hin. destruct Hin as (v & Hv).
  pose proof (run_option_value _ _ _ s k Hs H) as E.
  unfold option_value at 2 in E. rewrite Hd, Hv in E.
  destruct (last_write acts s k); eapply option_value_In; exact E.
Qed.

(** What the actions of a run create and set is there when it ends. *)
Lemma run_present (acts : list action) (conf conf' : ConfigParser.t) :
  Forall (fun a => script_section (action_section a) = true) acts ->
  for_each acts act conf = Ok conf' ->
  Forall (fun a => match a with
                   | EnsureSection s => ConfigParser.has_section conf' s = true
                   | SetOption s k _ =>
                       In (ConfigParser.optionxform k) (section_keys conf' s)
                   end) acts.
Proof.
  intros Hs. revert conf.
  induction Hs as [|a acts Ha Hs IH]; intros conf H; [constructor|].
  simpl in H. apply bind_Ok in H. destruct H as (c & Hc & H).
  constructor; [|eauto].
  destruct a as [s|s k v]; simpl in Hc, Ha.
  - eapply run_section_kept; [exact Hs|exact H|].
    eapply ensure_section_has; eauto.
  - eapply run_key_kept; [exact Hs|exact H|].
    pose proof (act_option_value conf c (SetOption s k v) s
                  (ConfigParser.optionxform k) Ha Hc) as E.
    simpl in E. rewrite !String.eqb_refl in E. simpl in E.
    eapply option_value_In; exact E.
Qed.

(** Actions whose sections and options are there already go through and
    leave the shape as it is. *)
Lemma rerun_shape (acts : list action) (target y : ConfigParser.t) :
  Forall (fun a => script_section (action_section a) = true) acts ->
  Forall (fun a => match a with
                   | SetOption _ _ v => accepted v
                   | EnsureSection _ => True
                   end) acts ->
  Forall (fun a => match a with
                   | EnsureSection s => ConfigParser.has_section target s = true
                   | SetOption s k _ =>
                       In (ConfigParser.optionxform k) (section_keys target s)
                   end) acts ->
  shape y = shape target ->
  exists y', for_each acts act y = Ok y' /\ shape y' = shape target.
Proof.
  intros Hs. revert y.
  induction Hs as [|a acts Ha Hs IH]; intros y Hacc Hpre Hsh.
  - exists y. now split.
  - inversion Hacc as [|? ? Hacc1 Hacc']; subst.
    inversion Hpre as [|? ? Hpre1 Hpre']; subst.
    destruct a as [s|s k v]; cbn [for_each act].
    + rewrite has_section_shape, <- Hsh, <- has_section_shape in Hpre1.
      unfold ensure_section. rewrite Hpre1. cbn [bind]. now apply IH.
    + rewrite section_keys_shape, <- Hsh, <- section_keys_shape in Hpre1.
      destruct (In_section_keys _ _ _ Hpre1) as (d & Hd & _).
      destruct (set_option_succeeds y s k v d Ha Hacc1 Hd) as (y1 & Hy1).
      rewrite Hy1. cbn [bind]. apply IH; try assumption.
      rewrite <- Hsh. eapply set_option_same_shape; eauto.
Qed.

Lemma section_keys_sort (conf : ConfigParser.t) (s : string) :
  section_keys (sort_sections conf) s = section_keys conf s.
Proof. unfold section_keys. now rewrite get_sort_sections. Qed.

Lemma has_section_sort (conf : ConfigParser.t) (s : string) :
  ConfigParser.has_section (sort_sections conf) s
  = ConfigParser.has_section conf s.
Proof.
  unfold ConfigParser.has_section, mem. now rewrite get_sort_sections.
Qed.

Lemma option_value_sort (conf : ConfigParser.t) (s k : string) :
  option_value (sort_sections conf) s k = option_value conf s k.
Proof. unfold option_value. now rewrite get_sort_sections. Qed.

(** Carried out on the sorted document they produced, the actions of a run
    give that document back. *)
Lemma rerun (acts : list action) (conf c : ConfigParser.t) :
  Forall (fun a => script_section (action_section a) = true) acts ->
  for_each acts act conf = Ok c ->
  well_formed (sort_sections c) ->
  for_each acts act (sort_sections c) = Ok (sort_sections c).
Proof.
  intros Hs H Hwf.
  destruct (rerun_shape acts (sort_sections c) (sort_sections c) Hs) as (y & Hy & Hsh).
  - eapply run_accepts; eauto.
  - eapply Forall_impl; [|eapply run_present; eauto].
    intros [s|s k v]; [now rewrite has_section_sort|now rewrite section_keys_sort].
  - reflexivity.
  - rewrite Hy. f_equal. apply document_ext; [exact Hwf| |exact Hsh|].
    + eapply run_defaults; eauto.
    + intros s k.
      rewrite (run_option_value _ _ _ s k Hs Hy).
      rewrite option_value_sort.
      rewrite (run_option_value _ _ _ s k Hs H).
      now destruct (last_write acts s k).
Qed.

Lemma rebuild_dict {V : Type} (dflt : V) (d : dict V) :
  NoDup (keys d) ->
  map (fun k => (k, match get d k with Some v => v | None => dflt end)) (keys d)
  = d.
Proof.
  induction d as [|[k v] d IH]; [reflexivity|].
  intros Hnd. inversion Hnd as [|? ? Hout Hnd']; subst.
  cbn [keys map fst get]. rewrite String.eqb_refl. f_equal.
  rewrite <- (IH Hnd') at 2. apply map_ext_in. intros k' Hk'.
  destruct (String.eqb_spec k' k) as [->|_]; [contradiction|reflexivity].
Qed.

Lemma sort_sections_fixed (c : ConfigParser.t) :
  NoDup (keys (ConfigParser.sections c)) ->
  StronglySorted (key_le sections_key) (keys (ConfigParser.sections c)) ->
  sort_sections c = c.
Proof.
  intros Hnd Hsorted. unfold sort_sections.
  rewrite (sorted_fixed _ _ _ Hsorted).
  destruct c as [ds ss].
  cbn [ConfigParser.sections ConfigParser.defaults] in *. f_equal.
  exact (rebuild_dict [] ss Hnd).
Qed.

(** Sorting a sorted document changes nothing. *)
Lemma sort_sections_sorted (c : ConfigParser.t) :
  well_formed (sort_sections c) ->
  sort_sections (sort_sections c) = sort_sections c.
Proof.
  intros (_ & Hnd & _). apply sort_sections_fixed; [exact Hnd|].
  change (keys (ConfigParser.sections (sort_sections c)))
    with (ConfigParser.section_names (sort_sections c)).
  rewrite section_names_sort. apply sorted_sorted.
Qed.

(** ** The world of the second run *)

Lemma length_append (a b : string) :
  String.length (a ++ b) = String.length a + String.length b.
Proof. induction a as [|c a IH]; simpl; [reflexivity|now rewrite IH]. Qed.

Lemma path_join_suffix (a b : string) :
  startswith b "/" = false -> exists x, path_join a b = x ++ b.
Proof.
  intros H. unfold path_join. rewrite H.
  destruct (_ || _); [now exists a|].
  exists (a ++ "/"). now rewrite append_assoc.
Qed.

(** No file of the metadata directory is [setup.cfg]. *)
Lemma egg_info_path_other (dir name : string) :
  startswith name "/" = false -> 9 < String.length name ->
  path_join dir name <> "setup.cfg".
Proof.
  intros Hs Hlen E. destruct (path_join_suffix dir name Hs) as (x & Ex).
  rewrite Ex in E. apply (f_equal String.length) in E.
  rewrite length_append in E. simpl in E. lia.
Qed.

Lemma lookup_with_setup_cfg (w : World) (content path : string) :
  path <> "setup.cfg" ->
  path_lookup (with_setup_cfg w content) path = path_lookup w path.
Proof.
  intros H. simpl. destruct (String.eqb_spec path "setup.cfg"); [contradiction|].
  reflexivity.
Qed.

Lemma exists_with_setup_cfg (w : World) (content path : string) :
  path <> "setup.cfg" ->
  path_exists (with_setup_cfg w content) path = path_exists w path.
Proof. intros H. unfold path_exists. now rewrite lookup_with_setup_cfg. Qed.

Lemma read_config_with_setup_cfg (w : World) (content path : string) :
  path <> "setup.cfg" ->
  read_config (with_setup_cfg w content) path = read_config w path.
Proof. intros H. unfold read_config. now rewrite lookup_with_setup_cfg. Qed.

Lemma for_each_ext {A S : Type} (l : list A) (f g : S -> A -> outcome S) (st : S) :
  (forall st x, f st x = g st x) -> for_each l f st = for_each l g st.
Proof.
  intros H. revert st. induction l as [|x l IH]; intros st; simpl; [reflexivity|].
  rewrite H. destruct (g st x); simpl; auto.
Qed.

Lemma serialize_with_setup_cfg (w : World) (content : string) (h : handler)
  (value : pyval) :
  serialize (with_setup_cfg w content) h value = serialize w h value.
Proof. destruct h; reflexivity. Qed.

(** What was written to [setup.cfg] does not change what the run adds. *)
Lemma merge_with_setup_cfg (w : World) (content dir : string)
  (conf : ConfigParser.t) :
  merge (with_setup_cfg w content) dir conf = merge w dir conf.
Proof.
  assert (E1 : forall c, populate_metadata (with_setup_cfg w content) c
                         = populate_metadata w c).
  { intros c. unfold populate_metadata. apply for_each_ext. intros st x.
    now rewrite serialize_with_setup_cfg. }
  assert (E2 : forall c, populate_options (with_setup_cfg w content) dir c
                         = populate_options w dir c).
  { intros c. unfold populate_options.
    rewrite exists_with_setup_cfg; [reflexivity|].
    now apply egg_info_path_other; [reflexivity|simpl; lia]. }
  assert (E3 : forall c, populate_entry_points (with_setup_cfg w content) dir c
                         = populate_entry_points w dir c).
  { intros c. unfold populate_entry_points.
    assert (Hp : path_join dir "entry_points.txt" <> "setup.cfg")
      by (apply egg_info_path_other; [reflexivity|simpl; lia]).
    now rewrite exists_with_setup_cfg, read_config_with_setup_cfg. }
  assert (E4 : forall c, populate_requires (with_setup_cfg w content) dir c
                         = populate_requires w dir c).
  { intros c. unfold populate_requires.
    assert (Hp : path_join dir "requires.txt" <> "setup.cfg")
      by (apply egg_info_path_other; [reflexivity|simpl; lia]).
    now rewrite exists_with_setup_cfg, lookup_with_setup_cfg. }
  unfold merge.
  destruct (ensure_section conf "metadata") as [c1|]; cbn [bind]; [|reflexivity].
  destruct (ensure_section c1 "options") as [c2|]; cbn [bind]; [|reflexivity].
  rewrite E1. destruct (populate_metadata w c2) as [c3|]; cbn [bind]; [|reflexivity].
  rewrite E2. destruct (populate_options w dir c3) as [c4|]; cbn [bind];
    [|reflexivity].
  rewrite E3. destruct (populate_entry_points w dir c4) as [c5|]; cbn [bind];
    [|reflexivity].
  now rewrite E4.
Qed.

(** Merging into the document a merge returned gives it back, when that
    document has no name twice. *)
Lemma merge_again (w : World) (dir : string) (conf conf1 : ConfigParser.t) :
  merge w dir conf = Ok conf1 -> well_formed conf1 ->
  merge w dir conf1 = Ok conf1.
Proof.
  intros Hm Hwf. apply merge_plan in Hm. destruct Hm as (acts & c & Hp & Hf & ->).
  apply merge_plan. exists acts, (sort_sections c).
  split; [exact Hp|]. split.
  - apply rerun with (conf := conf); [|exact Hf|exact Hwf].
    eapply plan_script_sections; eauto.
  - symmetry. now apply sort_sections_sorted.
Qed.

Lemma well_formed_shape (a b : ConfigParser.t) :
  shape a = shape b ->
  ConfigParser.defaults a = ConfigParser.defaults b ->
  well_formed a -> well_formed b.
Proof.
  intros Hsh Hd (H1 & H2 & H3). unfold well_formed, dicts_distinct.
  rewrite <- Hd. split; [exact H1|]. split.
  - rewrite <- keys_shape, <- Hsh, keys_shape. exact H2.
  - assert (F : forall c,
               Forall (fun sd => NoDup (keys (snd sd))) (ConfigParser.sections c)
               <-> Forall (fun sk => NoDup (snd sk)) (shape c)).
    { intros c. unfold shape. rewrite Forall_map. reflexivity. }
    apply F. rewrite <- Hsh. now apply F.
Qed.

Lemma option_value_absent (conf : ConfigParser.t) (s k : string) :
  ~ In k (section_keys conf s) -> option_value conf s k = None.
Proof.
  unfold option_value, section_keys.
  destruct (get (ConfigParser.sections conf) s) as [d|]; [|reflexivity].
  apply get_None_keys.
Qed.

(** Two documents of the same shape agree on the options of a class as
    soon as they agree on those of the class that the shape lists. *)
Lemma agree_by_shape (conf1 conf2 : ConfigParser.t)
  (P : string -> string -> Prop) :
  shape conf2 = shape conf1 ->
  Forall (fun sk =>
            Forall (fun k => P (fst sk) k ->
                             option_value conf2 (fst sk) k
                             = option_value conf1 (fst sk) k)
                   (snd sk))
         (shape conf1) ->
  forall s k, P s k -> option_value conf2 s k = option_value conf1 s k.
Proof.
  intros Hsh HF s k HP.
  destruct (in_dec string_dec k (section_keys conf1 s)) as [Hin|Hout].
  - destruct (In_section_keys _ _ _ Hin) as (d & Hd & Hk).
    assert (Hs : get (shape conf1) s = Some (keys d))
      by (rewrite get_shape, Hd; reflexivity).
    apply get_In in Hs. rewrite Forall_forall in HF.
    specialize (HF _ Hs). cbn [fst snd] in HF.
    rewrite Forall_forall in HF. now apply HF.
  - rewrite (option_value_absent conf1 s k Hout).
    apply option_value_absent.
    rewrite section_keys_shape, Hsh, <- section_keys_shape. exact Hout.
Qed.

(** Merging into a document that has the shape and the default section of
    the one a merge returned, and its values for the options the run does
    not set, gives the document of that merge. *)
Lemma merge_reread (w : World) (dir : string)
  (conf0 conf1 conf2 : ConfigParser.t) :
  merge w dir conf0 = Ok conf1 ->
  well_formed conf1 ->
  ConfigParser.defaults conf2 = ConfigParser.defaults conf1 ->
  shape conf2 = shape conf1 ->
  (forall acts s k,
      plan w dir = Ok acts -> touches acts s k = false ->
      option_value conf2 s k = option_value conf1 s k) ->
  merge w dir conf2 = Ok conf1.
Proof.
  intros Hm Hwf Hd Hsh Hv.
  apply merge_plan in Hm. destruct Hm as (acts & c & Hp & Hf & ->).
  pose proof (plan_script_sections _ _ _ Hp) as Hs.
  destruct (rerun_shape acts (sort_sections c) conf2 Hs) as (y & Hy & Hysh).
  - eapply run_accepts; eauto.
  - eapply Forall_impl; [|eapply run_present; eauto].
    intros [s|s k v]; [now rewrite has_section_sort|now rewrite section_keys_sort].
  - exact Hsh.
  - assert (E : y = sort_sections c).
    { apply document_ext; [exact Hwf| |exact Hysh|].
      - rewrite (run_defaults _ _ _ Hs Hy). exact Hd.
      - intros s k. rewrite (run_option_value _ _ _ s k Hs Hy).
        destruct (last_write acts s k) as [v|] eqn:L.
        + rewrite option_value_sort, (run_option_value _ _ _ s k Hs Hf), L.
          reflexivity.
        + apply (Hv acts s k Hp). now apply last_write_touches. }
    apply merge_plan. exists acts, y. split; [exact Hp|]. split; [exact Hy|].
    rewrite E. symmetry. now apply sort_sections_sorted.
Qed.

(** C9, as the code has it.  A second run in the same world, with the text
    the first run wrote in [setup.cfg], writes the same text again when that
    text reads back with the default section, the sections and the option
    names of the document the first run had merged, in their order, and with
    its values for the options no action of the run sets: every action of
    the run then finds its section and its option in place and sets the
    value it set before, and the sections are in order already.  The values
    of the options the run sets need not read back: an [install_requires]
    that holds the line separator alone, for a [requires.txt] with extras
    only, reads back empty, and so does the blank at the end of a summary;
    the second run sets them again. *)
Theorem C9_second_run :
  (forall (w : World) (dir : string) (conf0 conf1 conf2 : ConfigParser.t),
      glob_egg_info w = [dir] ->
      path_lookup w "setup.cfg" <> Some Directory ->
      read_config w "setup.cfg" = Ok conf0 ->
      merge w dir conf0 = Ok conf1 ->
      ConfigParser.read (ConfigParser.write conf1) = Ok conf2 ->
      ConfigParser.defaults conf2 = ConfigParser.defaults conf1 ->
      shape conf2 = shape conf1 ->
      (forall acts s k,
          plan w dir = Ok acts -> touches acts s k = false ->
          option_value conf2 s k = option_value conf1 s k) ->
      main w = Done (ConfigParser.write conf1)
      /\ main (with_setup_cfg w (ConfigParser.write conf1))
         = Done (ConfigParser.write conf1))
  /\ (forall (w : World) (dir : string) (conf0 conf1 : ConfigParser.t),
         glob_egg_info w = [dir] ->
         path_lookup w "setup.cfg" <> Some Directory ->
         read_config w "setup.cfg" = Ok conf0 ->
         merge w dir conf0 = Ok conf1 ->
         ConfigParser.read (ConfigParser.write conf1) = Ok conf1 ->
         main w = Done (ConfigParser.write conf1)
         /\ main (with_setup_cfg w (ConfigParser.write conf1))
            = Done (ConfigParser.write conf1))
  /\ (exists out,
         main sections_world = Done out
         /\ main (with_setup_cfg sections_world out) = Done out)
  /\ (exists conf1 conf2 out,
         merge only_extras_world "foo.egg-info" ConfigParser.empty = Ok conf1
         /\ ConfigParser.read (ConfigParser.write conf1) = Ok conf2
         /\ option_value conf1 "options" "install_requires" = Some linesep
         /\ option_value conf2 "options" "install_requires" = Some ""
         /\ main only_extras_world = Done out
         /\ main (with_setup_cfg only_extras_world out) = Done out)
  /\ (exists conf1 conf2 out,
         merge trailing_blank_world "foo.egg-info" ConfigParser.empty = Ok conf1
         /\ ConfigParser.read (ConfigParser.write conf1) = Ok conf2
         /\ option_value conf1 "metadata" "description" = Some "fun "
         /\ option_value conf2 "metadata" "description" = Some "fun"
         /\ main trailing_blank_world = Done out
         /\ main (with_setup_cfg trailing_blank_world out) = Done out).
Proof.
  assert (G : forall (w : World) (dir : string)
                     (conf0 conf1 conf2 : ConfigParser.t),
             glob_egg_info w = [dir] ->
             path_lookup w "setup.cfg" <> Some Directory ->
             read_config w "setup.cfg" = Ok conf0 ->
             merge w dir conf0 = Ok conf1 ->
             ConfigParser.read (ConfigParser.write conf1) = Ok conf2 ->
             ConfigParser.defaults conf2 = ConfigParser.defaults conf1 ->
             shape conf2 = shape conf1 ->
             (forall acts s k,
                 plan w dir = Ok acts -> touches acts s k = false ->
                 option_value conf2 s k = option_value conf1 s k) ->
             main w = Done (ConfigParser.write conf1)
             /\ main (with_setup_cfg w (ConfigParser.write conf1))
                = Done (ConfigParser.write conf1)).
  { intros w dir conf0 conf1 conf2 Hg Hdir Hr Hm Hrt Hd Hsh Hv.
    assert (Hwrite : forall w', path_lookup w' "setup.cfg" <> Some Directory ->
                       write_config w' conf1 = Ok (ConfigParser.write conf1)).
    { intros w' H. unfold write_config.
      destruct (path_lookup w' "setup.cfg") as [[c|]|]; congruence. }
    split.
    - unfold main. rewrite Hg. cbn [List.length Nat.eqb negb hd].
      unfold translate. rewrite Hr. cbn [bind]. rewrite Hm. cbn [bind].
      now rewrite Hwrite.
    - unfold main. cbn [with_setup_cfg glob_egg_info]. rewrite Hg.
      cbn [List.length Nat.eqb negb hd].
      unfold translate.
      assert (E : read_config (with_setup_cfg w (ConfigParser.write conf1))
                    "setup.cfg" = Ok conf2) by exact Hrt.
      rewrite E. cbn [bind]. rewrite merge_with_setup_cfg.
      assert (Hwf : well_formed conf1).
      { apply (well_formed_shape conf2 conf1 Hsh Hd).
        exact (proj1 (read_well_formed _ _ Hrt)). }
      rewrite (merge_reread w dir conf0 conf1 conf2 Hm Hwf Hd Hsh Hv).
      cbn [bind]. rewrite Hwrite; [reflexivity|]. simpl. discriminate. }
  split; [exact G|]. split.
  - intros w dir conf0 conf1 Hg Hdir Hr Hm Hrt.
    apply (G w dir conf0 conf1 conf1); auto.
  - split; [eexists; split; vm_compute; reflexivity|].
    split; do 3 eexists; repeat (split; [vm_compute; reflexivity|]);
      vm_compute; reflexivity.
Qed.

Lemma C9_second_run_witness :
  exists conf1,
    merge only_extras_world "foo.egg-info" ConfigParser.empty = Ok conf1
    /\ ConfigParser.read (ConfigParser.write conf1) <> Ok conf1
    /\ main (with_setup_cfg only_extras_world (ConfigParser.write conf1))
       = Done (ConfigParser.write conf1).
Proof.
  pose (c1 := match merge only_extras_world "foo.egg-info" ConfigParser.empty
              with Ok c => c | Raise _ => ConfigParser.empty end).
  pose (c2 := match ConfigParser.read (ConfigParser.write c1)
              with Ok c => c | Raise _ => ConfigParser.empty end).
  exists c1. split; [vm_compute; reflexivity|].
  split; [vm_compute; discriminate|].
  refine (proj2 (proj1 C9_second_run only_extras_world "foo.egg-info"
                   ConfigParser.empty c1 c2 _ _ _ _ _ _ _ _)).
  - reflexivity.
  - vm_compute. discriminate.
  - reflexivity.
  - vm_compute. reflexivity.
  - vm_compute. reflexivity.
  - vm_compute. reflexivity.
  - vm_compute. reflexivity.
  - intros acts s k Hp.
    assert (Ea : Ok acts
                 = Ok [EnsureSection "metadata"; EnsureSection "options";
                       SetOption "metadata" "name" "foo";
                       SetOption "metadata" "version" "1.0";
                       SetOption "options" "zip_safe" "True";
                       SetOption "options" "packages" "find:";
                       SetOption "options" "include_package_data" "True";
                       SetOption "options" "install_requires" LF;
                       EnsureSection "options.extras_require";
                       SetOption "options.extras_require" "test" "pytest"])
      by (rewrite <- Hp; vm_compute; reflexivity).
    apply Ok_inj in Ea. subst acts. revert s k.
    apply agree_by_shape; [vm_compute; reflexivity|].
    vm_compute.
    repeat constructor; intros Ht; try reflexivity; discriminate Ht.
Defined.

(** C9 as it is worded fails when a written option name does not read back:
    the extra [test:python_version<'3'] of [requires.txt] is written as an
    option name with a colon in it, the second run reads that line as the
    option [test], and it adds the extra once more. *)
Lemma C9_counterexample :
  main marker_world
  = Done (text ["[metadata]"; "name = foo"; "version = 1.0"; "";
                "[options]"; "zip_safe = True"; "packages = find:";
                "include_package_data = True";
                "install_requires = "; TAB ++ "a"; "";
                "[options.extras_require]";
                "test:python_version<'3' = mock"; ""])
  /\ main (with_setup_cfg marker_world
             (text ["[metadata]"; "name = foo"; "version = 1.0"; "";
                    "[options]"; "zip_safe = True"; "packages = find:";
                    "include_package_data = True";
                    "install_requires = "; TAB ++ "a"; "";
                    "[options.extras_require]";
                    "test:python_version<'3' = mock"; ""]))
     = Done (text ["[metadata]"; "name = foo"; "version = 1.0"; "";
                   "[options]"; "zip_safe = True"; "packages = find:";
                   "include_package_data = True";
                   "install_requires = "; TAB ++ "a"; "";
                   "[options.extras_require]";
                   "test = python_version<'3' = mock";
                   "test:python_version<'3' = mock"; ""]).
Proof. split; vm_compute; reflexivity. Qed.


(* ================================================================== *)
(** * Further properties of the run *)
(* ================================================================== *)

(** ** The actions of the plan, section by section *)

Lemma last_write_app (l1 l2 : list action) (s k : string) :
  last_write (l1 ++ l2) s k
  = match last_write l2 s k with
    | Some v => Some v
    | None => last_write l1 s k
    end.
Proof.
  induction l1 as [|a l1 IH]; simpl.
  - now destruct (last_write l2 s k).
  - rewrite IH. now destruct (last_write l2 s k).
Qed.

Lemma last_write_section (acts : list action) (S s k : string) :
  Forall (fun a => action_section a = S) acts -> S <> s ->
  last_write acts s k = None.
Proof.
  intros H Hne. apply last_write_other_sections.
  revert H. apply Forall_impl. intros a ->. exact Hne.
Qed.

Lemma plan_Ok (w : World) (dir : string) (acts : list action) :
  plan w dir = Ok acts ->
  exists ep rq,
    entry_points_actions w dir = Ok ep
    /\ requires_actions w dir = Ok rq
    /\ acts = ([EnsureSection "metadata"; EnsureSection "options"]
               ++ metadata_actions w ++ options_actions w dir ++ ep ++ rq)%list.
Proof.
  unfold plan. intros H.
  apply bind_Ok in H. destruct H as (ep & Hep & H).
  apply bind_Ok in H. destruct H as (rq & Hrq & H).
  apply Ok_inj in H. eauto.
Qed.

Lemma requires_actions_last_write (w : World) (dir : string)
  (rq : list action) (s k : string) :
  requires_actions w dir = Ok rq ->
  s <> "options.extras_require" ->
  (s = "options" -> k <> "install_requires") ->
  last_write rq s k = None.
Proof.
  unfold requires_actions. intros H Hs Hk.
  destruct (path_exists w _); [|apply Ok_inj in H; now subst].
  destruct (path_lookup w _) as [[content|]|]; try discriminate.
  apply Ok_inj in H. subst rq. unfold set_requires_actions.
  cbn [last_write]. rewrite last_write_other_sections.
  - cbn [sets_option].
    change (ConfigParser.optionxform "install_requires")
      with "install_requires".
    destruct (String.eqb_spec "options" s) as [<-|_]; [|reflexivity].
    destruct (String.eqb_spec "install_requires" k) as [<-|_]; [|reflexivity].
    now destruct Hk.
  - destruct (1 <? _); [|constructor].
    constructor; [simpl; congruence|].
    apply Forall_map, Forall_forall. intros x _. simpl. congruence.
Qed.

(** What the plan does to [[metadata]] is what the table does. *)
Lemma plan_last_write_metadata (w : World) (dir : string) (acts : list action)
  (k : string) :
  plan w dir = Ok acts ->
  last_write acts "metadata" k = last_write (metadata_actions w) "metadata" k.
Proof.
  intros H. destruct (plan_Ok _ _ _ H) as (ep & rq & Hep & Hrq & ->).
  rewrite !last_write_app.
  rewrite (requires_actions_last_write _ _ _ "metadata" k Hrq)
    by (discriminate || congruence).
  rewrite (last_write_section ep "options.entry_points")
    by (discriminate || eapply entry_points_actions_sections; eauto).
  rewrite (last_write_section (options_actions w dir) "options")
    by (discriminate || apply options_actions_sections).
  now destruct (last_write (metadata_actions w) "metadata" k).
Qed.

(** What the plan does to an option of [[options]] other than
    [install_requires] is what lines 111-115 do. *)
Lemma plan_last_write_options (w : World) (dir : string) (acts : list action)
  (k : string) :
  plan w dir = Ok acts -> k <> "install_requires" ->
  last_write acts "options" k = last_write (options_actions w dir) "options" k.
Proof.
  intros H Hk. destruct (plan_Ok _ _ _ H) as (ep & rq & Hep & Hrq & ->).
  rewrite !last_write_app.
  rewrite (requires_actions_last_write _ _ _ "options" k Hrq)
    by (discriminate || congruence).
  rewrite (last_write_section ep "options.entry_points")
    by (discriminate || eapply entry_points_actions_sections; eauto).
  destruct (last_write (options_actions w dir) "options" k); [reflexivity|].
  rewrite (last_write_section (metadata_actions w) "metadata")
    by (discriminate || apply metadata_actions_sections).
  reflexivity.
Qed.

(** The value of an option after a merge: what the last action on it set,
    or what was read. *)
Lemma merge_option_value (w : World) (dir : string)
  (conf conf' : ConfigParser.t) (s k : string) :
  merge w dir conf = Ok conf' ->
  exists acts,
    plan w dir = Ok acts
    /\ option_value conf' s k
       = match last_write acts s k with
         | Some v => Some v
         | None => option_value conf s k
         end.
Proof.
  intros H. apply merge_plan in H. destruct H as (acts & c & Hp & Hf & ->).
  exists acts. split; [exact Hp|].
  rewrite option_value_sort.
  apply run_option_value; [|exact Hf]. eapply plan_script_sections; eauto.
Qed.

Lemma run_section_frame (acts : list action) (conf conf' : ConfigParser.t)
  (s : string) :
  Forall (fun a => script_section (action_section a) = true) acts ->
  Forall (fun a => action_section a <> s) acts ->
  for_each acts act conf = Ok conf' ->
  get (ConfigParser.sections conf') s = get (ConfigParser.sections conf) s.
Proof.
  intros Hs. revert conf.
  induction Hs as [|a acts Ha _ IH]; intros conf Hne H; simpl in H.
  - now injection H as <-.
  - inversion Hne as [|? ? Hne1 Hne']; subst.
    apply bind_Ok in H. destruct H as (c & Hc & H).
    rewrite (IH _ Hne' H). eapply act_other_section; eauto.
Qed.

(** ** The groups of [requires.txt] *)

Lemma requires_line_invariant (L : list string) (line : string)
  (st : string * dict (list string)) :
  In line L ->
  NoDup (keys (snd st)) ->
  Forall (fun gl => snd gl <> []
                    /\ Forall (fun r => r <> ""
                                        /\ exists l, In l L /\ r = strip l)
                              (snd gl)) (snd st) ->
  NoDup (keys (snd (requires_line st line)))
  /\ Forall (fun gl => snd gl <> []
                       /\ Forall (fun r => r <> ""
                                           /\ exists l, In l L /\ r = strip l)
                                 (snd gl)) (snd (requires_line st line)).
Proof.
  destruct st as [cur requires]. intros Hin Hnd Hall. unfold requires_line.
  destruct (startswith line "["); [now split|].
  destruct (String.eqb_spec (strip line) "") as [E|Hne]; cbn [negb snd];
    [now split|].
  split; [now apply NoDup_keys_set|].
  apply Forall_set; [exact Hall|]. cbn [snd]. split.
  - destruct (group requires cur); discriminate.
  - apply Forall_app. split.
    + unfold group. destruct (get requires cur) as [l|] eqn:G; [|constructor].
      apply get_In in G. rewrite Forall_forall in Hall.
      exact (proj2 (Hall _ G)).
    + constructor; [|constructor]. split; [exact Hne|eauto].
Qed.

Lemma parse_requires_invariant (L lines : list string)
  (st : string * dict (list string)) :
  (forall line, In line lines -> In line L) ->
  NoDup (keys (snd st)) ->
  Forall (fun gl => snd gl <> []
                    /\ Forall (fun r => r <> ""
                                        /\ exists l, In l L /\ r = strip l)
                              (snd gl)) (snd st) ->
  NoDup (keys (snd (fold_left requires_line lines st)))
  /\ Forall (fun gl => snd gl <> []
                       /\ Forall (fun r => r <> ""
                                           /\ exists l, In l L /\ r = strip l)
                                 (snd gl))
            (snd (fold_left requires_line lines st)).
Proof.
  revert st. induction lines as [|line lines IH]; intros st Hsub Hnd Hall.
  - now split.
  - cbn [fold_left].
    destruct (requires_line_invariant L line st (Hsub _ (or_introl eq_refl))
                Hnd Hall) as [Hnd' Hall'].
    apply IH; [|exact Hnd'|exact Hall'].
    intros l Hl. apply Hsub. now right.
Qed.

(** X1.  The dictionary the loop of lines 147-153 builds has no group
    twice and no empty group: a header that no requirement follows creates
    nothing.  Every requirement in it is the stripped form of a line of the
    file and is not empty. *)
Theorem X1_requirement_groups (lines : list string) :
  NoDup (keys (parse_requires lines))
  /\ Forall (fun gl => snd gl <> []
                       /\ Forall (fun r => r <> ""
                                           /\ exists line,
                                               In line lines /\ r = strip line)
                                 (snd gl))
            (parse_requires lines).
Proof.
  unfold parse_requires.
  apply (parse_requires_invariant lines lines ("default", [])); auto;
    constructor.
Qed.

Lemma parse_requires_NoDup (lines : list string) :
  NoDup (keys (parse_requires lines)).
Proof.
  unfold parse_requires.
  apply (parse_requires_invariant lines lines ("default", [])); auto;
    constructor.
Qed.

(* ================================================================== *)
(** * The check on the metadata directories *)
(* ================================================================== *)

(** C6, as the code has it.  [main] leaves through [sys.exit] exactly when
    [glob] does not return one name, be it none or several; the status is
    then 1 and the line printed before names what was found.  No other path
    of the script calls [sys.exit]; the status of the process is not zero all
    the same when, with one name, an exception nobody catches ends the run.
    With one name the run goes on with that directory: when it ends well the
    file it writes is the merge of what [setup.cfg] held with the metadata of
    that directory, and the line of [zip_safe] in it tells whether that
    directory holds the marker file. *)
Theorem C6_directory_count (w : World) :
  ((exists status printed, main w = Exit status printed)
   <-> List.length (glob_egg_info w) <> 1)
  /\ (List.length (glob_egg_info w) <> 1 ->
      main w = Exit 1 (diagnostic (glob_egg_info w))
      /\ exit_status (main w) <> 0)
  /\ (forall dir,
         glob_egg_info w = [dir] ->
         main w = match translate w dir with
                  | Ok setup_cfg => Done setup_cfg
                  | Raise e => Uncaught e
                  end)
  /\ main (mk_world (path_lookup w) [] (dist_attr w) (dist_requires_python w))
     = Exit 1 ("Expected only one .egg-info directory, got []" ++ LF)
  /\ main two_dirs_world
     = Exit 1 ("Expected only one .egg-info directory, got "
               ++ "['a.egg-info', 'b.egg-info']" ++ LF)
  /\ (exit_status (main w) <> 0
      <-> List.length (glob_egg_info w) <> 1
          \/ exists dir e,
               glob_egg_info w = [dir] /\ translate w dir = Raise e)
  /\ (forall dir out,
         glob_egg_info w = [dir] ->
         main w = Done out ->
         exists conf conf',
           read_config w "setup.cfg" = Ok conf
           /\ merge w dir conf = Ok conf'
           /\ out = ConfigParser.write conf'
           /\ option_value conf' "options" "zip_safe"
              = Some (str_bool
                        (negb (path_exists w (path_join dir "not-zip-safe"))))
           /\ exists before after,
                out = before
                      ++ ("zip_safe = "
                          ++ str_bool
                               (negb (path_exists w
                                        (path_join dir "not-zip-safe")))
                          ++ LF)
                      ++ after).
Proof.
  assert (Hexit : List.length (glob_egg_info w) <> 1 ->
                  main w = Exit 1 (diagnostic (glob_egg_info w))).
  { intros H. unfold main.
    destruct (Nat.eqb_spec (List.length (glob_egg_info w)) 1); [contradiction|].
    reflexivity. }
  assert (Hone : forall dir,
             glob_egg_info w = [dir] ->
             main w = match translate w dir with
                      | Ok setup_cfg => Done setup_cfg
                      | Raise e => Uncaught e
                      end).
  { intros dir H. unfold main. rewrite H. reflexivity. }
  split; [|split; [|split; [exact Hone|split; [reflexivity|split;
    [reflexivity|split]]]]].
  - split.
    + intros (status & printed & H) Hlen.
      destruct (glob_egg_info w) as [|dir [|dir' dirs]] eqn:E;
        try discriminate Hlen.
      rewrite (Hone dir eq_refl) in H.
      destruct (translate w dir); discriminate H.
    + intros H. rewrite (Hexit H). eauto.
  - intros H. rewrite (Hexit H). split; [reflexivity|discriminate].
  - split.
    + intros Hst.
      destruct (glob_egg_info w) as [|dir [|dir' dirs]] eqn:E;
        [left; discriminate| |left; discriminate].
      right. rewrite (Hone dir eq_refl) in Hst.
      destruct (translate w dir) as [out|e] eqn:Ht;
        [exfalso; apply Hst; reflexivity|].
      exists dir, e. now split.
    + intros [H|(dir & e & Hg & Ht)].
      * rewrite (Hexit H). discriminate.
      * rewrite (Hone dir Hg), Ht. discriminate.
  - intros dir out Hg H.
    destruct (main_Done _ _ H) as (dir' & conf & conf' & Hg' & Hr & Hm & ->).
    assert (dir' = dir) as -> by congruence.
    exists conf, conf'. repeat (split; [assumption || reflexivity|]).
    assert (Hz : option_value conf' "options" "zip_safe"
                 = Some (str_bool
                           (negb (path_exists w (path_join dir "not-zip-safe"))))).
    { destruct (merge_option_value _ _ _ _ "options" "zip_safe" Hm)
        as (acts & Hp & ->).
      rewrite (plan_last_write_options _ _ _ _ Hp) by discriminate.
      unfold options_actions.
      destruct (dist_requires_python w); reflexivity. }
    split; [exact Hz|].
    destruct (write_contains_option _ _ _ _ Hz) as (b & a & E).
    exists b, a. rewrite E.
    destruct (path_exists w (path_join dir "not-zip-safe")); reflexivity.
Qed.

Lemma C6_directory_count_witness :
  main two_dirs_world = Exit 1 (diagnostic (glob_egg_info two_dirs_world))
  /\ exit_status (main two_dirs_world) <> 0.
Proof.
  apply (proj1 (proj2 (C6_directory_count two_dirs_world))).
  simpl. discriminate.
Defined.

(** C6 as it is worded fails from right to left: with exactly one metadata
    directory the run can still end with a status that is not zero and a
    traceback for a diagnostic.  The summary [100% fun] is refused by the
    parser, nobody catches the exception, and [sys.exit] was not called. *)
Lemma C6_counterexample :
  List.length (glob_egg_info percent_world) = 1
  /\ main percent_world = Uncaught ValueError
  /\ exit_status (main percent_world) <> 0
  /\ (forall status printed, main percent_world <> Exit status printed).
Proof.
  assert (E : main percent_world = Uncaught ValueError)
    by (vm_compute; reflexivity).
  split; [reflexivity|]. split; [exact E|]. rewrite E.
  split; [discriminate|]. intros status printed. discriminate.
Qed.

(* ================================================================== *)
(** * What a merge leaves in the document *)
(* ================================================================== *)

(** X2.  After a merge the sections [[metadata]] and [[options]] exist,
    whatever the document held before (lines 95-99). *)
Theorem X2_required_sections (w : World) (dir : string)
  (conf conf' : ConfigParser.t) :
  merge w dir conf = Ok conf' ->
  ConfigParser.has_section conf' "metadata" = true
  /\ ConfigParser.has_section conf' "options" = true.
Proof.
  intros H. apply merge_plan in H. destruct H as (acts & c & Hp & Hf & ->).
  pose proof (run_present _ _ _ (plan_script_sections _ _ _ Hp) Hf) as Hpre.
  destruct (plan_Ok _ _ _ Hp) as (ep & rq & _ & _ & ->).
  rewrite Forall_forall in Hpre. rewrite !has_section_sort. split.
  - apply (Hpre (EnsureSection "metadata")). now left.
  - apply (Hpre (EnsureSection "options")). right. now left.
Qed.

Lemma X2_required_sections_witness :
  exists conf',
    merge full_world "foo.egg-info" ConfigParser.empty = Ok conf'
    /\ ConfigParser.has_section conf' "metadata" = true
    /\ ConfigParser.has_section conf' "options" = true.
Proof.
  eexists. split; [vm_compute; reflexivity|].
  apply (X2_required_sections full_world "foo.egg-info" ConfigParser.empty).
  vm_compute. reflexivity.
Defined.

(** X3.  After a merge [[options]] holds [zip_safe], which is [False]
    exactly when the marker file [not-zip-safe] is in the metadata
    directory, [packages = find:] and [include_package_data = True],
    whatever values these options had before (lines 111-113). *)
Theorem X3_fixed_options (w : World) (dir : string)
  (conf conf' : ConfigParser.t) :
  merge w dir conf = Ok conf' ->
  option_value conf' "options" "zip_safe"
  = Some (if path_exists w (path_join dir "not-zip-safe")
          then "False" else "True")
  /\ option_value conf' "options" "packages" = Some "find:"
  /\ option_value conf' "options" "include_package_data" = Some "True".
Proof.
  intros H. repeat split.
  - destruct (merge_option_value _ _ _ _ "options" "zip_safe" H)
      as (acts & Hp & ->).
    rewrite (plan_last_write_options _ _ _ _ Hp) by discriminate.
    unfold options_actions.
    destruct (dist_requires_python w), (path_exists w _); reflexivity.
  - destruct (merge_option_value _ _ _ _ "options" "packages" H)
      as (acts & Hp & ->).
    rewrite (plan_last_write_options _ _ _ _ Hp) by discriminate.
    unfold options_actions. destruct (dist_requires_python w); reflexivity.
  - destruct (merge_option_value _ _ _ _ "options" "include_package_data" H)
      as (acts & Hp & ->).
    rewrite (plan_last_write_options _ _ _ _ Hp) by discriminate.
    unfold options_actions. destruct (dist_requires_python w); reflexivity.
Qed.

Lemma X3_fixed_options_witness :
  read_config full_world "setup.cfg" = Ok full_conf
  /\ option_value full_conf "options" "zip_safe" = Some "maybe"
  /\ exists conf',
      merge full_world "foo.egg-info" full_conf = Ok conf'
      /\ option_value conf' "options" "zip_safe" = Some "False".
Proof.
  split; [vm_compute; reflexivity|]. split; [reflexivity|].
  eexists. split; [vm_compute; reflexivity|].
  refine (proj1 (X3_fixed_options full_world "foo.egg-info" full_conf _ _)).
  vm_compute. reflexivity.
Defined.

(** X4.  After a merge [python_requires] of [[options]] is the constraint
    of the metadata when there is one; when there is none the option is as
    it was read, set or not (lines 114-115). *)
Theorem X4_python_requires (w : World) (dir : string)
  (conf conf' : ConfigParser.t) :
  merge w dir conf = Ok conf' ->
  option_value conf' "options" "python_requires"
  = match dist_requires_python w with
    | Some requires_python => Some requires_python
    | None => option_value conf "options" "python_requires"
    end.
Proof.
  intros H.
  destruct (merge_option_value _ _ _ _ "options" "python_requires" H)
    as (acts & Hp & ->).
  rewrite (plan_last_write_options _ _ _ _ Hp) by discriminate.
  unfold options_actions. destruct (dist_requires_python w); reflexivity.
Qed.

Lemma X4_python_requires_witness :
  exists conf',
    merge full_world "foo.egg-info" ConfigParser.empty = Ok conf'
    /\ option_value conf' "options" "python_requires" = Some ">=3.6".
Proof.
  eexists. split; [vm_compute; reflexivity|].
  apply (X4_python_requires full_world "foo.egg-info" ConfigParser.empty).
  vm_compute. reflexivity.
Defined.


(** ** The fields of the table *)

Lemma table_names_stored (kh : string * handler) :
  In kh METADATA_KEYS ->
  ConfigParser.optionxform (setup_cfg_name (snd kh)) = setup_cfg_name (snd kh).
Proof.
  intros H. simpl in H.
  repeat (destruct H as [<-|H]; [reflexivity|]). contradiction.
Qed.

Lemma last_write_fields_Some (w : World) (l : list (string * handler))
  (n v : string) :
  last_write
    (flat_map
       (fun kh =>
          match serialize w (snd kh) (dist_attr w (fst kh)) with
          | Some translated =>
              [SetOption "metadata" (setup_cfg_name (snd kh)) translated]
          | None => []
          end) l) "metadata" n = Some v ->
  exists kh, In kh l
             /\ serialize w (snd kh) (dist_attr w (fst kh)) = Some v
             /\ ConfigParser.optionxform (setup_cfg_name (snd kh)) = n.
Proof.
  induction l as [|kh l IH]; cbn [flat_map]; [discriminate|].
  rewrite last_write_app.
  destruct (last_write (flat_map _ l) "metadata" n) as [v'|] eqn:E.
  - intros H. assert (v' = v) by congruence. subst v'.
    destruct (IH eq_refl) as (kh' & Hin & Hs & Hn). exists kh'.
    split; [now right|]. now split.
  - intros H. exists kh.
    destruct (serialize w (snd kh) (dist_attr w (fst kh))) as [t|];
      [|discriminate].
    cbn [last_write sets_option] in H. rewrite String.eqb_refl in H.
    cbn [andb] in H.
    destruct (String.eqb_spec (ConfigParser.optionxform (setup_cfg_name (snd kh)))
                n) as [En|]; [|discriminate].
    injection H as <-. split; [now left|]. now split.
Qed.

Lemma last_write_field (w : World) (l : list (string * handler))
  (key : string) (h : handler) (v : string) :
  In (key, h) l ->
  serialize w h (dist_attr w key) = Some v ->
  ConfigParser.optionxform (setup_cfg_name h) = setup_cfg_name h ->
  (forall kh', In kh' l ->
               ConfigParser.optionxform (setup_cfg_name (snd kh'))
               = setup_cfg_name h -> kh' = (key, h)) ->
  last_write
    (flat_map
       (fun kh =>
          match serialize w (snd kh) (dist_attr w (fst kh)) with
          | Some translated =>
              [SetOption "metadata" (setup_cfg_name (snd kh)) translated]
          | None => []
          end) l) "metadata" (setup_cfg_name h) = Some v.
Proof.
  induction l as [|kh l IH]; [contradiction|].
  intros Hin Hs Hst Huniq. cbn [flat_map]. rewrite last_write_app.
  destruct (last_write (flat_map _ l) "metadata" (setup_cfg_name h))
    as [v'|] eqn:E.
  - apply last_write_fields_Some in E. destruct E as (kh' & Hin' & Hs' & Hn).
    apply Huniq in Hn; [|now right]. subst kh'. cbn [fst snd] in Hs'. congruence.
  - destruct Hin as [->|Hin].
    + cbn [fst snd]. rewrite Hs. cbn [last_write sets_option].
      now rewrite Hst, !String.eqb_refl.
    + exfalso. assert (E' : @None string = Some v); [|discriminate E'].
      apply IH; try assumption.
      intros kh' Hkh'. apply Huniq. now right.
Qed.

(** X5.  After a merge every field of the table whose translation is not
    [None] is in [[metadata]] under its target name with that translation,
    whatever the option held before: [home_page] under [url], [summary]
    under [description], the others under their own name (lines 55-72 and
    105-108). *)
Theorem X5_translated_fields (w : World) (dir : string)
  (conf conf' : ConfigParser.t) (key : string) (h : handler) (v : string) :
  merge w dir conf = Ok conf' ->
  In (key, h) METADATA_KEYS ->
  serialize w h (dist_attr w key) = Some v ->
  option_value conf' "metadata" (setup_cfg_name h) = Some v.
Proof.
  intros H Hin Hs.
  destruct (merge_option_value _ _ _ _ "metadata" (setup_cfg_name h) H)
    as (acts & Hp & ->).
  rewrite (plan_last_write_metadata _ _ _ _ Hp).
  unfold metadata_actions.
  rewrite (last_write_field w METADATA_KEYS key h v Hin Hs); [reflexivity| |].
  - apply (table_names_stored (key, h) Hin).
  - intros kh' Hin' E. now apply table_names_distinct.
Qed.

Lemma X5_translated_fields_witness :
  option_value full_conf "metadata" "url" = Some "old"
  /\ exists conf',
      merge full_world "foo.egg-info" full_conf = Ok conf'
      /\ option_value conf' "metadata" "url" = Some "https://foo".
Proof.
  split; [reflexivity|].
  eexists. split; [vm_compute; reflexivity|].
  refine (X5_translated_fields full_world "foo.egg-info" full_conf _
            "home_page" (str_handler "url") "https://foo" _ _ _).
  - vm_compute. reflexivity.
  - simpl. tauto.
  - reflexivity.
Defined.

Lemma eqb_false_of_not_In (x : string) (l : list string) (y : string) :
  ~ In x l -> In y l -> String.eqb y x = false.
Proof.
  intros Hout Hin. apply String.eqb_neq. intros ->. contradiction.
Qed.

(** X6.  A merge changes no option of [[metadata]] other than the
    seventeen target names of the table, and no option of [[options]] other
    than [zip_safe], [packages], [include_package_data], [python_requires]
    and [install_requires]: every other option of these sections has the
    value it had (lines 105-115 and 155). *)
Theorem X6_other_options_kept (w : World) (dir : string)
  (conf conf' : ConfigParser.t) (k : string) :
  merge w dir conf = Ok conf' ->
  (~ In k (map (fun kh => setup_cfg_name (snd kh)) METADATA_KEYS) ->
   option_value conf' "metadata" k = option_value conf "metadata" k)
  /\ (~ In k ["zip_safe"; "packages"; "include_package_data";
              "python_requires"; "install_requires"] ->
      option_value conf' "options" k = option_value conf "options" k).
Proof.
  intros H. split; intros Hout.
  - destruct (merge_option_value _ _ _ _ "metadata" k H) as (acts & Hp & ->).
    rewrite (plan_last_write_metadata _ _ _ _ Hp).
    destruct (last_write (metadata_actions w) "metadata" k) as [v|] eqn:E;
      [|reflexivity].
    apply last_write_fields_Some in E. destruct E as (kh & Hin & _ & Hn).
    rewrite (table_names_stored kh Hin) in Hn. exfalso. apply Hout.
    rewrite <- Hn.
    apply (in_map (fun kh => setup_cfg_name (snd kh)) _ _ Hin).
  - destruct (merge_option_value _ _ _ _ "options" k H) as (acts & Hp & ->).
    rewrite (plan_last_write_options _ _ _ _ Hp)
      by (intros ->; apply Hout; simpl; tauto).
    unfold options_actions.
    assert (E : forall y, In y ["zip_safe"; "packages"; "include_package_data";
                                "python_requires"; "install_requires"] ->
                          String.eqb y k = false)
      by (intros y; now apply eqb_false_of_not_In).
    destruct (dist_requires_python w); cbn [app last_write sets_option];
      repeat match goal with
             | |- context [ConfigParser.optionxform ?x] =>
                 change (ConfigParser.optionxform x) with x
             end;
      rewrite ?(E "zip_safe"), ?(E "packages"), ?(E "include_package_data"),
        ?(E "python_requires") by (simpl; tauto);
      rewrite ?andb_false_r; reflexivity.
Qed.

Lemma X6_other_options_kept_witness :
  exists conf',
    merge full_world "foo.egg-info" full_conf = Ok conf'
    /\ option_value conf' "metadata" "custom" = Some "kept".
Proof.
  eexists. split; [vm_compute; reflexivity|].
  refine (proj1 (X6_other_options_kept full_world "foo.egg-info" full_conf _
                   "custom" _) _).
  - vm_compute. reflexivity.
  - simpl. intros H.
    repeat (destruct H as [H|H]; [discriminate H|]). exact H.
Defined.


(** ** Files that are not there, groups that are not there *)

Lemma plan_avoids (w : World) (dir : string) (acts : list action) (s : string) :
  plan w dir = Ok acts ->
  s <> "metadata" -> s <> "options" ->
  (forall ep, entry_points_actions w dir = Ok ep ->
              Forall (fun a => action_section a <> s) ep) ->
  (forall rq, requires_actions w dir = Ok rq ->
              Forall (fun a => action_section a <> s) rq) ->
  Forall (fun a => action_section a <> s) acts.
Proof.
  intros H Hm Ho Hep Hrq.
  destruct (plan_Ok _ _ _ H) as (ep & rq & Eep & Erq & ->).
  apply Forall_app; split.
  { repeat constructor; cbn [action_section]; congruence. }
  apply Forall_app; split.
  { eapply Forall_impl; [|apply metadata_actions_sections].
    intros a ->. congruence. }
  apply Forall_app; split.
  { eapply Forall_impl; [|apply options_actions_sections].
    intros a ->. congruence. }
  apply Forall_app; split; auto.
Qed.

Lemma merge_section_frame (w : World) (dir : string)
  (conf conf' : ConfigParser.t) (s : string) :
  merge w dir conf = Ok conf' ->
  (forall acts, plan w dir = Ok acts ->
                Forall (fun a => action_section a <> s) acts) ->
  get (ConfigParser.sections conf') s = get (ConfigParser.sections conf) s.
Proof.
  intros H Hav. apply merge_plan in H. destruct H as (acts & c & Hp & Hf & ->).
  rewrite get_sort_sections.
  apply (run_section_frame acts conf c s); [|auto|exact Hf].
  eapply plan_script_sections; eauto.
Qed.

(** X7.  Without [entry_points.txt] in the metadata directory a merge
    leaves the section [[options.entry_points]] as it was: missing if it was
    missing, and with the options of an earlier run, in their order, if it
    was there (line 118). *)
Theorem X7_no_entry_points (w : World) (dir : string)
  (conf conf' : ConfigParser.t) :
  path_exists w (path_join dir "entry_points.txt") = false ->
  merge w dir conf = Ok conf' ->
  get (ConfigParser.sections conf') "options.entry_points"
  = get (ConfigParser.sections conf) "options.entry_points".
Proof.
  intros Hno H. apply (merge_section_frame _ _ _ _ _ H).
  intros acts Hp. apply (plan_avoids _ _ _ _ Hp); try discriminate.
  - intros ep Hep. unfold entry_points_actions in Hep. rewrite Hno in Hep.
    apply Ok_inj in Hep. subst ep. constructor.
  - intros rq Hrq. eapply Forall_impl; [|eapply requires_actions_sections; eauto].
    intros a [-> | ->]; discriminate.
Qed.

Lemma X7_no_entry_points_witness :
  exists conf',
    merge readme_world "foo.egg-info" earlier_conf = Ok conf'
    /\ get (ConfigParser.sections conf') "options.entry_points"
       = Some [("console_scripts", LF ++ "old = old:main")].
Proof.
  eexists. split; [vm_compute; reflexivity|].
  refine (X7_no_entry_points readme_world "foo.egg-info" earlier_conf _ _ _).
  - reflexivity.
  - vm_compute. reflexivity.
Defined.

(** X8.  Without [requires.txt] in the metadata directory a merge leaves
    the section [[options.extras_require]] and the option [install_requires]
    of [[options]] as they were: requirements an earlier run wrote are not
    removed (line 134). *)
Theorem X8_no_requires (w : World) (dir : string)
  (conf conf' : ConfigParser.t) :
  path_exists w (path_join dir "requires.txt") = false ->
  merge w dir conf = Ok conf' ->
  get (ConfigParser.sections conf') "options.extras_require"
  = get (ConfigParser.sections conf) "options.extras_require"
  /\ option_value conf' "options" "install_requires"
     = option_value conf "options" "install_requires".
Proof.
  intros Hno H.
  assert (Hrq : forall rq, requires_actions w dir = Ok rq -> rq = []).
  { intros rq Hrq. unfold requires_actions in Hrq. rewrite Hno in Hrq.
    apply Ok_inj in Hrq. now subst rq. }
  split.
  - apply (merge_section_frame _ _ _ _ _ H).
    intros acts Hp. apply (plan_avoids _ _ _ _ Hp); try discriminate.
    + intros ep Hep.
      eapply Forall_impl; [|eapply entry_points_actions_sections; eauto].
      intros a ->. discriminate.
    + intros rq E. rewrite (Hrq _ E). constructor.
  - destruct (merge_option_value _ _ _ _ "options" "install_requires" H)
      as (acts & Hp & ->).
    destruct (plan_Ok _ _ _ Hp) as (ep & rq & Eep & Erq & ->).
    rewrite (Hrq _ Erq), !last_write_app. cbn [last_write].
    rewrite (last_write_section ep "options.entry_points")
      by (discriminate || eapply entry_points_actions_sections; eauto).
    rewrite (last_write_section (metadata_actions w) "metadata")
      by (discriminate || apply metadata_actions_sections).
    unfold options_actions.
    destruct (dist_requires_python w); reflexivity.
Qed.

Lemma X8_no_requires_witness :
  exists conf',
    merge readme_world "foo.egg-info" earlier_conf = Ok conf'
    /\ get (ConfigParser.sections conf') "options.extras_require"
       = Some [("test", "pytest")]
    /\ option_value conf' "options" "install_requires" = Some (LF ++ "old").
Proof.
  eexists. split; [vm_compute; reflexivity|].
  refine (X8_no_requires readme_world "foo.egg-info" earlier_conf _ _ _).
  - reflexivity.
  - vm_compute. reflexivity.
Defined.

Lemma requires_line_default (st : string * dict (list string)) (line : string) :
  (startswith line "[" = true -> slice_1_m1 (strip line) = "default") ->
  fst st = "default" ->
  Forall (fun g => g = "default") (keys (snd st)) ->
  fst (requires_line st line) = "default"
  /\ Forall (fun g => g = "default") (keys (snd (requires_line st line))).
Proof.
  destruct st as [cur requires]. cbn [fst snd]. intros Hline -> Hall.
  unfold requires_line.
  destruct (startswith line "["); [now split; auto|].
  destruct (negb (String.eqb (strip line) "")); cbn [fst snd]; [|now split].
  split; [reflexivity|]. apply Forall_forall. intros g Hg.
  apply In_keys_set in Hg. destruct Hg as [->|Hg]; [reflexivity|].
  rewrite Forall_forall in Hall. now apply Hall.
Qed.

Lemma parse_requires_default (lines : list string) :
  Forall (fun line => startswith line "[" = true ->
                      slice_1_m1 (strip line) = "default") lines ->
  Forall (fun g => g = "default") (keys (parse_requires lines)).
Proof.
  unfold parse_requires. intros H.
  assert (G : forall st,
             fst st = "default" ->
             Forall (fun g => g = "default") (keys (snd st)) ->
             Forall (fun g => g = "default")
                    (keys (snd (fold_left requires_line lines st)))).
  { induction H as [|line lines Hline _ IH]; intros st Hst Hall; [exact Hall|].
    cbn [fold_left].
    destruct (requires_line_default st line Hline Hst Hall) as [Hst' Hall'].
    now apply IH. }
  apply G; [reflexivity|constructor].
Qed.

Lemma length_keys {V : Type} (d : dict V) : List.length (keys d) = List.length d.
Proof. unfold keys. apply length_map. Qed.

Lemma one_group (requires : dict (list string)) :
  NoDup (keys requires) ->
  Forall (fun g => g = "default") (keys requires) ->
  (1 <? List.length (touch_default requires)) = false.
Proof.
  intros Hnd Hall. apply Nat.ltb_ge. unfold touch_default.
  destruct (mem requires "default") eqn:E.
  - rewrite <- length_keys.
    destruct (keys requires) as [|a [|b l]]; cbn [List.length]; try lia.
    exfalso. inversion Hall as [|? ? Ha Hall']; subst.
    inversion Hall' as [|? ? Hb _]; subst.
    inversion Hnd as [|? ? Hout _]; subst. apply Hout. now left.
  - destruct requires as [|[g l] requires]; [cbn; lia|].
    exfalso. apply Forall_inv in Hall. cbn [fst] in Hall. subst g.
    unfold mem in E. cbn [get] in E. rewrite String.eqb_refl in E.
    discriminate E.
Qed.

(** X9.  When [requires.txt] names no group but [default], that is when
    every line that starts with a bracket is a header of [default], a merge
    leaves the section [[options.extras_require]] as it was: it is not
    created, and one an earlier run wrote keeps its options
    (lines 157-163). *)
Theorem X9_default_group_only (w : World) (dir : string) (content : string)
  (conf conf' : ConfigParser.t) :
  path_lookup w (path_join dir "requires.txt") = Some (File content) ->
  Forall (fun line => startswith line "[" = true ->
                      slice_1_m1 (strip line) = "default")
         (file_lines content) ->
  merge w dir conf = Ok conf' ->
  get (ConfigParser.sections conf') "options.extras_require"
  = get (ConfigParser.sections conf) "options.extras_require".
Proof.
  intros Hfile Hlines H. apply (merge_section_frame _ _ _ _ _ H).
  intros acts Hp. apply (plan_avoids _ _ _ _ Hp); try discriminate.
  - intros ep Hep.
    eapply Forall_impl; [|eapply entry_points_actions_sections; eauto].
    intros a ->. discriminate.
  - intros rq Hrq. unfold requires_actions, path_exists in Hrq.
    rewrite Hfile in Hrq. apply Ok_inj in Hrq. subst rq.
    unfold set_requires_actions.
    rewrite (one_group _ (parse_requires_NoDup _)
               (parse_requires_default _ Hlines)).
    repeat constructor. discriminate.
Qed.

Lemma X9_default_group_only_witness :
  exists conf',
    merge full_world "foo.egg-info" earlier_conf = Ok conf'
    /\ option_value conf' "options" "install_requires"
       = Some (LF ++ "a" ++ LF ++ "b")
    /\ get (ConfigParser.sections conf') "options.extras_require"
       = Some [("test", "pytest")].
Proof.
  eexists. split; [vm_compute; reflexivity|]. split; [reflexivity|].
  refine (X9_default_group_only full_world "foo.egg-info"
            (text ["a"; ""; "b"]) earlier_conf _ _ _ _).
  - reflexivity.
  - vm_compute. repeat constructor; discriminate.
  - vm_compute. reflexivity.
Defined.


(** ** A field that comes as a string *)

Lemma split_go_cons (sep : string) (skip : nat) (cur s : string) :
  exists x l, split_go sep skip cur s = x :: l.
Proof.
  revert skip cur. induction s as [|c s IH]; intros skip cur; cbn [split_go].
  - eauto.
  - destruct skip as [|k]; [|apply IH].
    destruct (String.prefix sep (String c s)); [eauto|apply IH].
Qed.

(** Joining the pieces of a string by the separator it was split at gives
    the string back. *)
Lemma join_split_go (c : ascii) (cur s : string) :
  join (String c "") (split_go (String c "") 0 cur s) = cur ++ s.
Proof.
  revert cur. induction s as [|d s IH]; intros cur.
  - cbn [split_go join String.concat]. now rewrite append_empty_r.
  - cbn [split_go]. rewrite prefix_single.
    destruct (Ascii.eqb_spec c d) as [<-|Hne].
    + cbn [String.length Nat.sub].
      destruct (split_go_cons (String c "") 0 "" s) as (x & l & E).
      specialize (IH ""). rewrite E in IH |- *. unfold join in IH |- *.
      change (String.concat (String c "") (cur :: x :: l))
        with (cur ++ String c "" ++ String.concat (String c "") (x :: l)).
      rewrite IH. reflexivity.
    + rewrite IH. apply append_cons_assoc.
Qed.

Lemma join_split (c : ascii) (s : string) :
  join (String c "") (split s (String c "")) = s.
Proof. unfold split. now rewrite join_split_go. Qed.

(** X10.  A list field that comes as a string is split at its commas,
    and its translation is [None] for the string ["UNKNOWN"] only: the empty
    string is one empty element and is written as an empty value.  A string
    without a comma is written as it is, after the line separator in the
    multi-line form (lines 43-52). *)
Theorem X10_string_field (w : World) (name : string) (newline : bool)
  (s : string) :
  (serialize w (list_comma_handler name newline) (PyStr s) = None
   <-> s = "UNKNOWN")
  /\ (s <> "UNKNOWN" -> contains_char ","%char s = false ->
      serialize w (list_comma_handler name newline) (PyStr s)
      = Some (if newline then linesep ++ s else s)).
Proof.
  assert (Hunk : split s "," = ["UNKNOWN"] -> s = "UNKNOWN").
  { intros E. rewrite <- (join_split ","%char s).
    change (String ","%char "") with "," in *. now rewrite E. }
  split; [split|].
  - unfold serialize, list_eqb.
    destruct (split_go_cons "," 0 "" s) as (x & l & E). unfold split in *.
    rewrite E in *. cbn [List.length Nat.eqb orb].
    destruct (list_eq_dec string_dec (x :: l) ["UNKNOWN"]) as [El|];
      [intros _; now apply Hunk|].
    destruct newline; discriminate.
  - intros ->. reflexivity.
  - intros Hne Hc.
    assert (E : split s "," = [s]).
    { unfold split. change "," with (String ","%char "").
      now rewrite split_go_last. }
    unfold serialize, list_eqb. rewrite E. cbn [List.length Nat.eqb orb].
    destruct (list_eq_dec string_dec [s] ["UNKNOWN"]) as [El|]; [congruence|].
    destruct newline; reflexivity.
Qed.

Lemma X10_string_field_witness :
  serialize readme_world (list_comma_handler "keywords" false) (PyStr "")
  = Some "".
Proof.
  refine (proj2 (X10_string_field readme_world "keywords" false "") _ _).
  - discriminate.
  - reflexivity.
Defined.


(** ** Values the parser refuses *)

Lemma before_set_raises (v : string) (e : exn) :
  ConfigParser.before_set v = Raise e -> e = ValueError.
Proof.
  unfold ConfigParser.before_set. destruct (contains_char _ _); congruence.
Qed.

Lemma accepted_dec (v : string) :
  accepted v \/ ConfigParser.before_set v = Raise ValueError.
Proof.
  unfold accepted. destruct (String.eqb v ""); [now left|].
  destruct (ConfigParser.before_set v) as [v'|e] eqn:E.
  - left. f_equal. now apply before_set_Ok.
  - right. f_equal. exact (before_set_raises v e E).
Qed.

Lemma set_option_rejects (conf : ConfigParser.t) (s k v : string) :
  ConfigParser.before_set v = Raise ValueError ->
  ConfigParser.set_option conf s k v = Raise ValueError.
Proof.
  intros H. unfold ConfigParser.set_option.
  destruct (String.eqb_spec v "") as [->|_]; [discriminate H|].
  now rewrite H.
Qed.

(** The options of one section that is there are set one after the other
    until a value is refused. *)
Lemma run_sets (S : string) (acts : list action) (conf : ConfigParser.t) :
  script_section S = true ->
  ConfigParser.has_section conf S = true ->
  Forall (fun a => exists k v, a = SetOption S k v) acts ->
  (Forall (fun a => match a with
                    | SetOption _ _ v => accepted v
                    | EnsureSection _ => True
                    end) acts ->
   exists c, for_each acts act conf = Ok c)
  /\ (Exists (fun a => match a with
                       | SetOption _ _ v =>
                           ConfigParser.before_set v = Raise ValueError
                       | EnsureSection _ => False
                       end) acts ->
      for_each acts act conf = Raise ValueError).
Proof.
  intros HS Hhas Hall. revert conf Hhas.
  induction Hall as [|a acts (k & v & ->) _ IH]; intros conf Hhas.
  - split; [intros _; now exists conf|]. intros H. inversion H.
  - destruct (proj1 (has_section_get conf S) Hhas) as (d & Hd).
    cbn [for_each act].
    destruct (accepted_dec v) as [Hv|Hv].
    + destruct (set_option_succeeds conf S k v d HS Hv Hd) as (c & Hc).
      rewrite Hc. cbn [bind].
      assert (Hhas' : ConfigParser.has_section c S = true).
      { apply (act_section_kept conf c (SetOption S k v) S HS Hc Hhas). }
      destruct (IH c Hhas') as [IH1 IH2]. split.
      * intros H. apply IH1. now apply Forall_inv_tail in H.
      * intros H. apply IH2. apply Exists_cons in H. destruct H as [H|H]; [|exact H].
        unfold accepted in Hv.
        destruct (String.eqb_spec v "") as [->|_]; [discriminate H|congruence].
    + rewrite (set_option_rejects conf S k v Hv). cbn [bind]. split; [|reflexivity].
      intros H. apply Forall_inv in H. unfold accepted in H.
      destruct (String.eqb_spec v "") as [->|_]; [discriminate Hv|congruence].
Qed.

Lemma ensure_section_script (conf : ConfigParser.t) (s : string) :
  script_section s = true ->
  exists c, ensure_section conf s = Ok c.
Proof.
  intros Hs. unfold ensure_section, ConfigParser.add_section.
  unfold ConfigParser.has_section.
  destruct (mem (ConfigParser.sections conf) s); [eauto|].
  pose proof (script_section_plain _ Hs) as E.
  apply orb_false_iff in E. destruct E as [_ E]. rewrite E. eauto.
Qed.

Lemma metadata_actions_sets (w : World) :
  Forall (fun a => exists k v, a = SetOption "metadata" k v)
         (metadata_actions w).
Proof.
  unfold metadata_actions. induction METADATA_KEYS as [|kh l IH]; simpl.
  - constructor.
  - apply Forall_app. split; [|exact IH].
    destruct (serialize _ _ _); repeat constructor. eauto.
Qed.

(** X11.  When the translation of a field of the table is a value the
    parser refuses, one with a percent sign that is neither doubled nor the
    start of a reference, the merge dies of [ValueError] whatever the
    document held, and the run ends with that exception without writing
    [setup.cfg] (line 108). *)
Theorem X11_refused_value (w : World) (dir : string) (key : string)
  (h : handler) (v : string) :
  glob_egg_info w = [dir] ->
  In (key, h) METADATA_KEYS ->
  serialize w h (dist_attr w key) = Some v ->
  ConfigParser.before_set v = Raise ValueError ->
  (forall conf, merge w dir conf = Raise ValueError)
  /\ (forall conf, read_config w "setup.cfg" = Ok conf ->
                   main w = Uncaught ValueError).
Proof.
  intros Hg Hin Hs Hv.
  assert (Hm : forall conf, merge w dir conf = Raise ValueError).
  { intros conf. unfold merge.
    destruct (ensure_section_script conf "metadata" eq_refl) as (c1 & E1).
    rewrite E1. cbn [bind].
    destruct (ensure_section_script c1 "options" eq_refl) as (c2 & E2).
    rewrite E2. cbn [bind].
    rewrite populate_metadata_actions.
    assert (Hhas : ConfigParser.has_section c2 "metadata" = true).
    { apply (act_section_kept c1 c2 (EnsureSection "options") "metadata"
               eq_refl E2).
      eapply ensure_section_has; eauto. }
    rewrite (proj2 (run_sets "metadata" (metadata_actions w) c2 eq_refl Hhas
                      (metadata_actions_sets w))); [reflexivity|].
    apply Exists_exists.
    exists (SetOption "metadata" (setup_cfg_name h) v). split; [|exact Hv].
    unfold metadata_actions. apply in_flat_map. exists (key, h).
    split; [exact Hin|]. cbn [fst snd]. rewrite Hs. now left. }
  split; [exact Hm|].
  intros conf Hr. unfold main. rewrite Hg. cbn [List.length Nat.eqb negb hd].
  unfold translate. rewrite Hr. cbn [bind]. now rewrite Hm.
Qed.

Lemma X11_refused_value_witness :
  merge percent_world "foo.egg-info" earlier_conf = Raise ValueError
  /\ main percent_world = Uncaught ValueError.
Proof.
  assert (H := X11_refused_value percent_world "foo.egg-info" "summary"
                 (str_handler "description") "100% fun").
  destruct H as [H1 H2].
  - reflexivity.
  - simpl. tauto.
  - reflexivity.
  - vm_compute. reflexivity.
  - split; [apply H1|]. apply (H2 ConfigParser.empty). reflexivity.
Defined.


(** ** The document the run starts from does not decide whether it ends well *)

Lemma scoped_mono (acts : list action) (known known' : list string) :
  (forall s, In s known -> In s known') ->
  scoped known acts = true -> scoped known' acts = true.
Proof.
  revert known known'. induction acts as [|[s|s k v] acts IH];
    intros known known' Hincl; cbn [scoped]; [reflexivity| |].
  - apply IH. intros s' [->|H]; [now left|right; auto].
  - intros H. apply andb_true_iff in H. destruct H as [H1 H2].
    apply andb_true_iff. split; [|eapply IH; eauto].
    apply existsb_eqb_In. apply existsb_eqb_In in H1. auto.
Qed.

Lemma scoped_sets (S : string) (known : list string) (l l2 : list action) :
  In S known ->
  Forall (fun a => exists k v, a = SetOption S k v) l ->
  scoped known (l ++ l2) = scoped known l2.
Proof.
  intros Hin H. induction H as [|a l (k & v & ->) _ IH]; [reflexivity|].
  cbn [app scoped]. rewrite IH.
  now rewrite (proj2 (existsb_eqb_In S known) Hin).
Qed.

Lemma options_actions_sets (w : World) (dir : string) :
  Forall (fun a => exists k v, a = SetOption "options" k v)
         (options_actions w dir).
Proof.
  unfold options_actions.
  destruct (dist_requires_python w); repeat constructor; eauto.
Qed.

Lemma entry_points_actions_shape (w : World) (dir : string)
  (ep : list action) :
  entry_points_actions w dir = Ok ep ->
  ep = []
  \/ exists sets,
      ep = EnsureSection "options.entry_points" :: sets
      /\ Forall (fun a => exists k v, a = SetOption "options.entry_points" k v)
                sets.
Proof.
  unfold entry_points_actions. destruct (path_exists w _).
  - intros H. apply bind_Ok in H. destruct H as (entry & _ & H).
    apply bind_Ok in H. destruct H as (sets & Hs & H).
    apply Ok_inj in H. subst ep. right. exists sets. split; [reflexivity|].
    eapply map_outcome_Forall; [|exact Hs].
    intros x y Hy. apply bind_Ok in Hy. destruct Hy as (v & _ & Hy).
    apply Ok_inj in Hy. subst y. eauto.
  - intros H. apply Ok_inj in H. now left.
Qed.

Lemma requires_actions_scoped (w : World) (dir : string) (rq : list action)
  (known : list string) :
  requires_actions w dir = Ok rq ->
  In "options" known -> scoped known rq = true.
Proof.
  unfold requires_actions. intros H Hin. destruct (path_exists w _).
  - destruct (path_lookup w _) as [[content|]|]; try discriminate.
    apply Ok_inj in H. subst rq. unfold set_requires_actions.
    cbn [scoped]. rewrite (proj2 (existsb_eqb_In "options" known) Hin).
    cbn [andb]. destruct (1 <? _); [|reflexivity].
    cbn [scoped].
    rewrite <- (app_nil_r (map _ _)).
    rewrite (scoped_sets "options.extras_require"); [reflexivity|now left|].
    apply Forall_map. apply Forall_forall. intros x _. eauto.
  - apply Ok_inj in H. now subst rq.
Qed.

Lemma plan_scoped (w : World) (dir : string) (acts : list action) :
  plan w dir = Ok acts -> scoped [] acts = true.
Proof.
  intros H. destruct (plan_Ok _ _ _ H) as (ep & rq & Hep & Hrq & ->).
  cbn [app scoped].
  rewrite (scoped_sets "metadata") by (simpl; auto using metadata_actions_sets).
  rewrite (scoped_sets "options") by (simpl; auto using options_actions_sets).
  destruct (entry_points_actions_shape _ _ _ Hep) as [->|(sets & -> & Hsets)].
  - apply (requires_actions_scoped _ _ _ _ Hrq). simpl. auto.
  - cbn [app scoped].
    rewrite (scoped_sets "options.entry_points") by (simpl; auto).
    apply (requires_actions_scoped _ _ _ _ Hrq). simpl. auto.
Qed.

(** Actions whose values the parser takes and whose sections are made sure
    of in time go through on any document. *)
Lemma run_scoped (acts : list action) (known : list string)
  (conf : ConfigParser.t) :
  scoped known acts = true ->
  Forall (fun a => script_section (action_section a) = true) acts ->
  Forall (fun a => match a with
                   | SetOption _ _ v => accepted v
                   | EnsureSection _ => True
                   end) acts ->
  (forall s, In s known -> ConfigParser.has_section conf s = true) ->
  exists c, for_each acts act conf = Ok c.
Proof.
  revert known conf. induction acts as [|a acts IH];
    intros known conf Hsc Hs Hacc Hknown; [now exists conf|].
  apply Forall_cons_iff in Hs. destruct Hs as [Ha Hs].
  apply Forall_cons_iff in Hacc. destruct Hacc as [Hv Hacc].
  destruct a as [s|s k v]; cbn [scoped] in Hsc; cbn [for_each act].
  - destruct (ensure_section_script conf s Ha) as (c & Hc).
    rewrite Hc. cbn [bind]. apply (IH (s :: known)); try assumption.
    intros s' [<-|H].
    + eapply ensure_section_has; eauto.
    + apply (act_section_kept conf c (EnsureSection s) s' Ha Hc). auto.
  - apply andb_true_iff in Hsc. destruct Hsc as [Hin Hsc].
    apply existsb_eqb_In in Hin.
    destruct (proj1 (has_section_get conf s) (Hknown _ Hin)) as (d & Hd).
    destruct (set_option_succeeds conf s k v d Ha Hv Hd) as (c & Hc).
    rewrite Hc. cbn [bind]. apply (IH known); try assumption.
    intros s' H.
    apply (act_section_kept conf c (SetOption s k v) s' Ha Hc). auto.
Qed.

(** X12.  Whether a merge ends well does not depend on the document it
    starts from: when it ends well on one document it ends well on every
    other.  Every option then either has the same value in the two results,
    or has in each result the value it had in the document that result
    started from (lines 95-163). *)
Theorem X12_start_independent (w : World) (dir : string)
  (conf conf' conf0 : ConfigParser.t) :
  merge w dir conf = Ok conf' ->
  exists conf0',
    merge w dir conf0 = Ok conf0'
    /\ forall s k,
        option_value conf' s k = option_value conf0' s k
        \/ (option_value conf' s k = option_value conf s k
            /\ option_value conf0' s k = option_value conf0 s k).
Proof.
  intros H. pose proof H as Hm.
  apply merge_plan in H. destruct H as (acts & c & Hp & Hf & ->).
  destruct (run_scoped acts [] conf0 (plan_scoped _ _ _ Hp)
              (plan_script_sections _ _ _ Hp) (run_accepts _ _ _ Hf))
    as (c0 & Hc0); [intros s []|].
  assert (Hm0 : merge w dir conf0 = Ok (sort_sections c0)).
  { apply merge_plan. exists acts, c0. auto. }
  exists (sort_sections c0). split; [exact Hm0|].
  intros s k.
  destruct (merge_option_value _ _ _ _ s k Hm) as (a1 & Hp1 & ->).
  destruct (merge_option_value _ _ _ _ s k Hm0) as (a2 & Hp2 & ->).
  assert (a1 = a2) as -> by (apply Ok_inj; congruence).
  destruct (last_write a2 s k); [now left|now right].
Qed.

Lemma X12_start_independent_witness :
  exists conf0', merge full_world "foo.egg-info" earlier_conf = Ok conf0'.
Proof.
  destruct (X12_start_independent full_world "foo.egg-info" full_conf
              (match merge full_world "foo.egg-info" full_conf with
               | Ok c => c
               | Raise _ => ConfigParser.empty
               end)
              earlier_conf) as (conf0' & H0 & _).
  - vm_compute. reflexivity.
  - exists conf0'. exact H0.
Defined.


(** ** What a merge keeps of the form of the document *)

Lemma act_well_formed (conf conf' : ConfigParser.t) (a : action) :
  script_section (action_section a) = true ->
  act conf a = Ok conf' ->
  (well_formed conf -> well_formed conf')
  /\ (stored_names conf -> stored_names conf').
Proof.
  intros Hs H. destruct a as [s|s k v]; cbn [act action_section] in *.
  - apply ensure_section_Ok in H. destruct H as [[_ ->]|[_ ->]]; [now split|].
    split.
    + intros (Hd & Hss & Hall). repeat split; cbn; [exact Hd| |].
      * now apply NoDup_keys_set.
      * apply Forall_set; [exact Hall|]. constructor.
    + intros (Hd & Hall). split; cbn; [exact Hd|].
      apply Forall_set; [exact Hall|]. constructor.
  - apply set_option_Ok in H; [|exact Hs]. destruct H as (d & Hd & ->).
    apply get_In in Hd. split.
    + intros (Hdf & Hss & Hall). repeat split; cbn; [exact Hdf| |].
      * now apply NoDup_keys_set.
      * apply Forall_set; [exact Hall|]. cbn [snd]. apply NoDup_keys_set.
        rewrite Forall_forall in Hall. exact (Hall _ Hd).
    + intros (Hdf & Hall). split; cbn; [exact Hdf|].
      apply Forall_set; [exact Hall|]. cbn [snd]. apply Forall_keys_set.
      * rewrite Forall_forall in Hall. exact (Hall _ Hd).
      * apply optionxform_idem.
Qed.

Lemma run_well_formed (acts : list action) (conf conf' : ConfigParser.t) :
  Forall (fun a => script_section (action_section a) = true) acts ->
  for_each acts act conf = Ok conf' ->
  (well_formed conf -> well_formed conf')
  /\ (stored_names conf -> stored_names conf').
Proof.
  intros Hs. revert conf.
  induction Hs as [|a acts Ha _ IH]; intros conf H; cbn [for_each] in H.
  - apply Ok_inj in H. now subst.
  - apply bind_Ok in H. destruct H as (c & Hc & H).
    destruct (act_well_formed _ _ _ Ha Hc) as [W1 S1].
    destruct (IH _ H) as [W2 S2]. split; auto.
Qed.

(** Sorting moves whole sections: with no section name twice, the sections
    of the sorted document are those of the document, each with its
    options. *)
Lemma sort_sections_perm (conf : ConfigParser.t) :
  NoDup (ConfigParser.section_names conf) ->
  Permutation (ConfigParser.sections (sort_sections conf))
              (ConfigParser.sections conf).
Proof.
  intros Hnd. unfold sort_sections. cbn [ConfigParser.sections].
  eapply Permutation_trans; [apply Permutation_map; apply sorted_perm|].
  assert (P : forall l l' : list (string * dict string),
             l = l' -> Permutation l l') by (intros ? ? ->; reflexivity).
  apply P. exact (rebuild_dict [] (ConfigParser.sections conf) Hnd).
Qed.

Lemma sort_sections_well_formed (conf : ConfigParser.t) :
  (well_formed conf -> well_formed (sort_sections conf))
  /\ (well_formed conf -> stored_names conf -> stored_names (sort_sections conf)).
Proof.
  split.
  - intros (Hd & Hss & Hall). repeat split.
    + exact Hd.
    + change (keys (ConfigParser.sections (sort_sections conf)))
        with (ConfigParser.section_names (sort_sections conf)).
      rewrite section_names_sort.
      eapply Permutation_NoDup; [|exact Hss].
      symmetry. apply sorted_perm.
    + eapply Permutation_Forall; [|exact Hall].
      symmetry. now apply sort_sections_perm.
  - intros (_ & Hss & _) (Hd & Hall). split; [exact Hd|].
    eapply Permutation_Forall; [|exact Hall].
    symmetry. now apply sort_sections_perm.
Qed.

Lemma merge_well_formed (w : World) (dir : string)
  (conf conf' : ConfigParser.t) :
  merge w dir conf = Ok conf' ->
  well_formed conf ->
  well_formed conf' /\ (stored_names conf -> stored_names conf').
Proof.
  intros H Hwf. apply merge_plan in H. destruct H as (acts & c & Hp & Hf & ->).
  destruct (run_well_formed acts conf c (plan_script_sections _ _ _ Hp) Hf)
    as [W S].
  destruct (sort_sections_well_formed c) as [W' S']. auto.
Qed.

(** X13.  A merge keeps the form of the document: when no section name
    and no option name of a section occurred twice, none does afterwards, and
    when every option name was as the parser stores names, in lower case,
    every option name still is, those the run added too
    (lines 95-175). *)
Theorem X13_form_kept (w : World) (dir : string)
  (conf conf' : ConfigParser.t) :
  merge w dir conf = Ok conf' ->
  well_formed conf ->
  stored_names conf ->
  well_formed conf' /\ stored_names conf'.
Proof.
  intros H Hwf Hst. destruct (merge_well_formed _ _ _ _ H Hwf). auto.
Qed.

Lemma X13_form_kept_witness :
  exists conf',
    merge marker_world "foo.egg-info" earlier_conf = Ok conf'
    /\ well_formed conf' /\ stored_names conf'.
Proof.
  eexists. split; [vm_compute; reflexivity|].
  refine (X13_form_kept marker_world "foo.egg-info" earlier_conf _ _ _ _).
  - vm_compute. reflexivity.
  - unfold well_formed, dicts_distinct, earlier_conf. cbn.
    repeat split; repeat constructor; cbn; intuition discriminate.
  - unfold stored_names, dicts_stored, earlier_conf. cbn.
    repeat split; repeat constructor.
Defined.

(** X14.  Merging is idempotent on documents: in the same world, a merge
    of the document a merge produced ends well and gives that document
    again, section order included (lines 95-175). *)
Theorem X14_merge_idempotent (w : World) (dir : string)
  (conf conf1 : ConfigParser.t) :
  well_formed conf ->
  merge w dir conf = Ok conf1 ->
  merge w dir conf1 = Ok conf1.
Proof.
  intros Hwf H. apply (merge_again w dir conf conf1 H).
  exact (proj1 (merge_well_formed _ _ _ _ H Hwf)).
Qed.

Lemma X14_merge_idempotent_witness :
  exists conf1,
    merge marker_world "foo.egg-info" earlier_conf = Ok conf1
    /\ merge marker_world "foo.egg-info" conf1 = Ok conf1.
Proof.
  eexists. split; [vm_compute; reflexivity|].
  refine (X14_merge_idempotent marker_world "foo.egg-info" earlier_conf _ _ _).
  - unfold well_formed, dicts_distinct, earlier_conf. cbn.
    repeat split; repeat constructor; cbn; intuition discriminate.
  - vm_compute. reflexivity.
Defined.

(** X15.  The sort of line 175 moves whole sections: in a document with
    no section name twice, the sections after the sort are the sections
    before it, each with its options in their order, and sorting once more
    changes nothing. *)
Theorem X15_sort_keeps_sections (conf : ConfigParser.t) :
  NoDup (ConfigParser.section_names conf) ->
  Permutation (ConfigParser.sections (sort_sections conf))
              (ConfigParser.sections conf)
  /\ ConfigParser.defaults (sort_sections conf) = ConfigParser.defaults conf
  /\ sort_sections (sort_sections conf) = sort_sections conf.
Proof.
  intros Hnd. split; [now apply sort_sections_perm|]. split; [reflexivity|].
  apply sort_sections_fixed.
  - change (keys (ConfigParser.sections (sort_sections conf)))
      with (ConfigParser.section_names (sort_sections conf)).
    rewrite section_names_sort.
    eapply Permutation_NoDup; [|exact Hnd]. symmetry. apply sorted_perm.
  - change (keys (ConfigParser.sections (sort_sections conf)))
      with (ConfigParser.section_names (sort_sections conf)).
    rewrite section_names_sort. apply sorted_sorted.
Qed.

Lemma X15_sort_keeps_sections_witness :
  Permutation (ConfigParser.sections (sort_sections earlier_conf))
              (ConfigParser.sections earlier_conf).
Proof.
  refine (proj1 (X15_sort_keeps_sections earlier_conf _)).
  cbn. repeat constructor; cbn; intuition discriminate.
Defined.

(** ** A [setup.cfg] that cannot be written *)

(** X16.  When [setup.cfg] is a directory the read of line 91 passes over
    it silently, the merge is done on an empty document, and the run never
    ends well: it dies of the exception of the merge if there is one, and of
    [OSError] at line 177 otherwise. *)
Theorem X16_setup_cfg_directory (w : World) (dir : string) :
  glob_egg_info w = [dir] ->
  path_lookup w "setup.cfg" = Some Directory ->
  main w = match merge w dir ConfigParser.empty with
           | Ok _ => Uncaught OSError
           | Raise e => Uncaught e
           end.
Proof.
  intros Hg Hd. unfold main. rewrite Hg. cbn [List.length Nat.eqb negb hd].
  unfold translate, read_config, write_config. rewrite Hd. cbn [bind].
  destruct (merge w dir ConfigParser.empty); reflexivity.
Qed.

Lemma X16_setup_cfg_directory_witness :
  main (foo_world [] [("setup.cfg", Directory)]) = Uncaught OSError.
Proof.
  refine (X16_setup_cfg_directory (foo_world [] [("setup.cfg", Directory)])
            "foo.egg-info" _ _); reflexivity.
Defined.
